(** * Recommending-links: the embedding cache and the top-k similarity engine

    A shallow embedding of [recommendations.py] and the properties of its
    normalizer, dataset signature, embedding cache and ranking loop.

    Conventions of the embedding.
    - A Python [str] is the [string] of the UTF-8 bytes of its code points;
      comparing two such strings byte by byte is comparing them code point
      by code point. A [str] may hold lone surrogates (U+D800 to U+DFFF),
      for which UTF-8 proper has no bytes: such a code point is held as the
      three bytes that the scheme of UTF-8 gives it ([ED], [A0..BF],
      [80..BF]), and the encoders below refuse or drop it as Python does.
    - A pandas cell is [NaN] (missing) or [Str s]: the columns the script
      reads hold text. A column in which [read_csv] finds only numbers or
      booleans has cells of another type, which are not modelled. A row is a
      finite map from column names to cells, a [DataFrame] lists its columns
      and its rows; a row of a frame maps every column of the frame to a
      cell.
    - Similarity scores are finite floats; only their order is used by the
      ranking loop, so they are embedded in the rationals [Qc].
    - The three files the script touches and the log of embedding-model
      invocations form the [world]; every effectful function threads it.
    - [SentenceTransformer], [cosine_similarity] and [np.argsort] belong to
      libraries: they are the fields of the class [Externals]. *)

From Stdlib Require Import Ascii String QArith Qcanon.
From stdpp Require Import base decidable option list sorting numbers strings gmap.

Local Open Scope string_scope.
Local Open Scope list_scope.

(** ** Configuration constants *)

Definition TOP_K : nat := 8.
Definition MAX_ARTICLES : option nat := None.
Definition MODEL_NAME : string := "all-MiniLM-L6-v2".

(** ** Tables *)

Inductive cell : Type :=
| NaN
| Str (s : string).

#[global] Instance cell_eq_dec : EqDecision cell.
Proof. solve_decision. Defined.

Record DataFrame : Type := mkDataFrame {
  columns : list string;
  rows : list (gmap string cell)
}.

(** [df.at[i, c]] and [row[c]] on a column the frame has: a row that lists no
    value for the column holds a missing value there. *)
Definition cell_at (c : string) (r : gmap string cell) : cell :=
  default NaN (r !! c).

Definition url_of (r : gmap string cell) : cell := cell_at "url" r.

Definition isna (c : cell) : bool :=
  match c with NaN => true | Str _ => false end.

(** [df.dropna(subset=["url"])] *)
Definition dropna_url (rs : list (gmap string cell)) : list (gmap string cell) :=
  List.filter (fun r => negb (isna (url_of r))) rs.

(** [df.drop_duplicates(subset=["url"])], with pandas' default
    [keep="first"]: a row is kept when its key was not seen before. *)
Fixpoint drop_duplicates_from (seen : list cell) (rs : list (gmap string cell))
  : list (gmap string cell) :=
  match rs with
  | [] => []
  | r :: rs' =>
      if bool_decide (url_of r ∈ seen) then drop_duplicates_from seen rs'
      else r :: drop_duplicates_from (url_of r :: seen) rs'
  end.

Definition drop_duplicates_url (rs : list (gmap string cell)) : list (gmap string cell) :=
  drop_duplicates_from [] rs.

(** The order [sort_values] uses on a column of strings: strings in
    lexicographic order, missing values last. *)
Definition cell_le (a b : cell) : Prop :=
  match a, b with
  | Str s, Str t => String.le s t
  | _, NaN => True
  | NaN, Str _ => False
  end.

#[global] Instance cell_le_dec : RelDecision cell_le.
Proof. intros [|s] [|t]; simpl; apply _. Defined.

Definition url_le (r1 r2 : gmap string cell) : Prop :=
  cell_le (url_of r1) (url_of r2).

#[global] Instance url_le_dec : RelDecision url_le.
Proof. intros r1 r2; unfold url_le; apply _. Defined.

(** [df.sort_values("url")]. The keys are pairwise distinct when it is
    called, so every sorting algorithm returns the same list. *)
Definition sort_values_url (rs : list (gmap string cell)) : list (gmap string cell) :=
  merge_sort url_le rs.

(** ** Exceptions and results *)

Inductive exn : Type :=
| ValueError (msg : string)
| KeyError (key : string)
| IndexError
| AttributeError
| UnpicklingError
| FileNotFoundError (path : string)
| ModelError.

Inductive result (A : Type) : Type :=
| Ok (a : A)
| Raise (e : exn).
Arguments Ok {A} a.
Arguments Raise {A} e.

#[global] Instance exn_eq_dec : EqDecision exn.
Proof. solve_decision. Defined.

#[global] Instance result_eq_dec {A} `{EqDecision A} : EqDecision (result A).
Proof. solve_decision. Defined.

(** ** The normalizer *)

Definition ensure_unique_and_ordered (df : DataFrame) : result DataFrame :=
  if bool_decide ("url" ∈ columns df) then
    Ok (mkDataFrame (columns df)
          (sort_values_url (drop_duplicates_url (dropna_url (rows df)))))
  else Raise (ValueError "Input CSV must contain a 'url' column.").

(** ** Combined text *)

(** [str.strip()] removes the code points for which [str.isspace()] holds
    from both ends. In UTF-8 these are the bytes 09-0D, 1C-1F and 20 and the
    multi-byte encodings listed in [wide_spaces]. *)
Definition ascii_space (a : ascii) : bool :=
  let n := N_of_ascii a in
  ((9 <=? n)%N && (n <=? 13)%N) || ((28 <=? n)%N && (n <=? 32)%N).

Definition wide_spaces : list (list N) :=
  [ [0xC2; 0x85]; [0xC2; 0xA0]; [0xE1; 0x9A; 0x80];
    [0xE2; 0x80; 0x80]; [0xE2; 0x80; 0x81]; [0xE2; 0x80; 0x82];
    [0xE2; 0x80; 0x83]; [0xE2; 0x80; 0x84]; [0xE2; 0x80; 0x85];
    [0xE2; 0x80; 0x86]; [0xE2; 0x80; 0x87]; [0xE2; 0x80; 0x88];
    [0xE2; 0x80; 0x89]; [0xE2; 0x80; 0x8A]; [0xE2; 0x80; 0xA8];
    [0xE2; 0x80; 0xA9]; [0xE2; 0x80; 0xAF]; [0xE2; 0x81; 0x9F];
    [0xE3; 0x80; 0x80] ]%N.

Fixpoint starts_with (w : list N) (s : list ascii) : option (list ascii) :=
  match w, s with
  | [], _ => Some s
  | n :: w', a :: s' => if (N_of_ascii a =? n)%N then starts_with w' s' else None
  | _ :: _, [] => None
  end.

(** One white-space character at the head of [s], spelled as in [ws]. *)
Definition space_prefix (ws : list (list N)) (s : list ascii) : option (list ascii) :=
  match s with
  | a :: s' =>
      if ascii_space a then Some s'
      else List.fold_right
             (fun w acc => match starts_with w s with Some r => Some r | None => acc end)
             None ws
  | [] => None
  end.

Fixpoint strip_head (fuel : nat) (ws : list (list N)) (s : list ascii) : list ascii :=
  match fuel with
  | O => s
  | S fuel' =>
      match space_prefix ws s with
      | Some s' => strip_head fuel' ws s'
      | None => s
      end
  end.

Definition lstrip (s : list ascii) : list ascii :=
  strip_head (length s) wide_spaces s.

Definition rstrip (s : list ascii) : list ascii :=
  rev (strip_head (length s) (List.map (@rev N) wide_spaces) (rev s)).

Definition strip (s : string) : string :=
  string_of_list_ascii (rstrip (lstrip (list_ascii_of_string s))).

(** [str(x or "")] for a cell [x]: the empty string is falsy and yields
    [""]; the float [nan] is truthy and prints as ["nan"]. *)
Definition str_or_empty (c : cell) : string :=
  match c with
  | NaN => "nan"
  | Str s => s
  end.

(** [row.get(c, "")] *)
Definition row_get (c : string) (r : gmap string cell) : cell :=
  default (Str "") (r !! c).

Fixpoint join (sep : string) (ps : list string) : string :=
  match ps with
  | [] => ""
  | [p] => p
  | p :: ps' => p ++ sep ++ join sep ps'
  end.

Definition nonempty (s : string) : bool :=
  match s with EmptyString => false | String _ _ => true end.

Definition combine_text (row : gmap string cell) : string :=
  let parts :=
    [ str_or_empty (row_get "title" row);
      str_or_empty (row_get "excerpt" row);
      str_or_empty (row_get "keywords" row) ] in
  join ". " (List.map strip (List.filter (fun p => nonempty (strip p)) parts)).


(** ** The dataset signature *)

(** [hashlib.md5] (RFC 1321) on 32-bit words held in [Z]. *)
Module MD5.
Local Open Scope Z_scope.

Definition wrap32 (x : Z) : Z := x mod 2 ^ 32.
Definition not32 (x : Z) : Z := 2 ^ 32 - 1 - x.
Definition rotl32 (x : Z) (c : Z) : Z :=
  Z.lor (wrap32 (Z.shiftl x c)) (Z.shiftr x (32 - c)).

Definition shifts : list Z :=
  [ 7; 12; 17; 22; 7; 12; 17; 22; 7; 12; 17; 22; 7; 12; 17; 22;
    5; 9; 14; 20; 5; 9; 14; 20; 5; 9; 14; 20; 5; 9; 14; 20;
    4; 11; 16; 23; 4; 11; 16; 23; 4; 11; 16; 23; 4; 11; 16; 23;
    6; 10; 15; 21; 6; 10; 15; 21; 6; 10; 15; 21; 6; 10; 15; 21 ].

Definition sines : list Z :=
  [ 0xd76aa478; 0xe8c7b756; 0x242070db; 0xc1bdceee;
    0xf57c0faf; 0x4787c62a; 0xa8304613; 0xfd469501;
    0x698098d8; 0x8b44f7af; 0xffff5bb1; 0x895cd7be;
    0x6b901122; 0xfd987193; 0xa679438e; 0x49b40821;
    0xf61e2562; 0xc040b340; 0x265e5a51; 0xe9b6c7aa;
    0xd62f105d; 0x02441453; 0xd8a1e681; 0xe7d3fbc8;
    0x21e1cde6; 0xc33707d6; 0xf4d50d87; 0x455a14ed;
    0xa9e3e905; 0xfcefa3f8; 0x676f02d9; 0x8d2a4c8a;
    0xfffa3942; 0x8771f681; 0x6d9d6122; 0xfde5380c;
    0xa4beea44; 0x4bdecfa9; 0xf6bb4b60; 0xbebfbc70;
    0x289b7ec6; 0xeaa127fa; 0xd4ef3085; 0x04881d05;
    0xd9d4d039; 0xe6db99e5; 0x1fa27cf8; 0xc4ac5665;
    0xf4292244; 0x432aff97; 0xab9423a7; 0xfc93a039;
    0x655b59c3; 0x8f0ccc92; 0xffeff47d; 0x85845dd1;
    0x6fa87e4f; 0xfe2ce6e0; 0xa3014314; 0x4e0811a1;
    0xf7537e82; 0xbd3af235; 0x2ad7d2bb; 0xeb86d391 ].

Definition nthZ (l : list Z) (i : Z) : Z := nth (Z.to_nat i) l 0.

(** The message followed by 0x80, zeros up to 56 modulo 64, and the bit
    length as eight little-endian bytes. *)
Definition le_bytes (n : nat) (x : Z) : list Z :=
  List.map (fun i => Z.land (Z.shiftr x (8 * Z.of_nat i)) 255) (seq 0 n).

Definition pad (msg : list Z) : list Z :=
  let len := Z.of_nat (length msg) in
  let zeros := Z.to_nat ((55 - len) mod 64) in
  msg ++ [128] ++ replicate zeros 0 ++ le_bytes 8 ((8 * len) mod 2 ^ 64).

Fixpoint words (bs : list Z) : list Z :=
  match bs with
  | b0 :: b1 :: b2 :: b3 :: bs' =>
      (b0 + 2 ^ 8 * b1 + 2 ^ 16 * b2 + 2 ^ 24 * b3) :: words bs'
  | _ => []
  end.

Definition round (m : list Z) (st : Z * Z * Z * Z) (i : Z) : Z * Z * Z * Z :=
  let '(a, b, c, d) := st in
  let '(f, g) :=
    if i <? 16 then (Z.lor (Z.land b c) (Z.land (not32 b) d), i)
    else if i <? 32 then (Z.lor (Z.land d b) (Z.land (not32 d) c), (5 * i + 1) mod 16)
    else if i <? 48 then (Z.lxor (Z.lxor b c) d, (3 * i + 5) mod 16)
    else (Z.lxor c (Z.lor b (not32 d)), (7 * i) mod 16) in
  let f' := wrap32 (f + a + nthZ sines i + nthZ m g) in
  (d, wrap32 (b + rotl32 f' (nthZ shifts i)), b, c).

Definition chunk (st : Z * Z * Z * Z) (m : list Z) : Z * Z * Z * Z :=
  let '(a0, b0, c0, d0) := st in
  let '(a, b, c, d) :=
    fold_left (round m) (List.map Z.of_nat (seq 0 64)) st in
  (wrap32 (a0 + a), wrap32 (b0 + b), wrap32 (c0 + c), wrap32 (d0 + d)).

Fixpoint chunks (fuel : nat) (ws : list Z) (st : Z * Z * Z * Z) : Z * Z * Z * Z :=
  match fuel, ws with
  | S fuel', _ :: _ => chunks fuel' (drop 16 ws) (chunk st (take 16 ws))
  | _, _ => st
  end.

Definition digest (msg : list Z) : list Z :=
  let ws := words (pad msg) in
  let '(a, b, c, d) :=
    chunks (length ws) ws (0x67452301, 0xefcdab89, 0x98badcfe, 0x10325476) in
  le_bytes 4 a ++ le_bytes 4 b ++ le_bytes 4 c ++ le_bytes 4 d.

Definition hex_digit (n : Z) : ascii :=
  nth (Z.to_nat n) (list_ascii_of_string "0123456789abcdef") "0"%char.

(** [hasher.hexdigest()] *)
Definition hexdigest (msg : list Z) : string :=
  string_of_list_ascii
    (flat_map (fun b => [hex_digit (b / 16); hex_digit (b mod 16)]) (digest msg)).
End MD5.

#[global] Instance byte_eq_dec : EqDecision Byte.byte := Byte.byte_eq_dec.

(** The bytes [a b c] hold a lone surrogate. *)
Definition surrogate (a b c : ascii) : bool :=
  ((N_of_ascii a =? 237) && (160 <=? N_of_ascii b) && (N_of_ascii b <=? 191)
   && (128 <=? N_of_ascii c) && (N_of_ascii c <=? 191))%N.

(** The string without its lone surrogates. *)
Fixpoint drop_surrogates (s : string) : string :=
  match s with
  | String a t =>
      match t with
      | String b (String c rest) =>
          if surrogate a b c then drop_surrogates rest
          else String a (drop_surrogates t)
      | _ => String a (drop_surrogates t)
      end
  | EmptyString => EmptyString
  end.

(** The string holds no lone surrogate: it is a string that UTF-8 can
    encode. *)
Definition surrogate_free (s : string) : Prop := drop_surrogates s = s.

#[global] Instance surrogate_free_dec (s : string) : Decision (surrogate_free s).
Proof. unfold surrogate_free. apply _. Defined.

(** [s.encode("utf-8", errors="ignore")]: the bytes of the string, the code
    points that UTF-8 cannot encode being left out. *)
Definition encode_utf8 (s : string) : list Byte.byte :=
  list_byte_of_string (drop_surrogates s).

(** [s.encode("utf-8")] where it returns: the bytes of a string without lone
    surrogates. On a string that holds one the call raises
    [UnicodeEncodeError]; the script encodes its constant [MODEL_NAME] so. *)
Definition encode_utf8_strict (s : string) : list Byte.byte :=
  list_byte_of_string s.

(** [u or ""] for a string [u]: the empty string is the only falsy string. *)
Definition or_empty (u : string) : string :=
  if nonempty u then u else "".

(** The bytes fed to the hasher by the successive [hasher.update] calls. *)
Definition update (hasher : list Byte.byte) (data : list Byte.byte) : list Byte.byte :=
  hasher ++ data.

Definition signature_stream (urls texts : list string) (model_name : string)
  : list Byte.byte :=
  fold_left
    (fun hasher ut =>
       let hasher := update hasher [Byte.x00] in
       let hasher := update hasher (encode_utf8 (or_empty (fst ut))) in
       let hasher := update hasher [Byte.x00] in
       update hasher (encode_utf8 (or_empty (snd ut))))
    (zip urls texts)
    (update [] (encode_utf8_strict model_name)).

Definition dataset_signature (urls texts : list string) (model_name : string) : string :=
  MD5.hexdigest
    (List.map (fun b => Z.of_N (Byte.to_N b)) (signature_stream urls texts model_name)).


(** ** The world: files and the embedding model *)

(** A value found under a key of the unpickled payload. Arrays of other
    ranks than 0 and 2 are not modelled. *)
Inductive pyval : Type :=
| PyNone
| PyStr (s : string)
| PyArray (a : list (list Qc))   (* a 2-d array: [a.shape[0]] is its row count *)
| PyArray0                       (* a 0-d array: [shape] is the empty tuple *)
| PyObject.                      (* any other object: no [shape] attribute *)

#[global] Instance pyval_eq_dec : EqDecision pyval.
Proof. solve_decision. Defined.

(** What [pickle.load] returns: a dict, or an object without [get]. *)
Inductive unpickled : Type :=
| PyDict (d : gmap string pyval)
| PyOther.

(** The content of [EMBEDDINGS_FILE]: bytes that [open] or [pickle.load]
    reject, or the pickle of an object. *)
Inductive pickle_file : Type :=
| Unreadable
| Pickled (o : unpickled).

Record Recommendation : Type := mkRecommendation {
  source_url : cell;
  target_url : cell;
  similarity_score : Qc;
  anchor_text : cell
}.

#[global] Instance Recommendation_eq_dec : EqDecision Recommendation.
Proof. solve_decision. Defined.

(** The files named by [ARTICLES_CSV], [EMBEDDINGS_FILE] and
    [RECOMMENDATIONS_CSV] ([None]: no such file), and the invocations of the
    embedding model so far, oldest first. Console output is not modelled. *)
Record world : Type := mkWorld {
  articles_csv : option DataFrame;
  embeddings_file : option pickle_file;
  recommendations_csv : option (list Recommendation);
  model_calls : list (string * list string)
}.

(** The library functions the script calls. [encode m texts] is
    [SentenceTransformer(m).encode(texts)], which may raise;
    [cosine_similarity] is applied to two-dimensional arrays only. *)
Class Externals : Type := {
  encode : string → list string → result (list (list Qc));
  cosine_similarity : list (list Qc) → list (list Qc);
  argsort : list Qc → list nat
}.

(** Computations that read and write the world and may raise. *)
Definition M (A : Type) : Type := world → result A * world.

Definition ret {A} (a : A) : M A := fun w => (Ok a, w).
Definition raise {A} (e : exn) : M A := fun w => (Raise e, w).
Definition bind {A B} (m : M A) (k : A → M B) : M B :=
  fun w =>
    match m w with
    | (Ok a, w') => k a w'
    | (Raise e, w') => (Raise e, w')
    end.
Definition lift {A} (r : result A) : M A := fun w => (r, w).
Definition try_except {A} (body : M A) (handler : exn → M A) : M A :=
  fun w =>
    match body w with
    | (Ok a, w') => (Ok a, w')
    | (Raise e, w') => handler e w'
    end.

Notation "'do' x <- m ; k" := (bind m (fun x => k))
  (at level 10, x name, m at level 100, k at level 200).
Notation "m ;; k" := (bind m (fun _ => k))
  (at level 100, k at level 200, right associativity).

(** [pd.read_csv(ARTICLES_CSV)] *)
Definition read_csv : M DataFrame :=
  fun w =>
    match articles_csv w with
    | Some df => (Ok df, w)
    | None => (Raise (FileNotFoundError "articles_metadata.csv"), w)
    end.

(** [os.path.exists(EMBEDDINGS_FILE)] *)
Definition path_exists : M bool :=
  fun w => (Ok (bool_decide (is_Some (embeddings_file w))), w).

(** [with open(EMBEDDINGS_FILE, "rb") as f: payload = pickle.load(f)] *)
Definition pickle_load : M unpickled :=
  fun w =>
    match embeddings_file w with
    | Some (Pickled o) => (Ok o, w)
    | Some Unreadable => (Raise UnpicklingError, w)
    | None => (Raise (FileNotFoundError "embeddings.pkl"), w)
    end.

(** [with open(EMBEDDINGS_FILE, "wb") as f: pickle.dump(payload, f, ...)] *)
Definition pickle_dump (payload : gmap string pyval) : M unit :=
  fun w =>
    (Ok tt, mkWorld (articles_csv w) (Some (Pickled (PyDict payload)))
              (recommendations_csv w) (model_calls w)).

(** [os.remove(EMBEDDINGS_FILE)] *)
Definition remove_embeddings_file : M unit :=
  fun w =>
    match embeddings_file w with
    | Some _ =>
        (Ok tt, mkWorld (articles_csv w) None (recommendations_csv w) (model_calls w))
    | None => (Raise (FileNotFoundError "embeddings.pkl"), w)
    end.

(** [pd.DataFrame(...).to_csv(RECOMMENDATIONS_CSV, index=False)] *)
Definition to_csv (recs : list Recommendation) : M unit :=
  fun w =>
    (Ok tt, mkWorld (articles_csv w) (embeddings_file w) (Some recs) (model_calls w)).

(** [SentenceTransformer(model_name).encode(texts)], recorded in the log. *)
Definition model_encode `{Externals} (model_name : string) (texts : list string)
  : M (list (list Qc)) :=
  fun w =>
    (encode model_name texts,
     mkWorld (articles_csv w) (embeddings_file w) (recommendations_csv w)
       (model_calls w ++ [(model_name, texts)])).

(** ** The embedding cache *)

(** [payload.get(key, None)] *)
Definition payload_get (payload : unpickled) (key : string) : result pyval :=
  match payload with
  | PyDict d => Ok (default PyNone (d !! key))
  | PyOther => Raise AttributeError
  end.

(** [stored == s] for a string [s] *)
Definition eq_str (stored : pyval) (s : string) : bool :=
  match stored with
  | PyStr t => bool_decide (t = s)
  | _ => false
  end.

(** The condition of the [if] in the [try] block; [emb.shape[0]] raises on a
    0-d array. [Some a] is the array to return, [None] falls through. *)
Definition validate (emb sig mdl : pyval) (texts : list string)
    (signature model_name : string) : result (option (list (list Qc))) :=
  match emb with
  | PyNone => Ok None
  | PyStr _ | PyObject => Ok None
  | PyArray0 => Raise IndexError
  | PyArray a =>
      if bool_decide (length a = length texts)
         && eq_str sig signature && eq_str mdl model_name
      then Ok (Some a) else Ok None
  end.

Definition load_or_build_embeddings `{Externals}
    (texts : list string) (signature model_name : string) : M (list (list Qc)) :=
  do present <- path_exists;
  do cached <-
    (if (present : bool) then
       try_except
         (do payload <- pickle_load;
          do emb <- lift (payload_get payload "embeddings");
          do sig <- lift (payload_get payload "signature");
          do mdl <- lift (payload_get payload "model");
          lift (validate emb sig mdl texts signature model_name))
         (fun _ => ret None)
     else ret None);
  match cached with
  | Some emb => ret emb
  | None =>
      do emb <- model_encode model_name texts;
      pickle_dump {[ "embeddings" := PyArray emb;
                     "signature" := PyStr signature;
                     "model" := PyStr model_name ]} ;;
      ret emb
  end.

(** ** The ranking loop *)

(** The sentinel written over the self-similarity, [-1.0]. *)
Definition sentinel : Qc := Q2Qc (-1).

(** [a[-k:]] for [k >= 1] *)
Definition last_k {A} (k : nat) (a : list A) : list A :=
  drop (length a - k) a.

(** [df.at[i, c]] *)
Definition df_at (df : DataFrame) (i : nat) (c : string) : result cell :=
  if bool_decide (c ∈ columns df) then
    match rows df !! i with
    | Some r => Ok (cell_at c r)
    | None => Raise (KeyError c)
    end
  else Raise (KeyError c).

(** [r.append(...)] for every element, stopping at the first exception. *)
Fixpoint collect {A B} (f : A → result B) (l : list A) : result (list B) :=
  match l with
  | [] => Ok []
  | x :: l' =>
      match f x with
      | Ok y =>
          match collect f l' with
          | Ok ys => Ok (y :: ys)
          | Raise e => Raise e
          end
      | Raise e => Raise e
      end
  end.

(** The row of the similarity matrix with the self entry masked. *)
Definition masked_scores (similarity_matrix : list (list Qc)) (idx : nat)
  : result (list Qc) :=
  match similarity_matrix !! idx with
  | Some sim_row =>
      if bool_decide (idx < length sim_row) then Ok (<[idx := sentinel]> sim_row)
      else Raise IndexError
  | None => Raise IndexError
  end.

(** [np.argsort(sim_scores)[-top_k:][::-1]] *)
Definition top_indices `{Externals} (sim_scores : list Qc) (top_k : nat) : list nat :=
  reverse (last_k top_k (argsort sim_scores)).

(** The body of the loop over [enumerate(df["url"])]: the rows appended for
    one source. *)
Definition recommendations_for `{Externals} (df : DataFrame)
    (similarity_matrix : list (list Qc)) (top_k : nat)
    (idx : nat) (source : cell) : result (list Recommendation) :=
  match masked_scores similarity_matrix idx with
  | Ok sim_scores =>
      collect
        (fun target_idx =>
           match df_at df target_idx "url" with
           | Ok target =>
               match sim_scores !! target_idx with
               | Some score =>
                   match df_at df target_idx "title" with
                   | Ok title => Ok (mkRecommendation source target score title)
                   | Raise e => Raise e
                   end
               | None => Raise IndexError
               end
           | Raise e => Raise e
           end)
        (top_indices sim_scores top_k)
  | Raise e => Raise e
  end.

Definition build_recommendations `{Externals} (df : DataFrame)
    (similarity_matrix : list (list Qc)) (top_k : nat)
  : result (list Recommendation) :=
  match
    collect (fun p => recommendations_for df similarity_matrix top_k (fst p) (snd p))
      (imap (fun idx r => (idx, url_of r)) (rows df))
  with
  | Ok per_source => Ok (concat per_source)
  | Raise e => Raise e
  end.

(** ** The script *)

(** [similarity_matrix.shape == (n, m)] *)
Definition has_shape (a : list (list Qc)) (n m : nat) : bool :=
  bool_decide (length a = n) && forallb (fun r => bool_decide (length r = m)) a.

(** [(u or "").encode(...)] needs a string: a float has no [encode]. *)
Definition as_str (c : cell) : result string :=
  match c with
  | Str s => Ok s
  | NaN => Raise AttributeError
  end.

(** [df.head(MAX_ARTICLES)] when [MAX_ARTICLES] is truthy *)
Definition limit (df : DataFrame) : DataFrame :=
  match MAX_ARTICLES with
  | Some (S m) => mkDataFrame (columns df) (take (S m) (rows df))
  | _ => df
  end.

(** [main] from the line after [MAX_ARTICLES] is applied: [df] is the
    normalized and capped table. *)
Definition pipeline `{Externals} (df : DataFrame) : M unit :=
  let combined_text := List.map combine_text (rows df) in
  if bool_decide (length (rows df) < 2) then to_csv []
  else
    do urls <- lift (collect as_str (List.map url_of (rows df)));
    let sig := dataset_signature urls combined_text MODEL_NAME in
    do embeddings <- load_or_build_embeddings combined_text sig MODEL_NAME;
    let similarity_matrix := cosine_similarity embeddings in
    let n := length (rows df) in
    do similarity_matrix <-
      (if has_shape similarity_matrix n n then ret similarity_matrix
       else
         do present <- path_exists;
         (if (present : bool) then remove_embeddings_file else ret tt) ;;
         do embeddings <- load_or_build_embeddings combined_text sig MODEL_NAME;
         ret (cosine_similarity embeddings));
    let top_k := max 1 (min TOP_K (n - 1)) in
    do recommendations <- lift (build_recommendations df similarity_matrix top_k);
    to_csv recommendations.

Definition main `{Externals} : M unit :=
  do df <- read_csv;
  do df <- lift (ensure_unique_and_ordered df);
  pipeline (limit df).

(** ** A concrete instance of the library functions

    [np.argsort] sorts short arrays by insertion, which leaves equal scores
    in index order; the embeddings are one-dimensional, where the cosine of
    two vectors is the product of their signs. *)

(** [v[i]] for an index of the array (outside of it: the sentinel). *)
Definition score_at (v : list Qc) (i : nat) : Qc := default sentinel (v !! i).

(** Insertion of the index [i] before the first index that does not score
    lower. *)
Fixpoint insert_index (v : list Qc) (i : nat) (l : list nat) : list nat :=
  match l with
  | [] => [i]
  | j :: l' =>
      if decide (score_at v i ≤ score_at v j)%Qc then i :: j :: l'
      else j :: insert_index v i l'
  end.

(** Insertion sort of the indices, from the last to the first: indices of
    equal score stay in increasing order. *)
Definition argsort_stable (v : list Qc) : list nat :=
  foldr (insert_index v) [] (seq 0 (length v)).

(** The sign of a number: [1], [-1] or [0]. *)
Definition sign (q : Qc) : Qc :=
  if decide (0 < q)%Qc then Q2Qc 1
  else if decide (q < 0)%Qc then sentinel else Q2Qc 0.

(** The cosine similarities of one-dimensional vectors (a zero vector has
    similarity [0] to everything, as in scikit-learn). *)
Definition cosine_similarity_1d (e : list (list Qc)) : list (list Qc) :=
  List.map (fun u => List.map (fun v => (sign (hd (Q2Qc 0) u) * sign (hd (Q2Qc 0) v))%Qc) e) e.

(** Texts of even length embed to [[1]], the others to [[-1]]. *)
Definition encode_parity (model_name : string) (texts : list string)
  : result (list (list Qc)) :=
  Ok (List.map (fun t => [if Nat.even (String.length t) then Q2Qc 1 else sentinel]) texts).

(** The instance used to run the script on sample worlds. *)
Definition toy : Externals :=
  {| encode := encode_parity;
     cosine_similarity := cosine_similarity_1d;
     argsort := argsort_stable |}.

(** A row with URL [u] and title [t]. *)
Definition doc (u t : string) : gmap string cell :=
  {[ "url" := Str u; "title" := Str t ]}.

(** The first row of [rs] whose URL is [u]. *)
Definition first_with_url (u : cell) (rs : list (gmap string cell))
  : option (gmap string cell) :=
  List.find (fun r => bool_decide (url_of r = u)) rs.

(** * [visualize_word_network.py] *)

Module Visualize.

(** The literal of [clean_url]. *)
Definition SITE : string := "https://florisera.com/".

(** [s] without the prefix [p], when it has it. *)
Fixpoint drop_prefix (p s : list ascii) : option (list ascii) :=
  match p, s with
  | [], _ => Some s
  | a :: p', b :: s' => if bool_decide (a = b) then drop_prefix p' s' else None
  | _ :: _, [] => None
  end.

(** [s.replace(old, new)] for a non-empty [old]: the occurrences of [old]
    are replaced from left to right, without overlap. Every step consumes a
    character, so the length of [s] is fuel enough. *)
Fixpoint replace_from (fuel : nat) (old new s : list ascii) : list ascii :=
  match fuel with
  | O => s
  | S fuel' =>
      match drop_prefix old s with
      | Some rest => new ++ replace_from fuel' old new rest
      | None =>
          match s with
          | [] => []
          | c :: s' => c :: replace_from fuel' old new s'
          end
      end
  end.

Definition replace (s old new : string) : string :=
  string_of_list_ascii
    (replace_from (String.length s) (list_ascii_of_string old)
       (list_ascii_of_string new) (list_ascii_of_string s)).

(** [s.lstrip(chars)] on the characters of [s]. *)
Fixpoint lstrip_chars (chars : list ascii) (s : list ascii) : list ascii :=
  match s with
  | c :: s' => if bool_decide (c ∈ chars) then lstrip_chars chars s' else s
  | [] => []
  end.

(** [s.strip(chars)] *)
Definition strip_chars (s chars : string) : string :=
  string_of_list_ascii
    (rev (lstrip_chars (list_ascii_of_string chars)
            (rev (lstrip_chars (list_ascii_of_string chars)
                    (list_ascii_of_string s))))).

Definition clean_url (url : string) : string :=
  strip_chars (replace url SITE "") "/".

(** [str(x)] for a cell of the table. *)
Definition str (c : cell) : string :=
  match c with
  | NaN => "nan"
  | Str s => s
  end.

(** A [networkx.DiGraph] with a [weight] on every edge. *)
Record DiGraph : Type := mkDiGraph {
  nodes : gset string;
  edges : gmap (string * string) Qc
}.

(** [G.add_edge(u, v, weight=w)]: the two nodes are added when they are new,
    the weight of an edge that exists is overwritten. *)
Definition add_edge (G : DiGraph) (u v : string) (weight : Qc) : DiGraph :=
  mkDiGraph ({[u]} ∪ {[v]} ∪ nodes G) (<[(u, v) := weight]> (edges G)).

(** The double nearest to [0.3]. *)
Definition threshold : Qc := Q2Qc (5404319552844595 # 18014398509481984).

(** The body of the loop over [df.iterrows()]. The rows of the table read
    from [internal_link_recommendations.csv] are taken as [Recommendation]
    records: [iloc[0]] and [iloc[1]] are the first two cells, [iloc[2]] is a
    float. *)
Definition add_row (G : DiGraph) (row : Recommendation) : DiGraph :=
  let source := clean_url (str (source_url row)) in
  let target := clean_url (str (target_url row)) in
  let score := similarity_score row in
  if decide (threshold ≤ score)%Qc then add_edge G source target score else G.

(** The graph handed to [pyvis]. *)
Definition build_graph (df : list Recommendation) : DiGraph :=
  foldl add_row (mkDiGraph ∅ ∅) df.

End Visualize.

(** * [crawling.py] *)

(** The crawler keeps its progress in [articles_metadata.csv]. The file is
    held as the records that [csv.reader] yields from it, the header first
    (a well-formed CSV file in UTF-8 whose last record is terminated, so that
    a record written by [csv.writer] is read back as it was written). The
    file is opened with [encoding="utf-8"]: a record with a field that holds
    a lone surrogate cannot be written. The
    web is a function of the URL and of the requests made before;
    [ElementTree] and [BeautifulSoup] are functions of the document. The
    messages printed on the way are left out. *)
Module Crawling.

Definition SITEMAP_URL : string := "https://florisera.com/post-sitemap.xml".
Definition CSV_FILE : string := "articles_metadata.csv".
Definition BATCH_SIZE : nat := 105%nat.

Definition CSV_COLUMNS : list string :=
  [ "url"; "title"; "excerpt"; "meta_description"; "keywords"; "categories";
    "processed" ].

Inductive exn : Type :=
| KeyError (key : string)
| ValueError (wrong_fields : gset string)
| HTTPError (status_code : Z)
| MissingSchema
| UnicodeEncodeError
| LibraryError (name : string).

Inductive result (A : Type) : Type :=
| Ok (a : A)
| Raise (e : exn).
Arguments Ok {A} a.
Arguments Raise {A} e.

(** A [requests.Response]: [content] is the body as bytes, [text] the body
    decoded. *)
Record Response : Type := mkResponse {
  status_code : Z;
  content : string;
  text : string
}.

(** What the queries of [extract_metadata_from_html] on the parsed page
    give: the title, the stripped content of the description tag, the texts
    of the links of the tag cloud, the joined article sections and the
    excerpt found in a script (empty when there is none). *)
Record PageFields : Type := mkPageFields {
  title : string;
  meta_description : string;
  keywords : list string;
  categories : string;
  script_excerpt : string
}.

Class Web : Type := {
  (** [requests.get(url)] after the requests of [history] *)
  get : list string → string → result Response;
  (** [[elem.text for elem in ET.fromstring(content).findall(".//ns:url/ns:loc", ns)]];
      the text of an empty element is [None] *)
  sitemap_locs : string → result (list (option string));
  (** the queries on [BeautifulSoup(html, "html.parser")] *)
  page_fields : string → result PageFields
}.

Record world : Type := mkWorld {
  csv_file : option (list (list string));
  requests : list string
}.

Definition M (A : Type) : Type := world → result A * world.

Definition ret {A} (a : A) : M A := fun w => (Ok a, w).
Definition raise {A} (e : exn) : M A := fun w => (Raise e, w).
Definition bind {A B} (m : M A) (k : A → M B) : M B :=
  fun w =>
    match m w with
    | (Ok a, w') => k a w'
    | (Raise e, w') => (Raise e, w')
    end.
Definition lift {A} (r : result A) : M A := fun w => (r, w).
Definition try_except {A} (body : M A) (handler : exn → M A) : M A :=
  fun w =>
    match body w with
    | (Ok a, w') => (Ok a, w')
    | (Raise e, w') => handler e w'
    end.

Notation "'perform' x <- m ; k" := (bind m (fun x => k))
  (at level 10, x name, m at level 100, k at level 200).

(** [dict(zip(fieldnames, row))], then [restval] ([None]) under the field
    names the record is too short for. A later column of the same name wins.
    The fields beyond the header go under the key [None], which the crawler
    never reads. *)
Fixpoint zip_dict (fieldnames row : list string) (d : gmap string (option string))
  : gmap string (option string) :=
  match fieldnames, row with
  | k :: fieldnames', v :: row' => zip_dict fieldnames' row' (<[k := Some v]> d)
  | k :: fieldnames', [] => zip_dict fieldnames' [] (<[k := None]> d)
  | [], _ => d
  end.

Definition row_dict (fieldnames row : list string) : gmap string (option string) :=
  zip_dict fieldnames row ∅.

Definition blank (row : list string) : bool :=
  match row with [] => true | _ :: _ => false end.

(** The rows of [csv.DictReader(f)]: the first record is the header, blank
    records are skipped. *)
Definition DictReader (records : list (list string))
  : list (gmap string (option string)) :=
  match records with
  | [] => []
  | fieldnames :: rows =>
      List.map (row_dict fieldnames) (List.filter (fun r => negb (blank r)) rows)
  end.

(** [set(row["url"] for row in reader if row.get("processed") == "1")] *)
Fixpoint processed_set (rows : list (gmap string (option string)))
  (acc : gset (option string)) : result (gset (option string)) :=
  match rows with
  | [] => Ok acc
  | row :: rows' =>
      if bool_decide (row !! "processed" = Some (Some "1")) then
        match row !! "url" with
        | Some u => processed_set rows' ({[u]} ∪ acc)
        | None => Raise (KeyError "url")
        end
      else processed_set rows' acc
  end.

Definition load_processed_urls : M (gset (option string)) :=
  fun w =>
    match csv_file w with
    | None => (Ok ∅, w)
    | Some records => (processed_set (DictReader records) ∅, w)
    end.

(** [writer.writerow(article)] of a [DictWriter] over [CSV_COLUMNS]: the
    record to write, or the keys that are no column. *)
Definition dict_to_list (article : gmap string string)
  : result (list string) :=
  let wrong_fields : gset string := dom article ∖ list_to_set CSV_COLUMNS in
  if decide (wrong_fields = ∅) then
    Ok (List.map (fun key => default "" (article !! key)) CSV_COLUMNS)
  else Raise (ValueError wrong_fields).

Definition save_article_metadata (article : gmap string string) (processed : bool)
  : M unit :=
  fun w =>
    let records :=
      match csv_file w with
      | None => [CSV_COLUMNS]
      | Some records => records
      end in
    let article := <["processed" := if processed then "1" else "0"]> article in
    match dict_to_list article with
    | Ok row =>
        if forallb (fun field => bool_decide (surrogate_free field)) row
        then (Ok tt, mkWorld (Some (records ++ [row])) (requests w))
        else (Raise UnicodeEncodeError, mkWorld (Some records) (requests w))
    | Raise e => (Raise e, mkWorld (Some records) (requests w))
    end.

(** [resp.raise_for_status()] *)
Definition raise_for_status (resp : Response) : result unit :=
  if bool_decide (400 ≤ status_code resp < 600)%Z then
    Raise (HTTPError (status_code resp))
  else Ok tt.

(** [requests.get(url)]; a URL that is [None] is refused before anything is
    sent. *)
Definition requests_get `{Web} (url : option string) : M Response :=
  fun w =>
    match url with
    | None => (Raise MissingSchema, w)
    | Some u => (get (requests w) u, mkWorld (csv_file w) (requests w ++ [u]))
    end.

Definition fetch_sitemap_urls `{Web} : M (list (option string)) :=
  perform resp <- requests_get (Some SITEMAP_URL);
  perform _ <- lift (raise_for_status resp);
  lift (sitemap_locs (content resp)).

Definition extract_metadata_from_html `{Web} (html : string) (url : string)
  : result (gmap string string) :=
  match page_fields html with
  | Raise e => Raise e
  | Ok page =>
      let keywords_str := join ", " (keywords page) in
      let excerpt :=
        if nonempty (script_excerpt page) then script_excerpt page
        else meta_description page in
      Ok (<["url" := url]>
          (<["title" := title page]>
           (<["excerpt" := excerpt]>
            (<["meta_description" := meta_description page]>
             (<["keywords" := keywords_str]>
              (<["categories" := categories page]> ∅))))))
  end.

Fixpoint for_each {A} (xs : list A) (body : A → M unit) : M unit :=
  match xs with
  | [] => ret tt
  | x :: xs' => perform _ <- body x; for_each xs' body
  end.

(** The body of the loop of [main], with its [try] and [except]. *)
Definition process `{Web} (url : option string) : M unit :=
  try_except
    (perform resp <- requests_get url;
     perform _ <- lift (raise_for_status resp);
     match url with
     | Some u =>
         perform metadata <- lift (extract_metadata_from_html (text resp) u);
         save_article_metadata metadata true
     | None => raise MissingSchema
     end)
    (fun _ => ret tt).

Definition main `{Web} : M unit :=
  perform processed_urls <- load_processed_urls;
  perform urls <- fetch_sitemap_urls;
  let new_urls := List.filter (fun u => bool_decide (u ∉ processed_urls)) urls in
  match new_urls with
  | [] => ret tt
  | _ :: _ =>
      let to_process := take BATCH_SIZE new_urls in
      for_each to_process process
  end.

End Crawling.

(** * Vocabulary of the properties and sample data *)

(** ** Sample tables *)

(** One row whose URL is the empty string. *)
Definition blank_url_table : DataFrame :=
  mkDataFrame ["url"; "title"] [ {[ "url" := Str ""; "title" := Str "T" ]} ].

(** Five rows: one without URL, two with the URL [b]. *)
Definition sample_table : DataFrame :=
  mkDataFrame ["url"; "title"]
    [ doc "b" "Bb"; {[ "url" := NaN; "title" := Str "lost" ]}; doc "a" "A";
      doc "c" "Ccc"; doc "b" "Zz" ].

(** The first run on [sample_table]: no store, no output yet. *)
Definition sample_world : world := mkWorld (Some sample_table) None None [].

(** A table without [url] column. *)
Definition headless_table : DataFrame :=
  mkDataFrame ["link"; "title"] [ {[ "link" := Str "a"; "title" := Str "A" ]} ].

(** ** States of the embedding store *)

(** The states of the store in which the cache does not answer, as the
    specification lists them: no file, a file that cannot be read or
    unpickled, a payload that is no dict, a stored signature or model
    identifier other than the given one, or stored embeddings that are not
    an array with one row per text. *)
Inductive cache_miss (texts : list string) (signature model_name : string)
  : option pickle_file → Prop :=
| miss_absent :
    cache_miss texts signature model_name None
| miss_unreadable :
    cache_miss texts signature model_name (Some Unreadable)
| miss_no_dict :
    cache_miss texts signature model_name (Some (Pickled PyOther))
| miss_signature d :
    d !! "signature" ≠ Some (PyStr signature) →
    cache_miss texts signature model_name (Some (Pickled (PyDict d)))
| miss_model d :
    d !! "model" ≠ Some (PyStr model_name) →
    cache_miss texts signature model_name (Some (Pickled (PyDict d)))
| miss_rows d :
    (∀ emb, d !! "embeddings" = Some (PyArray emb) → length emb ≠ length texts) →
    cache_miss texts signature model_name (Some (Pickled (PyDict d))).

(** The state in which it does. *)
Definition cache_valid (texts : list string) (signature model_name : string)
    (f : option pickle_file) (emb : list (list Qc)) : Prop :=
  ∃ d, f = Some (Pickled (PyDict d)) ∧
       d !! "embeddings" = Some (PyArray emb) ∧
       length emb = length texts ∧
       d !! "signature" = Some (PyStr signature) ∧
       d !! "model" = Some (PyStr model_name).

(** The world after a rebuild: the store holds the fresh vectors with the
    signature and the model identifier, the invocation is logged. *)
Definition rebuilt (w : world) (texts : list string) (signature model_name : string)
    (fresh : list (list Qc)) : world :=
  mkWorld (articles_csv w)
    (Some (Pickled (PyDict {[ "embeddings" := PyArray fresh;
                              "signature" := PyStr signature;
                              "model" := PyStr model_name ]})))
    (recommendations_csv w)
    (model_calls w ++ [(model_name, texts)]).

(** ** Byte streams *)

(** No byte of the string is the separator. *)
Definition nul_free (s : string) : Prop := Byte.x00 ∉ list_byte_of_string s.

#[global] Instance nul_free_dec (s : string) : Decision (nul_free s).
Proof. unfold nul_free. apply _. Defined.

(** A digit of a lower-case hexadecimal number. *)
Definition lower_hex (a : ascii) : Prop :=
  a ∈ list_ascii_of_string "0123456789abcdef".

(** The strings [a\0b] and [b\0c]. *)
Definition a_nul_b : string := String "a" (String "000" "b").
Definition b_nul_c : string := String "b" (String "000" "c").

(** The string [x] followed by the lone surrogate U+DC80. *)
Definition x_surrogate : string :=
  String "x" (String "237" (String "178" (String "128" ""))).

(** One record of the stream: separator, URL, separator, text. *)
Definition frame (p : list Byte.byte * list Byte.byte) : list Byte.byte :=
  Byte.x00 :: p.1 ++ Byte.x00 :: p.2.

(** ** Ranking *)

(** The index [i] does not score higher than [j] in the array [v]. *)
Definition score_le (v : list Qc) (i j : nat) : Prop :=
  (score_at v i ≤ score_at v j)%Qc.

#[global] Instance score_le_dec v : RelDecision (score_le v).
Proof. intros i j. unfold score_le. apply _. Defined.

(** [argsort] returns the indices of its argument, each once, in an order in
    which the scores do not decrease (nothing is said about equal scores);
    [cosine_similarity] of [n] vectors is an [n] by [n] array; [encode]
    returns one vector per text. *)
Class ExternalsOk `{Externals} : Prop := {
  argsort_perm : ∀ v, argsort v ≡ₚ seq 0 (length v);
  argsort_sorted : ∀ v, Sorted (score_le v) (argsort v);
  cosine_shape : ∀ e, has_shape (cosine_similarity e) (length e) (length e) = true;
  encode_rows : ∀ m texts emb, encode m texts = Ok emb → length emb = length texts
}.

(** The row appended for the source [source] and the target index [t]. *)
Definition emitted (df : DataFrame) (sim_scores : list Qc) (source : cell) (t : nat)
  : Recommendation :=
  mkRecommendation source
    (url_of (default ∅ (rows df !! t)))
    (score_at sim_scores t)
    (cell_at "title" (default ∅ (rows df !! t))).

(** The rows appended for the source at index [idx]. *)
Definition block `{Externals} (df : DataFrame) (sim : list (list Qc)) (top_k : nat)
    (idx : nat) (source : cell) : list Recommendation :=
  let sim_scores := <[idx := sentinel]> (default [] (sim !! idx)) in
  emitted df sim_scores source <$> top_indices sim_scores top_k.

(** Two documents whose stored vectors point in opposite directions: the
    cosine of the two is exactly [-1], the value of the sentinel. *)
Definition two_docs : DataFrame :=
  mkDataFrame ["url"; "title"] [doc "a" "A"; doc "b" "Bb"].

(** The vectors [[1]] and [[-1]] and their cosine similarities. *)
Definition opposite_vectors : list (list Qc) := [[Q2Qc 1]; [sentinel]].

Definition opposite_similarity : list (list Qc) :=
  [[Q2Qc 1; sentinel]; [sentinel; Q2Qc 1]].

(** The two documents with a store that holds these vectors under the
    signature of the corpus: a cache hit. *)
Definition opposite_world : world :=
  mkWorld (Some two_docs)
    (Some (Pickled (PyDict
       {[ "embeddings" := PyArray opposite_vectors;
          "signature" := PyStr (dataset_signature ["a"; "b"] ["A"; "Bb"] MODEL_NAME);
          "model" := PyStr MODEL_NAME ]})))
    None [].

(** The tie-break the specification asks for: two consecutive rows of one
    source with equal scores list the smaller target URL first. *)
Definition ties_by_ascending_url (recs : list Recommendation) : Prop :=
  ∀ i r1 r2,
    recs !! i = Some r1 → recs !! S i = Some r2 →
    source_url r1 = source_url r2 →
    similarity_score r1 = similarity_score r2 →
    cell_le (target_url r1) (target_url r2) ∧ target_url r1 ≠ target_url r2.

(** Three documents with the same text, hence the same vector: every pair
    has similarity 1. *)
Definition three_alike : DataFrame :=
  mkDataFrame ["url"; "title"] [doc "a" "Tt"; doc "b" "Tt"; doc "c" "Tt"].

(** A first run: no store, no output yet. *)
Definition alike_world : world := mkWorld (Some three_alike) None None [].

(** What the run on [alike_world] writes. *)
Definition alike_recommendations : list Recommendation :=
  [ mkRecommendation (Str "a") (Str "c") (Q2Qc 1) (Str "Tt");
    mkRecommendation (Str "a") (Str "b") (Q2Qc 1) (Str "Tt");
    mkRecommendation (Str "b") (Str "c") (Q2Qc 1) (Str "Tt");
    mkRecommendation (Str "b") (Str "a") (Q2Qc 1) (Str "Tt");
    mkRecommendation (Str "c") (Str "b") (Q2Qc 1) (Str "Tt");
    mkRecommendation (Str "c") (Str "a") (Q2Qc 1) (Str "Tt") ].

(** ** Comparing tables and runs *)

(** What the pipeline reads of a row. *)
Definition record_of (r : gmap string cell)
  : cell * option cell * option cell * option cell :=
  (url_of r, r !! "title", r !! "excerpt", r !! "keywords").

(** Two tables hold the same set of document records. *)
Definition same_documents (rs1 rs2 : list (gmap string cell)) : Prop :=
  ∀ rec, rec ∈ record_of <$> rs1 ↔ rec ∈ record_of <$> rs2.

(** No URL comes with two different records. *)
Definition url_is_key (rs : list (gmap string cell)) : Prop :=
  ∀ r r', r ∈ rs → r' ∈ rs →
          url_of r = url_of r' → url_of r ≠ NaN → record_of r = record_of r'.

(** The value [main] binds to [sig] for a raw table. *)
Definition corpus_signature (raw : DataFrame) : result string :=
  match ensure_unique_and_ordered raw with
  | Ok df =>
      match collect as_str (List.map url_of (rows (limit df))) with
      | Ok urls =>
          Ok (dataset_signature urls (List.map combine_text (rows (limit df))) MODEL_NAME)
      | Raise e => Raise e
      end
  | Raise e => Raise e
  end.

(** Two worlds that differ at most in the articles file. *)
Definition agree (w1 w2 : world) : Prop :=
  embeddings_file w1 = embeddings_file w2 ∧
  recommendations_csv w1 = recommendations_csv w2 ∧
  model_calls w1 = model_calls w2.

(** Two computations that, run in such worlds, return the same and leave
    such worlds. *)
Definition alike {A} (m1 m2 : M A) : Prop :=
  ∀ w1 w2, agree w1 w2 → (m1 w1).1 = (m2 w2).1 ∧ agree (m1 w1).2 (m2 w2).2.

(** Two orders of the same three rows; two of the rows share a URL and
    differ in their titles. *)
Definition twice_a : DataFrame :=
  mkDataFrame ["url"; "title"] [doc "a" "Old"; doc "a" "Newer"; doc "b" "Bbb"].

(** The same rows, the two rows of [a] swapped. *)
Definition twice_a_reordered : DataFrame :=
  mkDataFrame ["url"; "title"] [doc "a" "Newer"; doc "a" "Old"; doc "b" "Bbb"].

(** The rows of [three_alike] in another order, one of them twice. *)
Definition three_alike_shuffled : DataFrame :=
  mkDataFrame ["url"; "title"] [doc "c" "Tt"; doc "a" "Tt"; doc "b" "Tt"; doc "a" "Tt"].

(** ** Fields, frames and failing models *)

(** A field that is written into the combined text: a missing value, which
    prints as ["nan"], or a string that [strip] does not empty. *)
Definition written_field (c : string) (row : gmap string cell) : Prop :=
  match row !! c with
  | None => False
  | Some NaN => True
  | Some (Str s) => strip s ≠ ""
  end.

(** A field that contributes nothing to the combined text: the column is
    absent, or the cell is a string that [strip] empties. A missing value is
    not blank: it prints as ["nan"]. *)
Definition blank_field (c : string) (row : gmap string cell) : Prop :=
  match row !! c with
  | None => True
  | Some NaN => False
  | Some (Str s) => strip s = ""
  end.

(** Computations that leave the articles file and the recommendation table
    as they are. *)
Definition keeps {A} (m : M A) : Prop :=
  ∀ w, articles_csv (m w).2 = articles_csv w ∧
       recommendations_csv (m w).2 = recommendations_csv w.

(** Computations that leave the articles file as it is and the
    recommendation table too when they raise. *)
Definition writes_last {A} (m : M A) : Prop :=
  ∀ w, articles_csv (m w).2 = articles_csv w ∧
       ∀ e, (m w).1 = Raise e → recommendations_csv (m w).2 = recommendations_csv w.

(** The libraries of [toy] with a model that cannot be loaded. *)
Definition offline : Externals :=
  {| encode := λ _ _, Raise ModelError;
     cosine_similarity := cosine_similarity_1d;
     argsort := argsort_stable |}.

(** The libraries of [toy] with a model that returns a single vector
    whatever the texts are. *)
Definition stingy : Externals :=
  {| encode := λ _ _, Ok [[Q2Qc 1]];
     cosine_similarity := cosine_similarity_1d;
     argsort := argsort_stable |}.

(** A file in which a single document has a URL. *)
Definition one_document : DataFrame :=
  mkDataFrame ["url"; "title"]
    [ doc "a" "Old"; {[ "url" := NaN; "title" := Str "lost" ]}; doc "a" "Newer" ].

(** ** The visualizer *)

(** A row that puts the edge from [s] to [t] into the graph. *)
Definition qualifies (s t : string) (row : Recommendation) : bool :=
  bool_decide (Visualize.clean_url (Visualize.str (source_url row)) = s ∧
               Visualize.clean_url (Visualize.str (target_url row)) = t ∧
               (Visualize.threshold ≤ similarity_score row)%Qc).

(** ** The crawler *)

(** The file [file'] is [file] after some calls of [save_article_metadata]:
    nothing was written, or the file holds the records of [file], after the
    header when [file] was absent, followed by the records [new] (there may
    be none: the header is written before the record is). *)
Definition extended (file file' : option (list (list string)))
    (new : list (list string)) : Prop :=
  (file' = file ∧ new = []) ∨
  file' = Some (default [Crawling.CSV_COLUMNS] file ++ new).

(** The values that [save_article_metadata] writes hold no lone surrogate
    (the value under [processed] is overwritten before the record is
    written). *)
Definition encodable (article : gmap string string) : Prop :=
  map_Forall (fun key field => key ≠ "processed" → surrogate_free field) article.

(** The URLs [main] works on, given the processed ones and the sitemap. *)
Definition batch (processed_urls : gset (option string)) (urls : list (option string))
  : list (option string) :=
  take Crawling.BATCH_SIZE
    (List.filter (fun u => bool_decide (u ∉ processed_urls)) urls).


(** Every page of [urls] is served and parsed, whatever was asked before,
    and no field taken from it holds a lone surrogate. *)
Definition healthy `{Crawling.Web} (urls : list (option string)) : Prop :=
  ∀ history u, Some u ∈ urls →
    ∃ resp metadata,
      Crawling.get history u = Crawling.Ok resp ∧
      Crawling.raise_for_status resp = Crawling.Ok tt ∧
      Crawling.extract_metadata_from_html (Crawling.text resp) u
      = Crawling.Ok metadata ∧
      map_Forall (fun _ field => surrogate_free field) metadata.

(** A site of two posts, one entry of the sitemap being empty. The page of
    a post is its URL. *)
Definition small_site : Crawling.Web := {|
  Crawling.get := fun _ u => Crawling.Ok (Crawling.mkResponse 200 u u);
  Crawling.sitemap_locs := fun _ =>
    Crawling.Ok [Some "https://florisera.com/a/"; None;
                 Some "https://florisera.com/b/"];
  Crawling.page_fields := fun html =>
    Crawling.Ok (Crawling.mkPageFields html "about" ["k1"; "k2"] "Posts" "")
|}.

(** The file in which the first post is processed and the second was saved
    as not processed. *)
Definition half_done : Crawling.world :=
  Crawling.mkWorld
    (Some [ Crawling.CSV_COLUMNS;
            ["https://florisera.com/a/"; "A"; "a"; "a"; "k"; "Posts"; "1"];
            ["https://florisera.com/b/"; "B"; "b"; "b"; "k"; "Posts"; "0"] ])
    [].

(** A file of another tool: no column [url]. *)
Definition foreign_file : Crawling.world :=
  Crawling.mkWorld (Some [ ["link"; "processed"]; ["x"; "0"]; ["y"; "1"] ]) [].

(** A record saved for the URL [u] as processed. *)
Definition saved_for (u : string) (row : list string) : Prop :=
  length row = 7%nat ∧ row !! 0%nat = Some u ∧ row !! 6%nat = Some "1" ∧
  Forall surrogate_free row.

(** A site whose second post has a lone surrogate in its title. *)
Definition surrogate_site : Crawling.Web := {|
  Crawling.get := fun _ u => Crawling.Ok (Crawling.mkResponse 200 u u);
  Crawling.sitemap_locs := fun _ =>
    Crawling.Ok [Some "https://florisera.com/a/"; Some "https://florisera.com/b/"];
  Crawling.page_fields := fun html =>
    Crawling.Ok
      (Crawling.mkPageFields
         (if String.eqb html "https://florisera.com/b/" then x_surrogate else html)
         "about" ["k1"; "k2"] "Posts" "")
|}.

(** * Properties *)

(** ** The order on URLs *)

#[global] Instance cell_le_trans : Transitive cell_le.
Proof.
  intros [|a] [|b] [|c]; simpl; try done.
  intros ??; by etrans.
Qed.

#[global] Instance cell_le_total : Total cell_le.
Proof.
  intros [|a] [|b]; simpl; auto.
  apply (total String.le).
Qed.

#[global] Instance cell_le_antisym : AntiSymm (=) cell_le.
Proof.
  intros [|a] [|b]; simpl; try done.
  intros ??. f_equal. by apply (anti_symm String.le).
Qed.

#[global] Instance url_le_trans : Transitive url_le.
Proof. intros ???; unfold url_le; apply cell_le_trans. Qed.

#[global] Instance url_le_total : Total url_le.
Proof. intros ??; unfold url_le; apply cell_le_total. Qed.

(** ** The normalizer, step by step *)

Section normalizer.
Implicit Types (r : gmap string cell) (rs : list (gmap string cell)).

Lemma elem_of_dropna_url r rs :
  r ∈ dropna_url rs ↔ r ∈ rs ∧ url_of r ≠ NaN.
Proof.
  unfold dropna_url. rewrite !list_elem_of_In, filter_In.
  destruct (url_of r); simpl; intuition congruence.
Qed.

Lemma first_with_url_dropna u rs :
  u ≠ NaN → first_with_url u (dropna_url rs) = first_with_url u rs.
Proof.
  intros Hu. unfold first_with_url, dropna_url.
  induction rs as [|r rs IH]; simpl; [done|].
  destruct (url_of r) eqn:Hr; simpl.
  - rewrite bool_decide_eq_false_2 by congruence. exact IH.
  - rewrite Hr. case_bool_decide; [done|exact IH].
Qed.

Lemma elem_of_drop_duplicates_from r rs seen :
  r ∈ drop_duplicates_from seen rs ↔
  (url_of r ∉ seen) ∧ first_with_url (url_of r) rs = Some r.
Proof.
  unfold first_with_url.
  revert seen; induction rs as [|r0 rs IH]; intros seen; simpl.
  - rewrite elem_of_nil. intuition congruence.
  - case_bool_decide as Hseen.
    + rewrite IH. case_bool_decide as Heq; [|done].
      split; [|intros [Hn _]; by rewrite <-Heq in Hn].
      intros [Hn _]. by rewrite <-Heq in Hn.
    + rewrite elem_of_cons, IH, not_elem_of_cons.
      case_bool_decide as Heq.
      * split.
        -- intros [->|[[Hne _] _]]; [done|congruence].
        -- intros [_ [= ->]]. by left.
      * split.
        -- intros [->|[[_ Hn] Hf]]; [done|done].
        -- intros [Hn Hf]. right. split; [split; [congruence|done]|done].
Qed.

Lemma NoDup_drop_duplicates_from rs seen :
  NoDup (url_of <$> drop_duplicates_from seen rs).
Proof.
  revert seen; induction rs as [|r0 rs IH]; intros seen; simpl.
  - constructor.
  - case_bool_decide as Hseen; [apply IH|].
    rewrite fmap_cons. constructor; [|apply IH].
    rewrite list_elem_of_fmap. intros (r & Hr & Hin).
    apply elem_of_drop_duplicates_from in Hin as [Hn _].
    apply Hn. rewrite <-Hr. by left.
Qed.

Lemma sort_values_url_perm rs : sort_values_url rs ≡ₚ rs.
Proof. apply merge_sort_Permutation. Qed.

Lemma sort_values_url_sorted rs : StronglySorted url_le (sort_values_url rs).
Proof. apply (StronglySorted_merge_sort url_le). Qed.
End normalizer.

(** The rows of the normalized table, characterised: exactly the first
    occurrences of the URLs that are not missing. *)
Lemma elem_of_normalized (df out : DataFrame) (r : gmap string cell) :
  ensure_unique_and_ordered df = Ok out →
  r ∈ rows out ↔ url_of r ≠ NaN ∧ first_with_url (url_of r) (rows df) = Some r.
Proof.
  unfold ensure_unique_and_ordered. case_bool_decide; [|done].
  intros [= <-]; simpl.
  rewrite sort_values_url_perm. unfold drop_duplicates_url.
  rewrite elem_of_drop_duplicates_from.
  split.
  - intros [_ Hf]. assert (url_of r ≠ NaN) as Hna.
    { apply find_some in Hf as [Hin _].
      apply list_elem_of_In, elem_of_dropna_url in Hin. tauto. }
    split; [done|]. by rewrite <-first_with_url_dropna.
  - intros [Hna Hf]. split; [apply not_elem_of_nil|].
    by rewrite first_with_url_dropna.
Qed.

Lemma normalized_NoDup (df out : DataFrame) :
  ensure_unique_and_ordered df = Ok out → NoDup (url_of <$> rows out).
Proof.
  unfold ensure_unique_and_ordered. case_bool_decide; [|done].
  intros [= <-]; simpl.
  rewrite sort_values_url_perm. apply NoDup_drop_duplicates_from.
Qed.

Lemma normalized_sorted (df out : DataFrame) :
  ensure_unique_and_ordered df = Ok out → StronglySorted url_le (rows out).
Proof.
  unfold ensure_unique_and_ordered. case_bool_decide; [|done].
  intros [= <-]; simpl. apply sort_values_url_sorted.
Qed.

Lemma normalized_columns (df out : DataFrame) :
  ensure_unique_and_ordered df = Ok out → columns out = columns df ∧ "url" ∈ columns df.
Proof.
  unfold ensure_unique_and_ordered. case_bool_decide; [|done].
  by intros [= <-].
Qed.

Lemma normalized_no_missing (df out : DataFrame) :
  ensure_unique_and_ordered df = Ok out →
  Forall (λ r, url_of r ≠ NaN) (rows out).
Proof.
  intros Hn. apply Forall_forall. intros r Hr.
  by apply (elem_of_normalized _ _ _ Hn) in Hr as [? _].
Qed.

Lemma normalized_subset (df out : DataFrame) (r : gmap string cell) :
  ensure_unique_and_ordered df = Ok out → r ∈ rows out → r ∈ rows df.
Proof.
  intros Hn Hr. apply (elem_of_normalized _ _ _ Hn) in Hr as [_ Hf].
  apply find_some in Hf as [Hin _]. by apply list_elem_of_In.
Qed.

Lemma normalizer_total (df : DataFrame) :
  "url" ∈ columns df → ∃ out, ensure_unique_and_ordered df = Ok out.
Proof.
  intros Hurl. unfold ensure_unique_and_ordered.
  rewrite bool_decide_eq_true_2 by done. eauto.
Qed.

Lemma normalizer_raises (df : DataFrame) :
  "url" ∉ columns df →
  ensure_unique_and_ordered df
  = Raise (ValueError "Input CSV must contain a 'url' column.").
Proof.
  intros Hno. unfold ensure_unique_and_ordered. by rewrite bool_decide_eq_false_2.
Qed.

Lemma main_raises `{Externals} (w : world) (df : DataFrame) :
  articles_csv w = Some df → "url" ∉ columns df →
  main w = (Raise (ValueError "Input CSV must contain a 'url' column."), w).
Proof.
  intros Hw Hno. unfold main, bind, read_csv, lift.
  rewrite Hw, (normalizer_raises df Hno). done.
Qed.

(** [main] is the pipeline run on the normalized table. *)
Lemma main_pipeline `{Externals} (w : world) (df out : DataFrame) :
  articles_csv w = Some df →
  ensure_unique_and_ordered df = Ok out →
  main w = pipeline out w.
Proof.
  intros Hw Hn. unfold main, bind, read_csv, lift. rewrite Hw, Hn. done.
Qed.

(** ** C8: the postcondition of the normalizer *)

(** C8, as stated, fails: a row whose URL is the empty string is not a row
    with a missing value, [dropna] keeps it, and it reaches the normalized
    table. *)
Lemma normalizer_keeps_empty_url :
  ensure_unique_and_ordered blank_url_table = Ok blank_url_table ∧
  ¬ Forall (λ r, url_of r ≠ NaN ∧ url_of r ≠ Str "") (rows blank_url_table).
Proof.
  split; [by vm_compute|].
  intros Hall. apply Forall_inv in Hall as [_ Hne]. by apply Hne.
Qed.

(** C8, amended: for a table with a URL column the normalizer returns a table
    in which no row has a missing URL, no two rows share a URL and the rows
    are in ascending URL order; a row with an empty-string URL is kept, so
    the result is free of empty URLs exactly when the input has none (as in
    a table loaded by [read_csv], which reads empty fields as missing). *)
Theorem normalizer_postcondition (df : DataFrame) :
  "url" ∈ columns df →
  ∃ out, ensure_unique_and_ordered df = Ok out ∧
    Forall (λ r, url_of r ≠ NaN) (rows out) ∧
    NoDup (url_of <$> rows out) ∧
    StronglySorted url_le (rows out) ∧
    (Forall (λ r, url_of r ≠ Str "") (rows df) →
     Forall (λ r, url_of r ≠ Str "") (rows out)).
Proof.
  intros Hurl. destruct (normalizer_total df Hurl) as [out Hn].
  exists out. split; [done|].
  split; [by eapply normalized_no_missing|].
  split; [by eapply normalized_NoDup|].
  split; [by eapply normalized_sorted|].
  rewrite !Forall_forall. intros Hin r Hr.
  apply Hin. by eapply normalized_subset.
Qed.

Lemma normalizer_postcondition_witness :
  "url" ∈ columns sample_table ∧
  ∃ out, ensure_unique_and_ordered sample_table = Ok out ∧
    Forall (λ r, url_of r ≠ NaN) (rows out) ∧
    NoDup (url_of <$> rows out) ∧
    StronglySorted url_le (rows out) ∧
    (Forall (λ r, url_of r ≠ Str "") (rows sample_table) →
     Forall (λ r, url_of r ≠ Str "") (rows out)).
Proof.
  assert ("url" ∈ columns sample_table) as Hurl
    by (apply (bool_decide_unpack _); vm_compute; exact I).
  split; [exact Hurl|exact (normalizer_postcondition sample_table Hurl)].
Defined.

(** ** C9: the schema error *)

(** C9: the normalizer raises exactly when the table has no [url] column
    (missing values in the column never raise); the exception then leaves
    [main] with the world as it was: no recommendation table is written and
    the embedding store is not touched. *)
Theorem schema_error `{Externals} (df : DataFrame) :
  ((∃ e, ensure_unique_and_ordered df = Raise e) ↔ "url" ∉ columns df) ∧
  ("url" ∉ columns df →
   ensure_unique_and_ordered df
     = Raise (ValueError "Input CSV must contain a 'url' column.") ∧
   ∀ w, articles_csv w = Some df →
     main w = (Raise (ValueError "Input CSV must contain a 'url' column."), w)).
Proof.
  split; [split|].
  - intros [e He] Hin. destruct (normalizer_total df Hin) as [out Hout]. congruence.
  - intros Hno. eexists. by apply normalizer_raises.
  - intros Hno. split; [by apply normalizer_raises|].
    intros w Hw. by apply (main_raises w df).
Qed.

Lemma schema_error_witness :
  ("url" ∉ columns headless_table) ∧
  ∀ w, articles_csv w = Some headless_table →
    @main toy w = (Raise (ValueError "Input CSV must contain a 'url' column."), w).
Proof.
  assert ("url" ∉ columns headless_table) as Hno.
  { apply (bool_decide_unpack _). vm_compute. exact I. }
  split; [exact Hno|].
  exact (proj2 (proj2 (@schema_error toy headless_table) Hno)).
Defined.

(** ** C1 and C2: the embedding cache *)

Lemma eq_str_default (o : option pyval) (s : string) :
  eq_str (default PyNone o) s = true ↔ o = Some (PyStr s).
Proof.
  destruct o as [[]|]; simpl; try (split; [done|congruence]).
  rewrite bool_decide_eq_true. split; congruence.
Qed.

Lemma validate_Some (d : gmap string pyval) texts signature model_name emb :
  validate (default PyNone (d !! "embeddings")) (default PyNone (d !! "signature"))
    (default PyNone (d !! "model")) texts signature model_name = Ok (Some emb)
  ↔ d !! "embeddings" = Some (PyArray emb) ∧ length emb = length texts ∧
    d !! "signature" = Some (PyStr signature) ∧ d !! "model" = Some (PyStr model_name).
Proof.
  rewrite <-!eq_str_default.
  destruct (d !! "embeddings") as [[| |a| |]|]; simpl;
    try (split; [done|intros [? _]; congruence]).
  destruct (bool_decide (length a = length texts)) eqn:Hlen; simpl.
  - apply bool_decide_eq_true in Hlen.
    destruct (eq_str _ signature), (eq_str _ model_name); simpl;
      (split; [intros [= ->]; done || fail | intros ([= ->] & _ & ? & ?); done || fail]) ||
      (split; [done|intros (_ & _ & ? & ?); done]).
  - apply bool_decide_eq_false in Hlen.
    split; [done|]. intros ([= ->] & ? & _); done.
Qed.

(** Every state of the store is a hit or a miss. *)
Lemma cache_valid_or_miss texts signature model_name (f : option pickle_file) :
  (∃ emb, cache_valid texts signature model_name f emb) ∨
  cache_miss texts signature model_name f.
Proof.
  destruct f as [[|[d|]]|]; [right; constructor| |right; constructor..].
  destruct (decide (d !! "signature" = Some (PyStr signature))) as [Hs|Hs];
    [|right; by apply miss_signature].
  destruct (decide (d !! "model" = Some (PyStr model_name))) as [Hm|Hm];
    [|right; by apply miss_model].
  destruct (d !! "embeddings") as [[| |a| |]|] eqn:He;
    try (right; apply miss_rows; intros emb; rewrite He; congruence).
  destruct (decide (length a = length texts)) as [Hl|Hl].
  - left. exists a, d. by rewrite He.
  - right. apply miss_rows. intros emb. rewrite He. congruence.
Qed.

Lemma cache_miss_not_valid texts signature model_name f emb :
  cache_miss texts signature model_name f →
  ¬ cache_valid texts signature model_name f emb.
Proof.
  intros Hmiss (d & Hf & He & Hl & Hs & Hm).
  destruct Hmiss as [ | | | d' Hs' | d' Hm' | d' Hr']; try done;
    injection Hf as <-; [by apply Hs'|by apply Hm'|by apply (Hr' emb)].
Qed.

Lemma load_or_build_of_hit `{Externals} (texts : list string)
    (signature model_name : string) (w : world) (emb : list (list Qc)) :
  cache_valid texts signature model_name (embeddings_file w) emb →
  load_or_build_embeddings texts signature model_name w = (Ok emb, w).
Proof.
  intros (d & Hf & He & Hl & Hs & Hm).
  assert (validate (default PyNone (d !! "embeddings"))
            (default PyNone (d !! "signature")) (default PyNone (d !! "model"))
            texts signature model_name = Ok (Some emb)) as Hv
    by (by apply validate_Some).
  destruct w as [articles store recs calls]; simpl in Hf; subst store.
  unfold load_or_build_embeddings, bind, path_exists, try_except, pickle_load,
    lift, payload_get, ret.
  simpl. rewrite Hv. done.
Qed.

(** C1, the cache hit: when the store file holds a dict whose embeddings have
    one row per text and whose signature and model identifier are the given
    ones, the call returns the stored array and leaves the world as it was:
    the model is not invoked and the store is not rewritten. *)
Theorem cache_hit `{Externals} (texts : list string) (signature model_name : string)
    (w : world) (d : gmap string pyval) (emb : list (list Qc)) :
  embeddings_file w = Some (Pickled (PyDict d)) →
  d !! "embeddings" = Some (PyArray emb) →
  length emb = length texts →
  d !! "signature" = Some (PyStr signature) →
  d !! "model" = Some (PyStr model_name) →
  load_or_build_embeddings texts signature model_name w = (Ok emb, w).
Proof.
  intros Hf He Hl Hs Hm. apply load_or_build_of_hit. exists d. auto.
Qed.

Lemma load_or_build_of_miss `{Externals} texts signature model_name (w : world) :
  cache_miss texts signature model_name (embeddings_file w) →
  load_or_build_embeddings texts signature model_name w
  = match encode model_name texts with
    | Ok fresh => (Ok fresh, rebuilt w texts signature model_name fresh)
    | Raise e =>
        (Raise e, mkWorld (articles_csv w) (embeddings_file w) (recommendations_csv w)
                    (model_calls w ++ [(model_name, texts)]))
    end.
Proof.
  intros Hmiss.
  assert (∀ d, embeddings_file w = Some (Pickled (PyDict d)) →
            ∀ a, validate (default PyNone (d !! "embeddings"))
                   (default PyNone (d !! "signature")) (default PyNone (d !! "model"))
                   texts signature model_name ≠ Ok (Some a)) as Hno.
  { intros d Hf a Hv. apply validate_Some in Hv as (He & Hl & Hs & Hm).
    eapply cache_miss_not_valid; [exact Hmiss|]. exists d. eauto. }
  destruct w as [articles store recs calls]; simpl in Hno |- *. clear Hmiss.
  unfold load_or_build_embeddings, bind, path_exists, try_except, pickle_load,
    lift, payload_get, ret, model_encode, pickle_dump, rebuilt.
  destruct store as [[|[d|]]|]; simpl;
    try (by destruct (encode model_name texts)).
  specialize (Hno d eq_refl).
  destruct (validate _ _ _ texts signature model_name) as [[a|]|e]; simpl;
    [by destruct (Hno a)|by destruct (encode model_name texts)..].
Qed.

(** C2, invalidation and recovery: when the store is absent, unreadable, or
    disagrees with the call on the signature, the model identifier or the
    row count, the call invokes the model on the texts in their order; with
    the vectors the model delivers it overwrites the store (vectors,
    signature, model identifier) and returns them. Nothing of the failed
    read is surfaced: the only exception that can leave the call is one
    raised by the model itself, and then the store is left as it was. *)
Theorem cache_miss_rebuilds `{Externals} (texts : list string)
    (signature model_name : string) (w : world) :
  cache_miss texts signature model_name (embeddings_file w) →
  (∀ fresh, encode model_name texts = Ok fresh →
     load_or_build_embeddings texts signature model_name w
     = (Ok fresh, rebuilt w texts signature model_name fresh)) ∧
  (∀ e, encode model_name texts = Raise e →
     load_or_build_embeddings texts signature model_name w
     = (Raise e, mkWorld (articles_csv w) (embeddings_file w) (recommendations_csv w)
                   (model_calls w ++ [(model_name, texts)]))).
Proof.
  intros Hmiss. rewrite load_or_build_of_miss by done.
  split; [intros fresh Henc|intros e Henc]; by rewrite Henc.
Qed.

(** ** C3: the bytes of the signature *)

Section signature_stream.
Implicit Types (a b r : list Byte.byte) (ps : list (list Byte.byte * list Byte.byte)).

Lemma or_empty_id (u : string) : or_empty u = u.
Proof. by destruct u. Qed.

Lemma signature_stream_frames (urls texts : list string) (model_name : string) :
  signature_stream urls texts model_name
  = encode_utf8_strict model_name
    ++ concat (frame <$> zip (encode_utf8 <$> urls) (encode_utf8 <$> texts)).
Proof.
  unfold signature_stream, update. simpl.
  generalize (encode_utf8_strict model_name) as acc.
  revert texts. induction urls as [|u urls IH]; intros [|t texts] acc; simpl;
    rewrite ?app_nil_r; try done.
  rewrite IH, !or_empty_id. unfold frame. simpl.
  by rewrite <-!app_assoc.
Qed.

Lemma split_at_nul a a' r r' :
  Byte.x00 ∉ a → Byte.x00 ∉ a' →
  a ++ Byte.x00 :: r = a' ++ Byte.x00 :: r' → a = a' ∧ r = r'.
Proof.
  revert a'. induction a as [|x a IH]; intros [|x' a'] Ha Ha' Heq;
    simpl in Heq.
  - by injection Heq.
  - injection Heq as <- _. exfalso. apply Ha'. by left.
  - injection Heq as -> _. exfalso. apply Ha. by left.
  - injection Heq as -> Heq. apply not_elem_of_cons in Ha as [_ Ha].
    apply not_elem_of_cons in Ha' as [_ Ha'].
    destruct (IH a' Ha Ha' Heq) as [-> ->]. done.
Qed.

Lemma frames_injective ps ps' a a' :
  Byte.x00 ∉ a → Byte.x00 ∉ a' →
  Forall (λ p, (Byte.x00 ∉ p.1) ∧ (Byte.x00 ∉ p.2)) ps →
  Forall (λ p, (Byte.x00 ∉ p.1) ∧ (Byte.x00 ∉ p.2)) ps' →
  a ++ concat (frame <$> ps) = a' ++ concat (frame <$> ps') →
  a = a' ∧ ps = ps'.
Proof.
  revert ps' a a'. induction ps as [|[u t] ps IH];
    intros [|[u' t'] ps'] a a' Ha Ha' Hps Hps' Heq; simpl in Heq.
  - rewrite !app_nil_r in Heq. done.
  - exfalso. apply Ha. rewrite app_nil_r in Heq. rewrite Heq.
    apply elem_of_app. right. by left.
  - exfalso. apply Ha'. rewrite app_nil_r in Heq. rewrite <-Heq.
    apply elem_of_app. right. by left.
  - apply Forall_cons in Hps as [[Hu Ht] Hps].
    apply Forall_cons in Hps' as [[Hu' Ht'] Hps']. simpl in *.
    unfold frame in Heq; simpl in Heq.
    apply split_at_nul in Heq as [-> Heq]; [|done..].
    rewrite <-!app_assoc in Heq. simpl in Heq.
    apply split_at_nul in Heq as [-> Heq]; [|done..].
    destruct (IH ps' t t' Ht Ht' Hps Hps' Heq) as [-> ->]. done.
Qed.

Lemma encode_utf8_strict_inj : Inj (=) (=) encode_utf8_strict.
Proof.
  intros s s' Heq. rewrite <-(string_of_list_byte_of_string s),
    <-(string_of_list_byte_of_string s'). unfold encode_utf8_strict in Heq.
  by rewrite Heq.
Qed.

(** Nothing is left out of a string without lone surrogates. *)
Lemma encode_utf8_free (s : string) :
  surrogate_free s → encode_utf8 s = encode_utf8_strict s.
Proof. intros Hs. unfold encode_utf8. by rewrite Hs. Qed.

Lemma encode_utf8_inj (s s' : string) :
  surrogate_free s → surrogate_free s' → encode_utf8 s = encode_utf8 s' → s = s'.
Proof.
  intros Hs Hs' Heq. rewrite !encode_utf8_free in Heq by done.
  by apply encode_utf8_strict_inj.
Qed.

Lemma zip_fmap_inj (urls texts urls' texts' : list string) :
  Forall surrogate_free urls → Forall surrogate_free texts →
  Forall surrogate_free urls' → Forall surrogate_free texts' →
  length urls = length texts → length urls' = length texts' →
  zip (encode_utf8 <$> urls) (encode_utf8 <$> texts)
  = zip (encode_utf8 <$> urls') (encode_utf8 <$> texts') →
  urls = urls' ∧ texts = texts'.
Proof.
  intros Hu. revert texts urls' texts'.
  induction Hu as [|u urls Hu0 Hu IH];
    intros [|t texts] [|u' urls'] [|t' texts'] Ht Hu' Ht';
    simpl; intros Hl Hl' Heq; try done.
  apply Forall_cons in Ht as [Ht0 Ht]. apply Forall_cons in Hu' as [Hu0' Hu'].
  apply Forall_cons in Ht' as [Ht0' Ht'].
  injection Heq as Hue Hte Heq.
  apply encode_utf8_inj in Hue as ->; [|done..].
  apply encode_utf8_inj in Hte as ->; [|done..].
  destruct (IH texts urls' texts') as [-> ->]; auto.
Qed.
End signature_stream.

Lemma length_string_of_list_ascii (l : list ascii) :
  String.length (string_of_list_ascii l) = length l.
Proof. induction l; simpl; congruence. Qed.

Lemma md5_digest_length (msg : list Z) : length (MD5.digest msg) = 16.
Proof.
  unfold MD5.digest.
  destruct (MD5.chunks _ _ _) as [[[a b] c] d]. reflexivity.
Qed.

Lemma hex_digit_lower (n : Z) : lower_hex (MD5.hex_digit n).
Proof.
  unfold lower_hex, MD5.hex_digit.
  destruct (nth_in_or_default (Z.to_nat n)
              (list_ascii_of_string "0123456789abcdef") "0"%char) as [Hin| ->].
  - by apply list_elem_of_In.
  - by left.
Qed.

Lemma hexdigest_format (msg : list Z) :
  String.length (MD5.hexdigest msg) = 32 ∧
  Forall lower_hex (list_ascii_of_string (MD5.hexdigest msg)).
Proof.
  unfold MD5.hexdigest.
  rewrite length_string_of_list_ascii, list_ascii_of_string_of_list_ascii.
  pose proof (md5_digest_length msg) as Hlen.
  generalize dependent (MD5.digest msg). intros l Hlen. split.
  - assert (∀ k : list Z, length (flat_map (λ b, [MD5.hex_digit (b / 16); MD5.hex_digit (b mod 16)]) k) = 2 * length k) as Hk.
    { induction k as [|x k IH]; simpl; [done|]. rewrite IH. lia. }
    rewrite Hk, Hlen. done.
  - clear Hlen. induction l as [|x l IH]; simpl; [constructor|].
    repeat (constructor; [apply hex_digit_lower|]). exact IH.
Qed.

(** C3, as stated, fails: a NUL inside a field is read as a separator, so two
    different sequences of pairs feed the same bytes (and get the same
    signature). *)
Lemma nul_in_field_collides :
  ([a_nul_b], ["c"]) ≠ (["a"], [b_nul_c]) ∧
  signature_stream [a_nul_b] ["c"] "m" = signature_stream ["a"] [b_nul_c] "m" ∧
  dataset_signature [a_nul_b] ["c"] "m" = dataset_signature ["a"] [b_nul_c] "m".
Proof.
  split; [discriminate|].
  split; vm_compute; reflexivity.
Qed.

(** A lone surrogate in a URL or in a text is left out of the stream by
    [errors="ignore"]: with it or without it the bytes and the signature are
    the same. *)
Lemma lone_surrogate_is_dropped :
  x_surrogate ≠ "x" ∧ ¬ surrogate_free x_surrogate ∧
  signature_stream [x_surrogate] ["t"] "m" = signature_stream ["x"] ["t"] "m" ∧
  dataset_signature [x_surrogate] ["t"] "m" = dataset_signature ["x"] ["t"] "m".
Proof.
  split; [discriminate|]. split; [discriminate|].
  split; vm_compute; reflexivity.
Qed.

(** C3, amended: the hashed stream is the model identifier followed, for
    each (URL, text) pair in order, by a NUL, the URL, a NUL and the text,
    the lone surrogates of the URLs and of the texts being left out; on model
    identifiers, URLs and texts that contain no NUL and no lone surrogate the
    stream determines the model identifier, the URL sequence and the texts,
    so any change to one of them changes the stream; the pairs ("ab","c") and
    ("a","bc") feed different streams; the signature is 32 lower-case
    hexadecimal digits. *)
Theorem signature_stream_injective
    (urls texts urls' texts' : list string) (model_name model_name' : string) :
  nul_free model_name → nul_free model_name' →
  Forall nul_free urls → Forall nul_free texts →
  Forall nul_free urls' → Forall nul_free texts' →
  surrogate_free model_name → surrogate_free model_name' →
  Forall surrogate_free urls → Forall surrogate_free texts →
  Forall surrogate_free urls' → Forall surrogate_free texts' →
  length urls = length texts → length urls' = length texts' →
  signature_stream urls texts model_name
  = encode_utf8_strict model_name
    ++ concat (frame <$> zip (encode_utf8 <$> urls) (encode_utf8 <$> texts)) ∧
  (signature_stream urls texts model_name
   = signature_stream urls' texts' model_name' →
   model_name = model_name' ∧ urls = urls' ∧ texts = texts') ∧
  signature_stream ["ab"] ["c"] model_name ≠ signature_stream ["a"] ["bc"] model_name ∧
  String.length (dataset_signature urls texts model_name) = 32 ∧
  Forall lower_hex (list_ascii_of_string (dataset_signature urls texts model_name)).
Proof.
  intros Hm Hm' Hu Ht Hu' Ht' Sm Sm' Su St Su' St' Hl Hl'.
  assert (∀ us ts : list string,
            Forall nul_free us → Forall nul_free ts →
            Forall surrogate_free us → Forall surrogate_free ts →
            Forall (λ p : list Byte.byte * list Byte.byte,
                      (Byte.x00 ∉ p.1) ∧ (Byte.x00 ∉ p.2))
              (zip (encode_utf8 <$> us) (encode_utf8 <$> ts))) as Hzip.
  { intros us ts Hus. revert ts. induction Hus as [|u us Hu0 Hus IH];
      intros ts Hts Sus Sts; [constructor|].
    destruct Hts as [|t ts Ht0 Hts]; simpl; [constructor|].
    apply Forall_cons in Sus as [Su0 Sus]. apply Forall_cons in Sts as [St0 Sts].
    constructor; [|by apply IH]. simpl.
    rewrite !encode_utf8_free by done. done. }
  split; [apply signature_stream_frames|].
  split; [|split; [|apply hexdigest_format]].
  - rewrite !signature_stream_frames. intros Heq.
    apply frames_injective in Heq as [Hmm Hps]; [|by auto..].
    apply encode_utf8_strict_inj in Hmm as ->.
    apply zip_fmap_inj in Hps as [-> ->]; done.
  - rewrite !signature_stream_frames. intros Heq.
    apply app_inv_head in Heq. discriminate Heq.
Qed.

Lemma signature_stream_injective_witness :
  signature_stream ["a"; "b"] ["x"; "y"] "m" ≠ signature_stream ["a"; "b"] ["x"; "z"] "m".
Proof.
  intros Heq.
  assert (∀ s, bool_decide (nul_free s) = true → nul_free s) as Hd
    by (intros s; apply bool_decide_eq_true_1).
  assert (∀ l, forallb (λ s, bool_decide (nul_free s)) l = true → Forall nul_free l) as Hf.
  { intros l Hl. apply Forall_forall. intros s Hs.
    apply Hd. rewrite forallb_forall in Hl. by apply Hl, list_elem_of_In. }
  assert (∀ l, forallb (λ s, bool_decide (surrogate_free s)) l = true →
               Forall surrogate_free l) as Hs.
  { intros l Hl. apply Forall_forall. intros s Hin.
    apply (bool_decide_eq_true_1 _). rewrite forallb_forall in Hl.
    by apply Hl, list_elem_of_In. }
  destruct (signature_stream_injective ["a"; "b"] ["x"; "y"] ["a"; "b"] ["x"; "z"] "m" "m")
    as (_ & Hinj & _);
    [apply Hd; vm_compute; reflexivity
    |apply Hd; vm_compute; reflexivity
    |apply Hf; vm_compute; reflexivity
    |apply Hf; vm_compute; reflexivity
    |apply Hf; vm_compute; reflexivity
    |apply Hf; vm_compute; reflexivity
    |reflexivity|reflexivity
    |apply Hs; vm_compute; reflexivity
    |apply Hs; vm_compute; reflexivity
    |apply Hs; vm_compute; reflexivity
    |apply Hs; vm_compute; reflexivity
    |reflexivity|reflexivity|].
  destruct (Hinj Heq) as (_ & _ & Habs). discriminate Habs.
Defined.

(** ** What the library functions are assumed to do *)

#[global] Instance score_le_trans v : Transitive (score_le v).
Proof. intros i j k. unfold score_le. apply Qcle_trans. Qed.

Section toy_instance.
Lemma insert_index_perm v i l : insert_index v i l ≡ₚ i :: l.
Proof.
  induction l as [|j l IH]; simpl; [done|].
  case_decide; [done|]. rewrite IH. apply Permutation_swap.
Qed.

Lemma HdRel_insert_index v i j l :
  score_le v j i → HdRel (score_le v) j l → HdRel (score_le v) j (insert_index v i l).
Proof.
  intros Hji Hl. destruct l as [|k l]; simpl; [by constructor|].
  case_decide; constructor; [done|]. by inversion Hl.
Qed.

Lemma insert_index_sorted v i l :
  Sorted (score_le v) l → Sorted (score_le v) (insert_index v i l).
Proof.
  induction 1 as [|j l Hl IH Hhd]; simpl; [by repeat constructor|].
  case_decide as Hij.
  - constructor; [by constructor|by constructor].
  - constructor; [done|]. apply HdRel_insert_index; [|done].
    unfold score_le in *. destruct (total Qcle (score_at v i) (score_at v j)); done.
Qed.

Lemma argsort_stable_perm v : argsort_stable v ≡ₚ seq 0 (length v).
Proof.
  unfold argsort_stable. induction (seq 0 (length v)) as [|i l IH]; simpl; [done|].
  by rewrite insert_index_perm, IH.
Qed.

Lemma argsort_stable_sorted v : Sorted (score_le v) (argsort_stable v).
Proof.
  unfold argsort_stable. induction (seq 0 (length v)) as [|i l IH]; simpl;
    [constructor|by apply insert_index_sorted].
Qed.

Lemma cosine_similarity_1d_shape e :
  has_shape (cosine_similarity_1d e) (length e) (length e) = true.
Proof.
  unfold has_shape, cosine_similarity_1d. apply andb_true_iff. split.
  - apply bool_decide_eq_true. by rewrite length_map.
  - apply forallb_forall. intros row Hrow. apply in_map_iff in Hrow as (u & <- & _).
    apply bool_decide_eq_true. by rewrite length_map.
Qed.

Lemma encode_parity_rows m texts emb :
  encode_parity m texts = Ok emb → length emb = length texts.
Proof. intros [= <-]. by rewrite length_map. Qed.
End toy_instance.

Lemma toy_ok : @ExternalsOk toy.
Proof.
  split.
  - apply argsort_stable_perm.
  - apply argsort_stable_sorted.
  - apply cosine_similarity_1d_shape.
  - apply encode_parity_rows.
Qed.

(** ** The ranking loop in closed form *)

Lemma collect_fmap {A B} (f : A → result B) (g : A → B) (l : list A) :
  (∀ x, x ∈ l → f x = Ok (g x)) → collect f l = Ok (g <$> l).
Proof.
  induction l as [|x l IH]; intros Hf; simpl; [done|].
  rewrite (Hf x) by (by left). rewrite IH; [done|].
  intros y Hy. apply Hf. by right.
Qed.

Lemma collect_length {A B} (f : A → result B) (l : list A) (out : list B) :
  collect f l = Ok out → length out = length l.
Proof.
  revert out. induction l as [|x l IH]; intros out; simpl.
  - by intros [= <-].
  - destruct (f x); [|done]. destruct (collect f l); [|done].
    intros [= <-]. simpl. f_equal. by apply IH.
Qed.

Lemma has_shape_lookup (a : list (list Qc)) (n m i : nat) (row : list Qc) :
  has_shape a n m = true → a !! i = Some row → length row = m.
Proof.
  unfold has_shape. intros [_ Hall]%andb_true_iff Hrow.
  rewrite forallb_forall in Hall.
  apply (bool_decide_eq_true_1 _), Hall, list_elem_of_In.
  by eapply list_elem_of_lookup_2.
Qed.

Lemma has_shape_length (a : list (list Qc)) (n m : nat) :
  has_shape a n m = true → length a = n.
Proof.
  unfold has_shape. intros [Hn _]%andb_true_iff. by apply bool_decide_eq_true in Hn.
Qed.

Lemma masked_scores_ok (sim : list (list Qc)) (n idx : nat) :
  has_shape sim n n = true → idx < n →
  ∃ sim_row, sim !! idx = Some sim_row ∧ length sim_row = n ∧
             masked_scores sim idx = Ok (<[idx := sentinel]> sim_row).
Proof.
  intros Hshape Hidx.
  destruct (sim !! idx) as [sim_row|] eqn:Hrow.
  - exists sim_row. pose proof (has_shape_lookup _ _ _ _ _ Hshape Hrow) as Hlen.
    split; [done|]. split; [done|].
    unfold masked_scores. rewrite Hrow.
    rewrite bool_decide_eq_true_2 by lia. done.
  - apply lookup_ge_None in Hrow. apply has_shape_length in Hshape. lia.
Qed.

Section ranking.
Context `{ExternalsOk}.

Lemma argsort_elem_of (v : list Qc) (i : nat) : i ∈ argsort v ↔ i < length v.
Proof. rewrite argsort_perm, elem_of_seq. lia. Qed.

Lemma argsort_length (v : list Qc) : length (argsort v) = length v.
Proof. by rewrite argsort_perm, length_seq. Qed.

Lemma argsort_NoDup (v : list Qc) : NoDup (argsort v).
Proof. rewrite argsort_perm. apply NoDup_seq. Qed.

Lemma top_indices_length (v : list Qc) (k : nat) :
  length (top_indices v k) = min k (length v).
Proof.
  unfold top_indices, last_k.
  rewrite length_reverse, length_drop, argsort_length. lia.
Qed.

Lemma top_indices_elem_of (v : list Qc) (k i : nat) :
  i ∈ top_indices v k → i < length v.
Proof.
  unfold top_indices, last_k. rewrite elem_of_reverse.
  intros Hin. apply argsort_elem_of. revert Hin. apply subseteq_drop.
Qed.

Lemma top_indices_NoDup (v : list Qc) (k : nat) : NoDup (top_indices v k).
Proof.
  unfold top_indices, last_k. rewrite reverse_Permutation.
  pose proof (argsort_NoDup v) as Hnd.
  rewrite <-(take_drop (length (argsort v) - k) (argsort v)) in Hnd.
  by apply NoDup_app in Hnd as (_ & _ & ?).
Qed.

(** The picked indices come in non-increasing score order. *)
Lemma top_indices_descending (v : list Qc) (k : nat) :
  StronglySorted (flip (score_le v)) (top_indices v k).
Proof.
  unfold top_indices, last_k.
  pose proof (argsort_sorted v) as Hs.
  apply (Sorted_StronglySorted _) in Hs.
  rewrite <-(take_drop (length (argsort v) - k) (argsort v)) in Hs.
  apply StronglySorted_app_1_r, StronglySorted_Sorted in Hs.
  apply Sorted_StronglySorted; [apply _|]. by apply Sorted_reverse.
Qed.
End ranking.

Section ranking_closed_form.
Context `{ExternalsOk}.
Variables (df : DataFrame) (sim : list (list Qc)) (top_k : nat).
Hypothesis Hurl : "url" ∈ columns df.
Hypothesis Htitle : "title" ∈ columns df.
Hypothesis Hshape : has_shape sim (length (rows df)) (length (rows df)) = true.

Lemma top_indices_top (v : list Qc) (k j i : nat) :
  j < length v → j ∉ top_indices v k → i ∈ top_indices v k → score_le v j i.
Proof.
  unfold top_indices, last_k. rewrite !elem_of_reverse.
  intros Hj Hout Hin.
  pose proof (argsort_sorted v) as Hs. apply (Sorted_StronglySorted _) in Hs.
  apply argsort_elem_of in Hj.
  rewrite <-(take_drop (length (argsort v) - k) (argsort v)) in Hs, Hj.
  apply elem_of_app in Hj as [Hj|Hj]; [|done].
  by eapply StronglySorted_app_1_elem_of.
Qed.

Lemma recommendations_for_block (idx : nat) (source : cell) :
  idx < length (rows df) →
  recommendations_for df sim top_k idx source = Ok (block df sim top_k idx source).
Proof.
  intros Hidx.
  destruct (masked_scores_ok sim _ idx Hshape Hidx) as (sim_row & Hrow & Hlen & Hmask).
  unfold recommendations_for, block. rewrite Hmask, Hrow. simpl.
  apply collect_fmap. intros t Ht.
  apply top_indices_elem_of in Ht. rewrite length_insert, Hlen in Ht.
  unfold df_at. rewrite !bool_decide_eq_true_2 by done.
  destruct (rows df !! t) as [row|] eqn:Hr;
    [|apply lookup_ge_None in Hr; lia].
  destruct (<[idx:=sentinel]> sim_row !! t) as [score|] eqn:Hs;
    [|apply lookup_ge_None in Hs; rewrite length_insert in Hs; lia].
  unfold emitted, score_at, url_of. rewrite Hr, Hs. done.
Qed.

Lemma build_recommendations_blocks :
  build_recommendations df sim top_k
  = Ok (concat (imap (λ idx r, block df sim top_k idx (url_of r)) (rows df))).
Proof.
  unfold build_recommendations.
  rewrite (collect_fmap _ (λ p, block df sim top_k p.1 p.2)).
  - f_equal. f_equal. rewrite fmap_imap. done.
  - intros [idx source] Hin. simpl.
    apply list_elem_of_lookup in Hin as [i Hi].
    rewrite list_lookup_imap in Hi.
    destruct (rows df !! i) as [r|] eqn:Hr; [|done].
    injection Hi as <- <-. apply recommendations_for_block.
    by eapply lookup_lt_Some.
Qed.

Lemma block_length (idx : nat) (source : cell) :
  idx < length (rows df) →
  length (block df sim top_k idx source) = min top_k (length (rows df)).
Proof.
  intros Hidx.
  destruct (masked_scores_ok sim _ idx Hshape Hidx) as (sim_row & Hrow & Hlen & _).
  unfold block. rewrite length_fmap, top_indices_length, Hrow. simpl.
  by rewrite length_insert, Hlen.
Qed.

Lemma block_source (idx : nat) (source : cell) :
  Forall (λ rec, source_url rec = source) (block df sim top_k idx source).
Proof. unfold block. apply Forall_fmap, Forall_true. done. Qed.
End ranking_closed_form.

(** Rows grouped by source: with pairwise distinct sources, the rows of one
    source are those of its own group. *)
Lemma filter_source_concat (k : nat) (sources : list cell)
    (blocks : list (list Recommendation)) (s : cell) :
  NoDup sources →
  Forall2 (λ src b, length b = k ∧ Forall (λ rec, source_url rec = src) b)
    sources blocks →
  s ∈ sources →
  length (List.filter (λ rec, bool_decide (source_url rec = s)) (concat blocks)) = k.
Proof.
  assert (∀ b src, Forall (λ rec, source_url rec = src) b → src ≠ s →
            List.filter (λ rec, bool_decide (source_url rec = s)) b = []) as Hnone.
  { intros b src Hb Hne. induction Hb as [|rec b Hrec Hb IH]; simpl; [done|].
    rewrite bool_decide_eq_false_2 by congruence. done. }
  assert (∀ b, Forall (λ rec, source_url rec = s) b →
            List.filter (λ rec, bool_decide (source_url rec = s)) b = b) as Hall.
  { intros b Hb. induction Hb as [|rec b Hrec Hb IH]; simpl; [done|].
    rewrite bool_decide_eq_true_2 by done. by rewrite IH. }
  intros Hnd Hf2. induction Hf2 as [|src b sources blocks [Hlen Hsrc] Hf2 IH];
    intros Hin; [by apply elem_of_nil in Hin|].
  apply NoDup_cons in Hnd as [Hfresh Hnd].
  simpl. rewrite List.filter_app, length_app.
  destruct (decide (src = s)) as [->|Hne].
  - rewrite (Hall b Hsrc), Hlen.
    assert (List.filter (λ rec, bool_decide (source_url rec = s)) (concat blocks) = [])
      as ->; [|simpl; lia].
    clear IH Hin Hnd. induction Hf2 as [|src' b' sources blocks [_ Hsrc'] Hf2 IH];
      simpl; [done|].
    apply not_elem_of_cons in Hfresh as [Hne Hfresh].
    rewrite List.filter_app, (Hnone b' src' Hsrc') by done. by apply IH.
  - rewrite (Hnone b src Hsrc Hne). simpl. apply IH; [done|].
    apply elem_of_cons in Hin as [->|Hin]; done.
Qed.

(** ** Running the pipeline *)

Lemma collect_as_str (rs : list (gmap string cell)) :
  Forall (λ r, url_of r ≠ NaN) rs →
  ∃ urls, collect as_str (List.map url_of rs) = Ok urls ∧ length urls = length rs.
Proof.
  induction 1 as [|r rs Hr Hrs (urls & IH & Hlen)]; simpl; [by exists []|].
  destruct (url_of r) as [|s]; [done|]. simpl. rewrite IH.
  exists (s :: urls). simpl. by rewrite Hlen.
Qed.

Lemma pipeline_small `{Externals} (df : DataFrame) (w : world) :
  length (rows df) < 2 →
  pipeline df w
  = (Ok tt, mkWorld (articles_csv w) (embeddings_file w) (Some []) (model_calls w)).
Proof.
  intros Hn. unfold pipeline. by rewrite bool_decide_eq_true_2.
Qed.

Lemma pipeline_large `{ExternalsOk} (df : DataFrame) (w w1 : world)
    (urls : list string) (emb : list (list Qc)) :
  (2 ≤ length (rows df))%nat →
  collect as_str (List.map url_of (rows df)) = Ok urls →
  load_or_build_embeddings (List.map combine_text (rows df))
    (dataset_signature urls (List.map combine_text (rows df)) MODEL_NAME)
    MODEL_NAME w = (Ok emb, w1) →
  length emb = length (rows df) →
  pipeline df w
  = match build_recommendations df (cosine_similarity emb)
            (max 1 (min TOP_K (length (rows df) - 1))) with
    | Ok recs =>
        (Ok tt, mkWorld (articles_csv w1) (embeddings_file w1) (Some recs) (model_calls w1))
    | Raise e => (Raise e, w1)
    end.
Proof.
  intros Hn Hurls Hload Hlen. unfold pipeline.
  rewrite bool_decide_eq_false_2 by lia.
  unfold bind at 1. unfold lift at 1. rewrite Hurls.
  unfold bind at 1. rewrite Hload.
  pose proof (cosine_shape emb) as Hshape. rewrite Hlen in Hshape.
  rewrite Hshape. unfold bind, ret, lift, to_csv.
  by destruct (build_recommendations _ _ _).
Qed.

(** The cache manager returns one vector per text whenever the model is
    available, and touches nothing but the store and the log. *)
Lemma load_or_build_total `{ExternalsOk} (texts : list string)
    (signature model_name : string) (w : world) (fresh : list (list Qc)) :
  encode model_name texts = Ok fresh →
  ∃ emb w1, load_or_build_embeddings texts signature model_name w = (Ok emb, w1) ∧
    length emb = length texts ∧
    articles_csv w1 = articles_csv w ∧
    recommendations_csv w1 = recommendations_csv w.
Proof.
  intros Henc.
  destruct (cache_valid_or_miss texts signature model_name (embeddings_file w))
    as [(emb & d & Hf & He & Hl & Hs & Hm)|Hmiss].
  - exists emb, w. split; [apply load_or_build_of_hit; exists d; auto|done].
  - exists fresh, (rebuilt w texts signature model_name fresh).
    split; [by rewrite load_or_build_of_miss, Henc|].
    split; [by eapply encode_rows|done].
Qed.

(** ** C6: how many rows *)

(** C6: with fewer than two documents [main] writes a table without data
    rows, raises nothing and leaves the store and the model alone; with
    [n >= 2] documents (the table has its title column, the model is
    available) it writes, for every document, exactly
    [max 1 (min TOP_K (n - 1))] rows with that document as source, which is
    [min k (n - 1)] for a requested [k >= 1]. *)
Theorem row_count `{ExternalsOk} (w : world) (raw out : DataFrame) :
  articles_csv w = Some raw →
  ensure_unique_and_ordered raw = Ok out →
  (length (rows out) < 2 →
   main w = (Ok tt, mkWorld (articles_csv w) (embeddings_file w) (Some [])
                      (model_calls w))) ∧
  ((2 ≤ length (rows out))%nat →
   "title" ∈ columns raw →
   (∃ fresh, encode MODEL_NAME (List.map combine_text (rows out)) = Ok fresh) →
   ∃ recs w', main w = (Ok tt, w') ∧
     recommendations_csv w' = Some recs ∧
     ∀ r, r ∈ rows out →
       length (List.filter (λ rec, bool_decide (source_url rec = url_of r)) recs)
       = max 1 (min TOP_K (length (rows out) - 1))) ∧
  (∀ k, (1 ≤ k)%nat → (2 ≤ length (rows out))%nat →
        max 1 (min k (length (rows out) - 1)) = min k (length (rows out) - 1)).
Proof.
  intros Hw Hnorm. rewrite (main_pipeline w raw out Hw Hnorm).
  split; [|split].
  - apply pipeline_small.
  - intros Hn Htitle [fresh Henc].
    destruct (normalized_columns _ _ Hnorm) as [Hcols Hurl].
    destruct (collect_as_str (rows out) (normalized_no_missing _ _ Hnorm))
      as (urls & Hurls & _).
    destruct (load_or_build_total (List.map combine_text (rows out))
                (dataset_signature urls (List.map combine_text (rows out)) MODEL_NAME)
                MODEL_NAME w fresh Henc) as (emb & w1 & Hload & Hlen & _ & _).
    rewrite length_map in Hlen.
    rewrite (pipeline_large out w w1 urls emb Hn Hurls Hload Hlen).
    assert (min (max 1 (min TOP_K (length (rows out) - 1))) (length (rows out))
            = max 1 (min TOP_K (length (rows out) - 1))) as Hmin
      by (unfold TOP_K; lia).
    generalize dependent (max 1 (min TOP_K (length (rows out) - 1))).
    intros top_k Hmin.
    pose proof (cosine_shape emb) as Hshape. rewrite Hlen in Hshape.
    rewrite <-Hcols in Hurl, Htitle.
    rewrite (build_recommendations_blocks out _ _ Hurl Htitle Hshape).
    eexists _, _. split; [reflexivity|]. split; [reflexivity|].
    intros r Hr.
    apply (filter_source_concat _ (url_of <$> rows out)).
    + by eapply normalized_NoDup.
    + apply Forall2_same_length_lookup_2.
      * by rewrite length_fmap, length_imap.
      * intros i src b Hsrc Hb.
        rewrite list_lookup_fmap in Hsrc. rewrite list_lookup_imap in Hb.
        destruct (rows out !! i) as [ri|] eqn:Hri; [|done].
        injection Hsrc as <-. injection Hb as <-.
        split; [|apply block_source].
        rewrite (block_length out _ _ Hshape) by (by eapply lookup_lt_Some).
        exact Hmin.
    + by apply list_elem_of_fmap_2.
  - intros k Hk Hn. lia.
Qed.

(** ** C4: self-exclusion *)

Lemma two_docs_normalized : ensure_unique_and_ordered two_docs = Ok two_docs.
Proof. vm_compute. reflexivity. Qed.

Lemma two_docs_texts : List.map combine_text (rows two_docs) = ["A"; "Bb"].
Proof. vm_compute. reflexivity. Qed.

(** C4 is broken by the code on this input: a recommendation row with
    [source_url = target_url] is written. With a similarity of exactly [-1]
    between the two documents the masked row is [[-1; -1]] for both sources,
    [argsort] returns the same order for both, and the index it puts last is
    recommended to both: one of the two sources gets itself. The sentinel
    [-1.0] is the least cosine similarity, not a value below all of them. *)
Theorem self_pair_emitted `{ExternalsOk} :
  cosine_similarity opposite_vectors = opposite_similarity →
  ∃ recs rec,
    main opposite_world
    = (Ok tt, mkWorld (articles_csv opposite_world) (embeddings_file opposite_world)
                (Some recs) []) ∧
    rec ∈ recs ∧ source_url rec = target_url rec.
Proof.
  intros Hcos.
  rewrite (main_pipeline opposite_world two_docs two_docs eq_refl two_docs_normalized).
  assert (load_or_build_embeddings (List.map combine_text (rows two_docs))
            (dataset_signature ["a"; "b"] (List.map combine_text (rows two_docs)) MODEL_NAME)
            MODEL_NAME opposite_world = (Ok opposite_vectors, opposite_world)) as Hload.
  { rewrite two_docs_texts. apply load_or_build_of_hit. eexists. by repeat split. }
  rewrite (pipeline_large two_docs opposite_world opposite_world ["a"; "b"]
             opposite_vectors); [|simpl; lia|done|exact Hload|done].
  rewrite Hcos.
  rewrite (build_recommendations_blocks two_docs opposite_similarity);
    [|by apply (bool_decide_unpack _)..|done].
  pose proof (argsort_perm [sentinel; sentinel]) as Hperm.
  apply Permutation_sym, Permutation_length_2_inv in Hperm.
  assert (∀ src idx, (idx < 2)%nat →
            block two_docs opposite_similarity (max 1 (min TOP_K (2 - 1))) idx src
            = emitted two_docs [sentinel; sentinel] src
                <$> reverse (drop (length (argsort [sentinel; sentinel]) - 1)
                               (argsort [sentinel; sentinel]))) as Hblock.
  { intros src [|[|idx]] Hidx; [reflexivity|reflexivity|lia]. }
  change (length (rows two_docs) - 1) with (2 - 1).
  change (imap (λ idx r, block two_docs opposite_similarity (max 1 (min TOP_K (2 - 1))) idx (url_of r))
            (rows two_docs))
    with [block two_docs opposite_similarity (max 1 (min TOP_K (2 - 1))) 0 (Str "a");
          block two_docs opposite_similarity (max 1 (min TOP_K (2 - 1))) 1 (Str "b")].
  rewrite !Hblock by lia.
  destruct Hperm as [-> | ->].
  - eexists _, (emitted two_docs [sentinel; sentinel] (Str "b") 1).
    split; [reflexivity|]. split; [|reflexivity].
    change (concat _) with
      [emitted two_docs [sentinel; sentinel] (Str "a") 1;
       emitted two_docs [sentinel; sentinel] (Str "b") 1].
    apply elem_of_cons. right. apply elem_of_cons. by left.
  - eexists _, (emitted two_docs [sentinel; sentinel] (Str "a") 0).
    split; [reflexivity|]. split; [|reflexivity].
    change (concat _) with
      [emitted two_docs [sentinel; sentinel] (Str "a") 0;
       emitted two_docs [sentinel; sentinel] (Str "b") 0].
    apply elem_of_cons. by left.
Qed.

Lemma self_pair_emitted_witness :
  ∃ recs rec,
    @main toy opposite_world
    = (Ok tt, mkWorld (articles_csv opposite_world) (embeddings_file opposite_world)
                (Some recs) []) ∧
    rec ∈ recs ∧ source_url rec = target_url rec.
Proof.
  apply (@self_pair_emitted toy toy_ok). vm_compute. reflexivity.
Defined.

(** ** C5: the order of the emitted targets *)

(** C5, as stated, fails: no tie-break is applied. With an [argsort] that
    leaves equal scores in index order (insertion sort, as numpy uses on
    short arrays) the targets of equal score come out in descending URL
    order: the source [a] gets [c] before [b]. So the tie-break by ascending
    URL does not hold for every [argsort] that sorts. *)
Lemma ties_follow_argsort :
  recommendations_csv (@main toy alike_world).2 = Some alike_recommendations ∧
  ¬ ties_by_ascending_url alike_recommendations ∧
  ¬ (∀ E : Externals, @ExternalsOk E →
       ∀ recs, recommendations_csv (@main E alike_world).2 = Some recs →
               ties_by_ascending_url recs).
Proof.
  assert (recommendations_csv (@main toy alike_world).2 = Some alike_recommendations)
    as Hrun by (vm_compute; reflexivity).
  assert (¬ ties_by_ascending_url alike_recommendations) as Hno.
  { intros Hties.
    destruct (Hties 0%nat _ _ eq_refl eq_refl eq_refl eq_refl) as [Hle _].
    vm_compute in Hle. exact Hle. }
  split; [exact Hrun|]. split; [exact Hno|].
  intros Hall. exact (Hno (Hall toy toy_ok _ Hrun)).
Qed.

(** C5, amended: for every source the loop emits the [top_k] indices that
    [argsort] puts last on the masked row, last first. The scores of the
    emitted rows never increase, no index is emitted twice, and every index
    that is not emitted has a masked score no larger than any emitted one.
    Among equal scores the order is the reverse of the order in which
    [argsort] returns them; URLs play no part. *)
Theorem ranking_descending `{ExternalsOk} (df : DataFrame) (sim : list (list Qc))
    (top_k idx : nat) (source : cell) :
  "url" ∈ columns df → "title" ∈ columns df →
  has_shape sim (length (rows df)) (length (rows df)) = true →
  idx < length (rows df) →
  ∃ sim_scores picked,
    masked_scores sim idx = Ok sim_scores ∧
    picked = reverse (last_k top_k (argsort sim_scores)) ∧
    recommendations_for df sim top_k idx source
    = Ok (emitted df sim_scores source <$> picked) ∧
    length picked = min top_k (length (rows df)) ∧
    NoDup picked ∧
    StronglySorted (λ i j, (score_at sim_scores j ≤ score_at sim_scores i)%Qc) picked ∧
    ∀ j i, j < length (rows df) → j ∉ picked → i ∈ picked →
           (score_at sim_scores j ≤ score_at sim_scores i)%Qc.
Proof.
  intros Hurl Htitle Hshape Hidx.
  destruct (masked_scores_ok sim _ idx Hshape Hidx) as (sim_row & Hrow & Hlen & Hmask).
  exists (<[idx := sentinel]> sim_row), (top_indices (<[idx := sentinel]> sim_row) top_k).
  split; [done|]. split; [done|].
  split.
  { rewrite (recommendations_for_block df sim top_k Hurl Htitle Hshape) by done.
    unfold block. by rewrite Hrow. }
  split; [by rewrite top_indices_length, length_insert, Hlen|].
  split; [apply top_indices_NoDup|].
  split; [apply top_indices_descending|].
  intros j i Hj Hout Hin.
  apply (top_indices_top (<[idx := sentinel]> sim_row) top_k); [|done..].
  by rewrite length_insert, Hlen.
Qed.

Lemma ranking_descending_witness :
  ∃ sim_scores picked,
    masked_scores opposite_similarity 0 = Ok sim_scores ∧
    picked = reverse (last_k 1 (argsort_stable sim_scores)) ∧
    @recommendations_for toy two_docs opposite_similarity 1 0 (Str "a")
    = Ok (emitted two_docs sim_scores (Str "a") <$> picked) ∧
    length picked = min 1 (length (rows two_docs)) ∧
    NoDup picked ∧
    StronglySorted (λ i j, (score_at sim_scores j ≤ score_at sim_scores i)%Qc) picked ∧
    ∀ j i, j < length (rows two_docs) → j ∉ picked → i ∈ picked →
           (score_at sim_scores j ≤ score_at sim_scores i)%Qc.
Proof.
  apply (@ranking_descending toy toy_ok two_docs opposite_similarity 1 0 (Str "a")).
  - apply (bool_decide_unpack _). vm_compute. exact I.
  - apply (bool_decide_unpack _). vm_compute. exact I.
  - vm_compute. reflexivity.
  - simpl. lia.
Defined.

(** ** C7: the order of the input rows *)

Section alike.
Context `{Externals}.

Lemma alike_bind {A B} (m1 m2 : M A) (k1 k2 : A → M B) :
  alike m1 m2 → (∀ a, alike (k1 a) (k2 a)) → alike (bind m1 k1) (bind m2 k2).
Proof.
  intros Hm Hk w1 w2 Hw. unfold bind.
  destruct (Hm w1 w2 Hw) as [Hr Hw'].
  destruct (m1 w1) as [[a1|e1] w1'], (m2 w2) as [[a2|e2] w2']; simpl in *;
    simplify_eq; [by apply Hk|done].
Qed.

Lemma alike_try {A} (b1 b2 : M A) (h1 h2 : exn → M A) :
  alike b1 b2 → (∀ e, alike (h1 e) (h2 e)) → alike (try_except b1 h1) (try_except b2 h2).
Proof.
  intros Hb Hh w1 w2 Hw. unfold try_except.
  destruct (Hb w1 w2 Hw) as [Hr Hw'].
  destruct (b1 w1) as [[a1|e1] w1'], (b2 w2) as [[a2|e2] w2']; simpl in *;
    simplify_eq; [done|by apply Hh].
Qed.

Lemma alike_lift {A} (r : result A) : alike (lift r) (lift r).
Proof. by intros w1 w2 Hw. Qed.

Lemma alike_ret {A} (a : A) : alike (ret a) (ret a).
Proof. by intros w1 w2 Hw. Qed.

Lemma alike_to_csv recs : alike (to_csv recs) (to_csv recs).
Proof. intros w1 w2 (Hf & Hr & Hc). by repeat split. Qed.

Lemma alike_path_exists : alike path_exists path_exists.
Proof.
  intros w1 w2 (Hf & Hr & Hc). unfold path_exists. simpl. rewrite Hf. by repeat split.
Qed.

Lemma alike_pickle_load : alike pickle_load pickle_load.
Proof.
  intros w1 w2 Hw. pose proof Hw as (Hf & _). unfold pickle_load. rewrite Hf.
  by destruct (embeddings_file w2) as [[|o]|].
Qed.

Lemma alike_pickle_dump payload : alike (pickle_dump payload) (pickle_dump payload).
Proof. intros w1 w2 (Hf & Hr & Hc). by repeat split. Qed.

Lemma alike_remove : alike remove_embeddings_file remove_embeddings_file.
Proof.
  intros w1 w2 Hw. pose proof Hw as (Hf & Hr & Hc).
  unfold remove_embeddings_file. rewrite Hf.
  destruct (embeddings_file w2); [|done]. by repeat split.
Qed.

Lemma alike_model_encode m texts : alike (model_encode m texts) (model_encode m texts).
Proof.
  intros w1 w2 (Hf & Hr & Hc). unfold model_encode. simpl. rewrite Hc. by repeat split.
Qed.

Lemma alike_load_or_build texts signature model_name :
  alike (load_or_build_embeddings texts signature model_name)
        (load_or_build_embeddings texts signature model_name).
Proof.
  unfold load_or_build_embeddings.
  apply alike_bind; [apply alike_path_exists|]. intros present.
  apply alike_bind.
  - destruct present; [|apply alike_ret].
    apply alike_try; [|intros e; apply alike_ret].
    apply alike_bind; [apply alike_pickle_load|]. intros payload.
    repeat (apply alike_bind; [apply alike_lift|]; intros ?).
    apply alike_lift.
  - intros [emb|]; [apply alike_ret|].
    apply alike_bind; [apply alike_model_encode|]. intros emb.
    apply alike_bind; [apply alike_pickle_dump|]. intros _. apply alike_ret.
Qed.
End alike.

Lemma collect_ext {A B} (f g : A → result B) (l : list A) :
  (∀ x, f x = g x) → collect f l = collect g l.
Proof. intros Hfg. induction l as [|x l IH]; simpl; [done|]. by rewrite Hfg, IH. Qed.

Lemma combine_text_record (r1 r2 : gmap string cell) :
  record_of r1 = record_of r2 → combine_text r1 = combine_text r2.
Proof.
  unfold record_of. intros [= _ Ht He Hk].
  unfold combine_text, row_get. by rewrite Ht, He, Hk.
Qed.

Section same_records.
Context `{Externals}.
Variables df1 df2 : DataFrame.
Hypothesis Hcols : ∀ c, c ∈ columns df1 ↔ c ∈ columns df2.
Hypothesis Hrecs : record_of <$> rows df1 = record_of <$> rows df2.

Lemma same_records_lookup (i : nat) :
  record_of <$> rows df1 !! i = record_of <$> rows df2 !! i.
Proof. by rewrite <-!list_lookup_fmap, Hrecs. Qed.

Lemma same_records_length : length (rows df1) = length (rows df2).
Proof. by rewrite <-(length_fmap record_of (rows df1)), Hrecs, length_fmap. Qed.

Lemma same_records_urls : List.map url_of (rows df1) = List.map url_of (rows df2).
Proof.
  change (List.map url_of) with (fmap (M:=list) url_of).
  apply list_eq. intros i. rewrite !list_lookup_fmap.
  pose proof (same_records_lookup i) as Hi.
  destruct (rows df1 !! i) as [r1|], (rows df2 !! i) as [r2|]; simpl in *;
    try done.
  unfold record_of in Hi. injection Hi as Hu _ _ _. by rewrite Hu.
Qed.

Lemma same_records_texts :
  List.map combine_text (rows df1) = List.map combine_text (rows df2).
Proof.
  change (List.map combine_text) with (fmap (M:=list) combine_text).
  apply list_eq. intros i. rewrite !list_lookup_fmap.
  pose proof (same_records_lookup i) as Hi.
  destruct (rows df1 !! i) as [r1|], (rows df2 !! i) as [r2|]; simpl in *;
    try done.
  f_equal. apply combine_text_record. congruence.
Qed.

Lemma same_records_df_at (t : nat) (c : string) :
  c = "url" ∨ c = "title" → df_at df1 t c = df_at df2 t c.
Proof.
  intros Hc. unfold df_at.
  rewrite (bool_decide_ext _ _ (Hcols c)). case_bool_decide; [|done].
  pose proof (same_records_lookup t) as Ht.
  destruct (rows df1 !! t) as [r1|], (rows df2 !! t) as [r2|]; simpl in *;
    try done.
  unfold record_of in Ht. injection Ht as Hu Hti _ _.
  destruct Hc as [-> | ->]; f_equal; [exact Hu|].
  unfold cell_at. by rewrite Hti.
Qed.

Lemma same_records_build (sim : list (list Qc)) (top_k : nat) :
  build_recommendations df1 sim top_k = build_recommendations df2 sim top_k.
Proof.
  unfold build_recommendations.
  assert (imap (λ idx r, (idx, url_of r)) (rows df1)
          = imap (λ idx r, (idx, url_of r)) (rows df2)) as ->.
  { change (λ idx r, (idx, url_of r)) with (λ idx : nat, (λ u : cell, (idx, u)) ∘ url_of).
    rewrite <-!(imap_fmap (λ idx u, (idx, u)) url_of).
    f_equal. exact same_records_urls. }
  rewrite (collect_ext _ (λ p, recommendations_for df2 sim top_k p.1 p.2)); [done|].
  intros [idx source]. unfold recommendations_for. simpl.
  destruct (masked_scores sim idx) as [sim_scores|]; [|done].
  apply collect_ext. intros t.
  rewrite (same_records_df_at t "url") by auto.
  rewrite (same_records_df_at t "title") by auto. done.
Qed.

Lemma same_records_pipeline : alike (pipeline df1) (pipeline df2).
Proof.
  unfold pipeline.
  rewrite same_records_length, same_records_texts, same_records_urls.
  case_bool_decide; [apply alike_to_csv|].
  apply alike_bind; [apply alike_lift|]. intros urls.
  apply alike_bind; [apply alike_load_or_build|]. intros embeddings.
  apply alike_bind.
  - destruct (has_shape _ _ _); [apply alike_ret|].
    apply alike_bind; [apply alike_path_exists|]. intros present.
    apply alike_bind; [destruct present; [apply alike_remove|apply alike_ret]|].
    intros _. apply alike_bind; [apply alike_load_or_build|]. intros ?.
    apply alike_ret.
  - intros sim. rewrite same_records_build.
    apply alike_bind; [apply alike_lift|]. intros recs. apply alike_to_csv.
Qed.
End same_records.

Lemma first_with_url_elem_of (r : gmap string cell) (rs : list (gmap string cell)) :
  r ∈ rs → ∃ r0, first_with_url (url_of r) rs = Some r0 ∧ url_of r0 = url_of r.
Proof.
  unfold first_with_url. intros Hin.
  destruct (List.find _ rs) as [r0|] eqn:Hf.
  - exists r0. split; [done|]. apply find_some in Hf as [_ Hu].
    by apply bool_decide_eq_true in Hu.
  - apply list_elem_of_In in Hin. pose proof (find_none _ _ Hf r Hin) as Hno.
    simpl in Hno. by rewrite bool_decide_eq_true_2 in Hno.
Qed.

(** The URLs of the normalized table: those of the raw table that are not
    missing. *)
Lemma normalized_urls (raw out : DataFrame) (u : cell) :
  ensure_unique_and_ordered raw = Ok out →
  u ∈ url_of <$> rows out ↔ u ≠ NaN ∧ u ∈ url_of <$> rows raw.
Proof.
  intros Hn. rewrite !list_elem_of_fmap. split.
  - intros (r & -> & Hr). pose proof (normalized_subset _ _ _ Hn Hr) as Hraw.
    apply (elem_of_normalized _ _ _ Hn) in Hr as [Hna _]. eauto.
  - intros (Hna & r & -> & Hr).
    destruct (first_with_url_elem_of r _ Hr) as (r0 & Hf & Hu).
    exists r0. split; [done|]. apply (elem_of_normalized _ _ _ Hn).
    rewrite Hu. done.
Qed.

Lemma normalized_records (raw1 raw2 out1 out2 : DataFrame) :
  ensure_unique_and_ordered raw1 = Ok out1 →
  ensure_unique_and_ordered raw2 = Ok out2 →
  same_documents (rows raw1) (rows raw2) →
  url_is_key (rows raw1) →
  record_of <$> rows out1 = record_of <$> rows out2.
Proof.
  intros Hn1 Hn2 Hsame Hkey.
  assert (∀ u, u ∈ url_of <$> rows raw1 ↔ u ∈ url_of <$> rows raw2) as Hurls.
  { assert (∀ rs : list (gmap string cell),
              url_of <$> rs = fst ∘ fst ∘ fst <$> (record_of <$> rs)) as Hproj.
    { intros rs. rewrite <-list_fmap_compose. done. }
    intros u. rewrite !Hproj, !(list_elem_of_fmap (fst ∘ fst ∘ fst)).
    split; intros (rec & -> & Hrec); exists rec; (split; [done|]); by apply Hsame. }
  assert (url_of <$> rows out1 = url_of <$> rows out2) as Heq.
  { apply (StronglySorted_unique cell_le).
    - eapply (StronglySorted_fmap url_of url_le cell_le); [done|].
      by eapply normalized_sorted.
    - eapply (StronglySorted_fmap url_of url_le cell_le); [done|].
      by eapply normalized_sorted.
    - apply NoDup_Permutation; [by eapply normalized_NoDup..|].
      intros u. rewrite (normalized_urls _ _ _ Hn1), (normalized_urls _ _ _ Hn2).
      by rewrite Hurls. }
  apply list_eq. intros i. rewrite !list_lookup_fmap.
  assert (url_of <$> rows out1 !! i = url_of <$> rows out2 !! i) as Hi
    by (by rewrite <-!list_lookup_fmap, Heq).
  destruct (rows out1 !! i) as [r1|] eqn:Hr1, (rows out2 !! i) as [r2|] eqn:Hr2;
    simpl in *; try done.
  injection Hi as Hu. f_equal.
  apply list_elem_of_lookup_2 in Hr1, Hr2.
  pose proof (normalized_subset _ _ _ Hn1 Hr1) as Hraw1.
  pose proof (normalized_subset _ _ _ Hn2 Hr2) as Hraw2.
  apply (elem_of_normalized _ _ _ Hn1) in Hr1 as [Hna _].
  assert (record_of r2 ∈ record_of <$> rows raw1) as Hin
    by (apply Hsame; by apply list_elem_of_fmap_2).
  apply list_elem_of_fmap in Hin as (r2' & Hrec & Hin).
  rewrite Hrec. apply Hkey; [done..| |done].
  rewrite Hu. unfold record_of in Hrec. by injection Hrec as -> _ _ _.
Qed.

(** C7, as stated, fails: the two tables hold the same records in different
    row orders, but a different record of the URL [a] comes first, so the
    signatures and the recommendation rows differ. *)
Lemma duplicate_order_matters :
  same_documents (rows twice_a) (rows twice_a_reordered) ∧
  rows twice_a ≡ₚ rows twice_a_reordered ∧
  corpus_signature twice_a ≠ corpus_signature twice_a_reordered ∧
  recommendations_csv (@main toy (mkWorld (Some twice_a) None None [])).2
  ≠ recommendations_csv (@main toy (mkWorld (Some twice_a_reordered) None None [])).2.
Proof.
  assert (rows twice_a ≡ₚ rows twice_a_reordered) as Hperm by apply Permutation_swap.
  split; [|split; [done|split]].
  - intros rec. by rewrite Hperm.
  - apply (bool_decide_eq_false_1 _). vm_compute. reflexivity.
  - apply (bool_decide_eq_false_1 _). vm_compute. reflexivity.
Qed.

(** C7, amended: two raw tables with the same columns that hold the same set
    of document records, none of whose URLs comes with two different
    records, get the same signature; started on the same store, embedding
    log and output file, the two runs return the same, write the same
    recommendation rows and leave the same store and log. *)
Theorem order_invariance `{Externals} (w1 w2 : world) (raw1 raw2 : DataFrame) :
  articles_csv w1 = Some raw1 → articles_csv w2 = Some raw2 →
  agree w1 w2 →
  (∀ c, c ∈ columns raw1 ↔ c ∈ columns raw2) →
  same_documents (rows raw1) (rows raw2) →
  url_is_key (rows raw1) →
  corpus_signature raw1 = corpus_signature raw2 ∧
  (main w1).1 = (main w2).1 ∧
  agree (main w1).2 (main w2).2.
Proof.
  intros Hw1 Hw2 Hagree Hcols Hsame Hkey.
  destruct (ensure_unique_and_ordered raw1) as [out1|e1] eqn:Hn1.
  - destruct (normalized_columns _ _ Hn1) as [Hc1 Hurl1].
    destruct (normalizer_total raw2) as (out2 & Hn2); [by apply Hcols|].
    destruct (normalized_columns _ _ Hn2) as [Hc2 _].
    pose proof (normalized_records _ _ _ _ Hn1 Hn2 Hsame Hkey) as Hrecs.
    assert (∀ c, c ∈ columns out1 ↔ c ∈ columns out2) as Hcols'
      by (intros c; by rewrite Hc1, Hc2).
    split.
    + unfold corpus_signature. rewrite Hn1, Hn2.
      change (limit out1) with out1. change (limit out2) with out2.
      by rewrite (same_records_urls out1 out2 Hrecs),
        (same_records_texts out1 out2 Hrecs).
    + rewrite (main_pipeline w1 raw1 out1 Hw1 Hn1), (main_pipeline w2 raw2 out2 Hw2 Hn2).
      by apply same_records_pipeline.
  - assert ("url" ∉ columns raw1) as Hno1.
    { intros Hin. unfold ensure_unique_and_ordered in Hn1.
      by rewrite bool_decide_eq_true_2 in Hn1. }
    assert ("url" ∉ columns raw2) as Hno2 by (by rewrite <-Hcols).
    unfold corpus_signature.
    rewrite (normalizer_raises raw1 Hno1), (normalizer_raises raw2 Hno2),
      (main_raises w1 raw1 Hw1 Hno1), (main_raises w2 raw2 Hw2 Hno2). done.
Qed.

Lemma order_invariance_witness :
  corpus_signature three_alike = corpus_signature three_alike_shuffled ∧
  (@main toy alike_world).1
  = (@main toy (mkWorld (Some three_alike_shuffled) None None [])).1 ∧
  agree (@main toy alike_world).2
        (@main toy (mkWorld (Some three_alike_shuffled) None None [])).2.
Proof.
  apply (@order_invariance toy alike_world
           (mkWorld (Some three_alike_shuffled) None None [])
           three_alike three_alike_shuffled).
  - reflexivity.
  - reflexivity.
  - repeat split.
  - intros c. reflexivity.
  - intros rec.
    change (rec ∈ [record_of (doc "a" "Tt"); record_of (doc "b" "Tt");
                   record_of (doc "c" "Tt")]
            ↔ rec ∈ [record_of (doc "c" "Tt"); record_of (doc "a" "Tt");
                     record_of (doc "b" "Tt"); record_of (doc "a" "Tt")]).
    rewrite !elem_of_cons, !elem_of_nil. tauto.
  - intros r r' Hr Hr' Hu _.
    simpl in Hr, Hr'. rewrite !elem_of_cons, elem_of_nil in Hr, Hr'.
    destruct Hr as [->|[->|[->|[]]]], Hr' as [->|[->|[->|[]]]];
      first [reflexivity | vm_compute in Hu; discriminate Hu].
Defined.

Lemma cache_hit_witness :
  @load_or_build_embeddings toy ["A"; "Bb"]
    (dataset_signature ["a"; "b"] ["A"; "Bb"] MODEL_NAME) MODEL_NAME opposite_world
  = (Ok opposite_vectors, opposite_world).
Proof.
  apply (@cache_hit toy ["A"; "Bb"] _ MODEL_NAME opposite_world
           {[ "embeddings" := PyArray opposite_vectors;
              "signature" := PyStr (dataset_signature ["a"; "b"] ["A"; "Bb"] MODEL_NAME);
              "model" := PyStr MODEL_NAME ]} opposite_vectors);
    reflexivity.
Defined.

Lemma cache_miss_rebuilds_witness :
  @load_or_build_embeddings toy ["Tt"; "Tt"; "Tt"] "0f" MODEL_NAME alike_world
  = (Ok [[Q2Qc 1]; [Q2Qc 1]; [Q2Qc 1]],
     rebuilt alike_world ["Tt"; "Tt"; "Tt"] "0f" MODEL_NAME
       [[Q2Qc 1]; [Q2Qc 1]; [Q2Qc 1]]).
Proof.
  apply (@cache_miss_rebuilds toy ["Tt"; "Tt"; "Tt"] "0f" MODEL_NAME alike_world).
  - apply miss_absent.
  - reflexivity.
Defined.

Lemma three_alike_normalized : ensure_unique_and_ordered three_alike = Ok three_alike.
Proof. vm_compute. reflexivity. Qed.

Lemma row_count_witness :
  ∃ recs w', @main toy alike_world = (Ok tt, w') ∧
    recommendations_csv w' = Some recs ∧
    ∀ r, r ∈ rows three_alike →
      length (List.filter (λ rec, bool_decide (source_url rec = url_of r)) recs)
      = max 1 (min TOP_K (length (rows three_alike) - 1)).
Proof.
  destruct (@row_count toy toy_ok alike_world three_alike three_alike eq_refl
              three_alike_normalized) as (_ & Hlarge & _).
  apply Hlarge.
  - simpl. lia.
  - apply (bool_decide_unpack _). vm_compute. exact I.
  - eexists. reflexivity.
Defined.

(** Where the self-exclusion does hold: when every other score of the row is
    strictly above the sentinel and fewer indices are asked for than the row
    has, the source's own index is not picked. *)
Lemma no_self_above_sentinel `{ExternalsOk} (sim_row : list Qc) (idx top_k : nat) :
  idx < length sim_row → top_k < length sim_row →
  (∀ j, j ≠ idx → j < length sim_row → (sentinel < score_at sim_row j)%Qc) →
  idx ∉ top_indices (<[idx := sentinel]> sim_row) top_k.
Proof.
  intros Hidx Hk Habove Hin.
  set (v := <[idx := sentinel]> sim_row) in *.
  assert (length v = length sim_row) as Hlen by apply length_insert.
  assert (∃ j, j < length v ∧ j ∉ top_indices v top_k) as (j & Hj & Hout).
  { destruct (decide (Forall (λ j, j ∈ top_indices v top_k) (seq 0 (length v))))
      as [Hall|Hnot].
    - exfalso. rewrite Forall_forall in Hall.
      assert (seq 0 (length v) ⊆+ top_indices v top_k) as Hsub
        by (apply NoDup_submseteq; [apply NoDup_seq|done]).
      apply submseteq_length in Hsub.
      rewrite length_seq, top_indices_length in Hsub. lia.
    - apply not_Forall_Exists in Hnot; [|intros ?; apply _].
      apply Exists_exists in Hnot as (j & Hj & Hout).
      exists j. split; [|done]. apply elem_of_seq in Hj. lia. }
  assert (j ≠ idx) as Hne by (intros ->; done).
  pose proof (top_indices_top v top_k j idx Hj Hout Hin) as Hle.
  unfold score_le, score_at, v in Hle.
  rewrite list_lookup_insert_ne, list_lookup_insert_eq in Hle by (done || lia).
  simpl in Hle. apply Qcle_not_lt in Hle. apply Hle.
  apply Habove; [done|lia].
Qed.

(** ** Examples *)

Example combine_text_demo :
  combine_text {[ "title" := Str "  Cats "; "excerpt" := Str " ";
                  "keywords" := Str "a, b" ]}
  = "Cats. a, b".
Proof. vm_compute. reflexivity. Qed.

Example combine_text_missing :
  combine_text {[ "title" := NaN; "excerpt" := Str ""; "keywords" := Str "k" ]}
  = "nan. k".
Proof. vm_compute. reflexivity. Qed.

Example md5_of_nothing : dataset_signature [] [] "" = "d41d8cd98f00b204e9800998ecf8427e".
Proof. vm_compute. reflexivity. Qed.

Example md5_of_abc : dataset_signature [] [] "abc" = "900150983cd24fb0d6963f7d28e17f72".
Proof. vm_compute. reflexivity. Qed.

Example signature_of_one_pair :
  dataset_signature ["https://example.org/a-rather-long-url-to-cross-one-block"]
    ["some text that is combined. and keywords"] MODEL_NAME
  = "da9f1bbf377c6eef83038c6cb6c91d71".
Proof. vm_compute. reflexivity. Qed.

(** A run on [sample_table]: the row without URL is dropped, the second row
    of [b] is dropped, and the title of the first one is the anchor text. *)
Example main_on_sample :
  (@main toy (mkWorld (Some sample_table) None None [])).1 = Ok tt ∧
  model_calls (@main toy (mkWorld (Some sample_table) None None [])).2
  = [(MODEL_NAME, ["A"; "Bb"; "Ccc"])] ∧
  (anchor_text <$>
     default [] (recommendations_csv (@main toy (mkWorld (Some sample_table) None None [])).2))
  = [Str "Ccc"; Str "Bb"; Str "Ccc"; Str "Bb"; Str "A"; Str "Ccc"].
Proof. vm_compute. repeat split. Qed.

(** A second run finds the store of the first and does not call the model. *)
Example second_run_hits :
  model_calls
    (@main toy (@main toy (mkWorld (Some sample_table) None None [])).2).2
  = [(MODEL_NAME, ["A"; "Bb"; "Ccc"])].
Proof. vm_compute. reflexivity. Qed.

(** * Further properties of [recommendations.py] *)

(** ** Combined text *)

Lemma join_empty (sep : string) (ps : list string) :
  Forall (λ p, p ≠ "") ps → join sep ps = "" → ps = [].
Proof.
  intros Hps. destruct Hps as [|p ps Hp Hps]; [done|].
  destruct ps as [|q ps]; simpl; [done|].
  destruct p; [done|]. discriminate.
Qed.

Lemma nonempty_true (s : string) : nonempty s = true ↔ s ≠ "".
Proof. destruct s; simpl; split; done. Qed.

Lemma kept_parts_nonempty (parts : list string) :
  Forall (λ p, p ≠ "")
    (List.map strip (List.filter (λ p, nonempty (strip p)) parts)).
Proof.
  induction parts as [|p parts IH]; simpl; [constructor|].
  destruct (nonempty (strip p)) eqn:Hp; [|done].
  simpl. constructor; [by apply nonempty_true|done].
Qed.

Lemma blank_field_strip (c : string) (row : gmap string cell) :
  strip (str_or_empty (row_get c row)) = "" ↔ blank_field c row.
Proof.
  unfold blank_field, row_get.
  destruct (row !! c) as [[|s]|]; simpl; [|done|done].
  split; [|done]. intros Hnan. vm_compute in Hnan. discriminate Hnan.
Qed.

Lemma strip_head_spaces (ws : list (list N)) (l : list ascii) :
  Forall (λ a, ascii_space a = true) l → strip_head (length l) ws l = [].
Proof.
  induction 1 as [|a l Ha Hl IH]; simpl; [done|]. by rewrite Ha.
Qed.

Lemma written_not_blank (c : string) (row : gmap string cell) :
  written_field c row → ¬ blank_field c row.
Proof.
  unfold written_field, blank_field.
  destruct (row !! c) as [[|s]|]; intros Hw Hb; auto.
Qed.

(** When each of the three fields is blank (the column is absent, or the
    cell is a string that [strip] empties) the combined text is empty; when
    one of them is a missing value or a string with more than white space,
    it is not. A string made of ASCII white space only is blank. *)
Theorem combine_text_blank_fields (row : gmap string cell) :
  (blank_field "title" row ∧ blank_field "excerpt" row ∧ blank_field "keywords" row →
   combine_text row = "") ∧
  (written_field "title" row ∨ written_field "excerpt" row ∨
   written_field "keywords" row →
   combine_text row ≠ "") ∧
  (∀ s, Forall (λ a, ascii_space a = true) (list_ascii_of_string s) → strip s = "").
Proof.
  assert (Hempty : combine_text row = "" →
    blank_field "title" row ∧ blank_field "excerpt" row ∧ blank_field "keywords" row).
  { rewrite <-!blank_field_strip. unfold combine_text.
    set (t := str_or_empty (row_get "title" row)).
    set (e := str_or_empty (row_get "excerpt" row)).
    set (k := str_or_empty (row_get "keywords" row)).
    intros Hj. apply join_empty in Hj; [|apply kept_parts_nonempty].
    apply (f_equal (@length string)) in Hj. rewrite length_map in Hj.
    simpl in Hj.
    destruct (strip t) eqn:Ht, (strip e) eqn:He, (strip k) eqn:Hk;
      simpl in Hj; done. }
  split; [|split].
  - rewrite <-!blank_field_strip. unfold combine_text.
    intros (Ht & He & Hk). simpl. rewrite Ht, He, Hk. done.
  - intros Hwritten Htext. destruct (Hempty Htext) as (Ht & He & Hk).
    destruct Hwritten as [Hw|[Hw|Hw]]; by apply written_not_blank in Hw.
  - intros s Hs. unfold strip, lstrip. by rewrite strip_head_spaces.
Qed.

(** A missing title is not dropped from the combined text: it stands there
    as the three letters [nan], alone or followed by the separator. *)
Theorem combine_text_missing_title (row : gmap string cell) :
  row !! "title" = Some NaN →
  combine_text row = "nan" ∨ ∃ rest, combine_text row = ("nan. " ++ rest)%string.
Proof.
  intros Ht. unfold combine_text, row_get. rewrite Ht.
  set (e := str_or_empty (default (Str "") (row !! "excerpt"))).
  set (k := str_or_empty (default (Str "") (row !! "keywords"))).
  change (List.filter (λ p, nonempty (strip p)) [str_or_empty (default (Str "") (Some NaN)); e; k])
    with ("nan" :: List.filter (λ p, nonempty (strip p)) [e; k]).
  rewrite map_cons. change (strip "nan") with "nan".
  destruct (List.map strip (List.filter _ [e; k])) as [|q qs]; [by left|].
  right. by eexists.
Qed.

Lemma combine_text_missing_title_witness :
  combine_text {[ "title" := NaN; "excerpt" := Str "e" ]} = "nan"
  ∨ ∃ rest, combine_text {[ "title" := NaN; "excerpt" := Str "e" ]}
            = ("nan. " ++ rest)%string.
Proof.
  apply combine_text_missing_title. reflexivity.
Defined.

(** ** The normalizer *)

(** The normalizer only removes and reorders rows: the columns are kept,
    every row of the result is a row of the input, and the URLs of the
    result are exactly the URLs of the input that are not missing, so no
    document with a URL is lost. *)
Theorem normalizer_keeps_every_url (df out : DataFrame) :
  ensure_unique_and_ordered df = Ok out →
  columns out = columns df ∧
  (∀ r, r ∈ rows out → r ∈ rows df) ∧
  (∀ u, u ∈ url_of <$> rows out ↔ u ≠ NaN ∧ u ∈ url_of <$> rows df) ∧
  (length (rows out) ≤ length (rows df))%nat.
Proof.
  intros Hn. split; [by apply normalized_columns in Hn as [? _]|].
  split; [intros r; by apply normalized_subset|].
  split; [intros u; by apply normalized_urls|].
  pose proof Hn as Hn'. unfold ensure_unique_and_ordered in Hn'.
  case_bool_decide; [|done]. injection Hn' as <-. simpl.
  rewrite sort_values_url_perm.
  assert (∀ seen rs, (length (drop_duplicates_from seen rs) ≤ length rs)%nat) as Hdd.
  { intros seen rs. revert seen. induction rs as [|r rs IH]; intros seen; simpl; [lia|].
    case_bool_decide; [specialize (IH seen)|specialize (IH (url_of r :: seen))];
      simpl; lia. }
  etrans; [apply Hdd|]. unfold dropna_url. apply List.filter_length_le.
Qed.

Lemma normalizer_keeps_every_url_witness :
  columns (mkDataFrame ["url"; "title"] [doc "a" "A"; doc "b" "Bb"; doc "c" "Ccc"])
  = columns sample_table ∧
  (∀ r, r ∈ [doc "a" "A"; doc "b" "Bb"; doc "c" "Ccc"] → r ∈ rows sample_table) ∧
  (∀ u, u ∈ url_of <$> [doc "a" "A"; doc "b" "Bb"; doc "c" "Ccc"]
        ↔ u ≠ NaN ∧ u ∈ url_of <$> rows sample_table) ∧
  (length [doc "a" "A"; doc "b" "Bb"; doc "c" "Ccc"] ≤ length (rows sample_table))%nat.
Proof.
  apply (normalizer_keeps_every_url sample_table
           (mkDataFrame ["url"; "title"] [doc "a" "A"; doc "b" "Bb"; doc "c" "Ccc"])).
  vm_compute. reflexivity.
Defined.

Lemma dropna_url_id (rs : list (gmap string cell)) :
  Forall (λ r, url_of r ≠ NaN) rs → dropna_url rs = rs.
Proof.
  unfold dropna_url. induction 1 as [|r rs Hr Hrs IH]; simpl; [done|].
  destruct (url_of r); [done|]. simpl. by rewrite IH.
Qed.

Lemma drop_duplicates_from_id (rs : list (gmap string cell)) (seen : list cell) :
  NoDup (url_of <$> rs) → (∀ r, r ∈ rs → url_of r ∉ seen) →
  drop_duplicates_from seen rs = rs.
Proof.
  revert seen. induction rs as [|r rs IH]; intros seen Hnd Hseen; simpl; [done|].
  rewrite fmap_cons in Hnd. apply NoDup_cons in Hnd as [Hr Hnd].
  rewrite bool_decide_eq_false_2 by (apply Hseen; by left).
  f_equal. apply IH; [done|]. intros r' Hr'.
  apply not_elem_of_cons. split.
  - intros Heq. apply Hr. rewrite <-Heq. by apply list_elem_of_fmap_2.
  - apply Hseen. by right.
Qed.

Lemma NoDup_fmap_eq {A B} (f : A → B) (l : list A) (x y : A) :
  NoDup (f <$> l) → x ∈ l → y ∈ l → f x = f y → x = y.
Proof.
  induction l as [|a l IH]; intros Hnd Hx Hy Hf; [by apply elem_of_nil in Hx|].
  rewrite fmap_cons in Hnd. apply NoDup_cons in Hnd as [Ha Hnd].
  apply elem_of_cons in Hx as [->|Hx], Hy as [->|Hy]; [done| | |by apply IH].
  - exfalso. apply Ha. rewrite Hf. by apply list_elem_of_fmap_2.
  - exfalso. apply Ha. rewrite <-Hf. by apply list_elem_of_fmap_2.
Qed.

Lemma sort_values_url_id (rs : list (gmap string cell)) :
  NoDup (url_of <$> rs) → StronglySorted url_le rs → sort_values_url rs = rs.
Proof.
  intros Hnd Hs. apply (StronglySorted_unique_strong url_le).
  - intros r1 r2 Hr1 Hr2 H12 H21.
    rewrite sort_values_url_perm in Hr1.
    apply (NoDup_fmap_eq url_of rs); [done..|].
    by apply (anti_symm cell_le).
  - apply sort_values_url_sorted.
  - done.
  - apply sort_values_url_perm.
Qed.

(** Normalizing twice is normalizing once: the normalized table is returned
    as it is. *)
Theorem normalizer_idempotent (df out : DataFrame) :
  ensure_unique_and_ordered df = Ok out →
  ensure_unique_and_ordered out = Ok out.
Proof.
  intros Hn. destruct (normalized_columns _ _ Hn) as [Hcols Hurl].
  unfold ensure_unique_and_ordered.
  rewrite bool_decide_eq_true_2 by (by rewrite Hcols).
  rewrite dropna_url_id by (by eapply normalized_no_missing).
  unfold drop_duplicates_url.
  rewrite drop_duplicates_from_id;
    [|by eapply normalized_NoDup|intros r _; apply not_elem_of_nil].
  rewrite sort_values_url_id;
    [|by eapply normalized_NoDup|by eapply normalized_sorted].
  by destruct out.
Qed.

Lemma normalizer_idempotent_witness :
  ensure_unique_and_ordered
    (mkDataFrame ["url"; "title"] [doc "a" "A"; doc "b" "Bb"; doc "c" "Ccc"])
  = Ok (mkDataFrame ["url"; "title"] [doc "a" "A"; doc "b" "Bb"; doc "c" "Ccc"]).
Proof.
  apply (normalizer_idempotent sample_table). vm_compute. reflexivity.
Defined.

(** ** The embedding cache across calls *)

(** What a successful call leaves behind: a store that is valid for the
    vectors it returned. *)
Lemma load_or_build_leaves_valid `{ExternalsOk} (texts : list string)
    (signature model_name : string) (w w1 : world) (emb : list (list Qc)) :
  load_or_build_embeddings texts signature model_name w = (Ok emb, w1) →
  cache_valid texts signature model_name (embeddings_file w1) emb ∧
  articles_csv w1 = articles_csv w ∧
  recommendations_csv w1 = recommendations_csv w.
Proof.
  intros Hload.
  destruct (cache_valid_or_miss texts signature model_name (embeddings_file w))
    as [(emb0 & Hvalid)|Hmiss].
  - rewrite (load_or_build_of_hit _ _ _ _ _ Hvalid) in Hload.
    injection Hload as <- <-. done.
  - rewrite (load_or_build_of_miss _ _ _ _ Hmiss) in Hload.
    destruct (encode model_name texts) as [fresh|e] eqn:Henc; [|done].
    injection Hload as <- <-. split; [|done].
    eexists. split; [reflexivity|].
    split; [done|]. split; [by eapply encode_rows|]. done.
Qed.

(** A call that succeeded can be repeated: the second call returns the same
    vectors and changes nothing, neither the store nor the log of model
    invocations. What [pickle.dump] wrote is what [pickle.load] accepts. *)
Theorem cache_second_call_hits `{ExternalsOk} (texts : list string)
    (signature model_name : string) (w w1 : world) (emb : list (list Qc)) :
  load_or_build_embeddings texts signature model_name w = (Ok emb, w1) →
  load_or_build_embeddings texts signature model_name w1 = (Ok emb, w1).
Proof.
  intros Hload. apply load_or_build_leaves_valid in Hload as [Hvalid _].
  by apply load_or_build_of_hit.
Qed.

Lemma cache_second_call_hits_witness :
  @load_or_build_embeddings toy ["Tt"; "Tt"; "Tt"] "0f" MODEL_NAME
    (rebuilt alike_world ["Tt"; "Tt"; "Tt"] "0f" MODEL_NAME
       [[Q2Qc 1]; [Q2Qc 1]; [Q2Qc 1]])
  = (Ok [[Q2Qc 1]; [Q2Qc 1]; [Q2Qc 1]],
     rebuilt alike_world ["Tt"; "Tt"; "Tt"] "0f" MODEL_NAME
       [[Q2Qc 1]; [Q2Qc 1]; [Q2Qc 1]]).
Proof.
  apply (@cache_second_call_hits toy toy_ok _ _ _ alike_world).
  vm_compute. reflexivity.
Defined.

(** ** Running the script twice *)

Lemma main_ok_inv `{Externals} (w : world) (r : unit) (w' : world) :
  main w = (Ok r, w') →
  ∃ raw out, articles_csv w = Some raw ∧ ensure_unique_and_ordered raw = Ok out.
Proof.
  unfold main, bind, read_csv, lift. intros Hmain.
  destruct (articles_csv w) as [raw|]; [|done].
  destruct (ensure_unique_and_ordered raw) as [out|] eqn:Hn; [|done].
  by exists raw, out.
Qed.

Lemma pipeline_load_raises `{Externals} (df : DataFrame) (w w1 : world)
    (urls : list string) (e : exn) :
  (2 ≤ length (rows df))%nat →
  collect as_str (List.map url_of (rows df)) = Ok urls →
  load_or_build_embeddings (List.map combine_text (rows df))
    (dataset_signature urls (List.map combine_text (rows df)) MODEL_NAME)
    MODEL_NAME w = (Raise e, w1) →
  pipeline df w = (Raise e, w1).
Proof.
  intros Hn Hurls Hload. unfold pipeline.
  rewrite bool_decide_eq_false_2 by lia.
  unfold bind at 1. unfold lift at 1. rewrite Hurls.
  unfold bind at 1. by rewrite Hload.
Qed.

(** A run that succeeded can be repeated on the world it left: the second
    run succeeds, invokes no model, and leaves the store, the recommendation
    table and the log exactly as the first run left them. *)
Theorem second_run_reuses `{ExternalsOk} (w w' : world) :
  main w = (Ok tt, w') → main w' = (Ok tt, w').
Proof.
  intros Hmain.
  destruct (main_ok_inv _ _ _ Hmain) as (raw & out & Hw & Hnorm).
  rewrite (main_pipeline w raw out Hw Hnorm) in Hmain.
  destruct (decide (length (rows out) < 2)) as [Hsmall|Hlarge].
  - rewrite pipeline_small in Hmain by done. injection Hmain as <-.
    rewrite (main_pipeline _ raw out) by done. by rewrite pipeline_small.
  - assert (2 ≤ length (rows out))%nat as Hn by lia.
    destruct (collect_as_str (rows out) (normalized_no_missing _ _ Hnorm))
      as (urls & Hurls & _).
    destruct (load_or_build_embeddings (List.map combine_text (rows out))
                (dataset_signature urls (List.map combine_text (rows out)) MODEL_NAME)
                MODEL_NAME w) as [[emb|e] w1] eqn:Hload.
    + destruct (load_or_build_leaves_valid _ _ _ _ _ _ Hload)
        as (Hvalid & Harticles & _).
      assert (length emb = length (rows out)) as Hlen.
      { destruct Hvalid as (d & _ & _ & Hlen & _). by rewrite length_map in Hlen. }
      rewrite (pipeline_large out w w1 urls emb Hn Hurls Hload Hlen) in Hmain.
      destruct (build_recommendations out (cosine_similarity emb) _)
        as [recs|e] eqn:Hbuild; [|done].
      injection Hmain as <-.
      rewrite (main_pipeline _ raw out) by (simpl; congruence || done).
      erewrite (pipeline_large out _ _ urls emb Hn Hurls); [|by apply load_or_build_of_hit|done].
      by rewrite Hbuild.
    + by rewrite (pipeline_load_raises out w w1 urls e Hn Hurls Hload) in Hmain.
Qed.

Lemma second_run_reuses_witness :
  @main toy (@main toy alike_world).2 = (Ok tt, (@main toy alike_world).2).
Proof.
  apply (@second_run_reuses toy toy_ok alike_world).
  vm_compute. reflexivity.
Defined.

(** ** What [main] leaves alone *)

Section keeps.
Context `{Externals}.

Lemma keeps_bind {A B} (m : M A) (k : A → M B) :
  keeps m → (∀ a, keeps (k a)) → keeps (bind m k).
Proof.
  intros Hm Hk w. unfold bind. destruct (Hm w) as [Ha Hr].
  destruct (m w) as [[a|e] w1]; simpl in *; [|done].
  destruct (Hk a w1) as [Ha' Hr']. split; congruence.
Qed.

Lemma keeps_try {A} (b : M A) (h : exn → M A) :
  keeps b → (∀ e, keeps (h e)) → keeps (try_except b h).
Proof.
  intros Hb Hh w. unfold try_except. destruct (Hb w) as [Ha Hr].
  destruct (b w) as [[a|e] w1]; simpl in *; [done|].
  destruct (Hh e w1) as [Ha' Hr']. split; congruence.
Qed.

Lemma keeps_lift {A} (r : result A) : keeps (lift r).
Proof. by intros w. Qed.

Lemma keeps_ret {A} (a : A) : keeps (ret a).
Proof. by intros w. Qed.

Lemma keeps_read_csv : keeps read_csv.
Proof.
  intros w. unfold read_csv. destruct (articles_csv w) eqn:Hw; simpl; by rewrite ?Hw.
Qed.

Lemma keeps_path_exists : keeps path_exists.
Proof. by intros w. Qed.

Lemma keeps_pickle_load : keeps pickle_load.
Proof. intros w. unfold pickle_load. by destruct (embeddings_file w) as [[|o]|]. Qed.

Lemma keeps_remove : keeps remove_embeddings_file.
Proof. intros w. unfold remove_embeddings_file. by destruct (embeddings_file w). Qed.

Lemma keeps_load_or_build texts signature model_name :
  keeps (load_or_build_embeddings texts signature model_name).
Proof.
  unfold load_or_build_embeddings.
  apply keeps_bind; [apply keeps_path_exists|]. intros present.
  apply keeps_bind.
  - destruct present; [|apply keeps_ret].
    apply keeps_try; [|intros e; apply keeps_ret].
    apply keeps_bind; [apply keeps_pickle_load|]. intros payload.
    repeat (apply keeps_bind; [apply keeps_lift|]; intros ?).
    apply keeps_lift.
  - intros [emb|]; [apply keeps_ret|].
    apply keeps_bind; [by intros w|]. intros emb.
    apply keeps_bind; [by intros w|]. intros _. apply keeps_ret.
Qed.

Lemma writes_last_bind {A B} (m : M A) (k : A → M B) :
  keeps m → (∀ a, writes_last (k a)) → writes_last (bind m k).
Proof.
  intros Hm Hk w. unfold bind. destruct (Hm w) as [Ha Hr].
  destruct (m w) as [[a|e] w1]; simpl in *; [|done].
  destruct (Hk a w1) as [Ha' Hr']. split; [congruence|].
  intros e He. rewrite (Hr' e He). done.
Qed.

Lemma writes_last_to_csv recs : writes_last (to_csv recs).
Proof. intros w. split; [done|]. by intros e. Qed.

Lemma writes_last_pipeline df : writes_last (pipeline df).
Proof.
  unfold pipeline. case_bool_decide; [apply writes_last_to_csv|].
  apply writes_last_bind; [apply keeps_lift|]. intros urls.
  apply writes_last_bind; [apply keeps_load_or_build|]. intros embeddings.
  apply writes_last_bind.
  - destruct (has_shape _ _ _); [apply keeps_ret|].
    apply keeps_bind; [apply keeps_path_exists|]. intros present.
    apply keeps_bind; [destruct present; [apply keeps_remove|apply keeps_ret]|].
    intros _. apply keeps_bind; [apply keeps_load_or_build|]. intros ?.
    apply keeps_ret.
  - intros sim. apply writes_last_bind; [apply keeps_lift|]. intros recs.
    apply writes_last_to_csv.
Qed.
End keeps.

(** Whatever the libraries do, [main] never changes the articles file, and
    when it raises it has not written the recommendation table: writing the
    table is its last step. *)
Theorem main_writes_last `{Externals} (w : world) :
  articles_csv (main w).2 = articles_csv w ∧
  ∀ e, (main w).1 = Raise e → recommendations_csv (main w).2 = recommendations_csv w.
Proof.
  revert w. change (writes_last main). unfold main.
  apply writes_last_bind; [apply keeps_read_csv|]. intros df.
  apply writes_last_bind; [apply keeps_lift|]. intros out.
  apply writes_last_pipeline.
Qed.

Lemma main_writes_last_witness :
  recommendations_csv
    (@main toy (mkWorld (Some headless_table) None (Some alike_recommendations) [])).2
  = Some alike_recommendations.
Proof.
  apply (proj2 (@main_writes_last toy
                  (mkWorld (Some headless_table) None (Some alike_recommendations) []))
           (ValueError "Input CSV must contain a 'url' column.")).
  vm_compute. reflexivity.
Defined.

(** When the store does not answer and the model raises, [main] raises the
    model's exception; the store and the recommendation table are as
    before, the attempt is in the log. *)
Theorem model_failure_surfaces `{Externals} (w : world) (raw out : DataFrame)
    (urls : list string) (e : exn) :
  articles_csv w = Some raw →
  ensure_unique_and_ordered raw = Ok out →
  (2 ≤ length (rows out))%nat →
  collect as_str (List.map url_of (rows out)) = Ok urls →
  cache_miss (List.map combine_text (rows out))
    (dataset_signature urls (List.map combine_text (rows out)) MODEL_NAME)
    MODEL_NAME (embeddings_file w) →
  encode MODEL_NAME (List.map combine_text (rows out)) = Raise e →
  main w = (Raise e,
            mkWorld (articles_csv w) (embeddings_file w) (recommendations_csv w)
              (model_calls w ++ [(MODEL_NAME, List.map combine_text (rows out))])).
Proof.
  intros Hw Hnorm Hn Hurls Hmiss Henc.
  rewrite (main_pipeline w raw out Hw Hnorm).
  eapply pipeline_load_raises; [done..|].
  rewrite load_or_build_of_miss by done. by rewrite Henc.
Qed.

Lemma model_failure_surfaces_witness :
  @main offline alike_world
  = (Raise ModelError,
     mkWorld (Some three_alike) None None [(MODEL_NAME, ["Tt"; "Tt"; "Tt"])]).
Proof.
  apply (@model_failure_surfaces offline alike_world three_alike three_alike
           ["a"; "b"; "c"] ModelError).
  - reflexivity.
  - exact three_alike_normalized.
  - simpl. lia.
  - reflexivity.
  - apply miss_absent.
  - reflexivity.
Defined.

(** ** The rows of the recommendation table *)

(** Where a row of the table comes from: a source index, the masked row of
    the similarity matrix, and one of the picked target indices. *)
Lemma elem_of_build_recommendations `{ExternalsOk} (df : DataFrame)
    (sim : list (list Qc)) (top_k : nat) (recs : list Recommendation)
    (rec : Recommendation) :
  "url" ∈ columns df → "title" ∈ columns df →
  has_shape sim (length (rows df)) (length (rows df)) = true →
  build_recommendations df sim top_k = Ok recs →
  rec ∈ recs →
  ∃ i t ri rt sim_row,
    rows df !! i = Some ri ∧ rows df !! t = Some rt ∧
    sim !! i = Some sim_row ∧ length sim_row = length (rows df) ∧
    t ∈ top_indices (<[i := sentinel]> sim_row) top_k ∧
    rec = mkRecommendation (url_of ri) (url_of rt)
            (score_at (<[i := sentinel]> sim_row) t) (cell_at "title" rt).
Proof.
  intros Hurl Htitle Hshape Hbuild Hrec.
  rewrite (build_recommendations_blocks df sim top_k Hurl Htitle Hshape) in Hbuild.
  injection Hbuild as <-.
  apply list_elem_of_In, in_concat in Hrec as (b & Hb & Hrec).
  apply list_elem_of_In, list_elem_of_lookup in Hb as [i Hb].
  rewrite list_lookup_imap in Hb.
  destruct (rows df !! i) as [ri|] eqn:Hri; [|done]. injection Hb as <-.
  pose proof (lookup_lt_Some _ _ _ Hri) as Hi.
  destruct (masked_scores_ok sim _ i Hshape Hi) as (sim_row & Hrow & Hlen & _).
  unfold block in Hrec. rewrite Hrow in Hrec. simpl in Hrec.
  apply list_elem_of_In, list_elem_of_fmap in Hrec as (t & -> & Ht).
  pose proof (top_indices_elem_of _ _ _ Ht) as Hlt.
  rewrite length_insert, Hlen in Hlt.
  destruct (rows df !! t) as [rt|] eqn:Hrt;
    [|apply lookup_ge_None in Hrt; lia].
  exists i, t, ri, rt, sim_row. repeat (split; [done|]).
  unfold emitted. by rewrite Hrt.
Qed.

(** Every row of the table joins two documents of the corpus: the target URL
    is the URL of a document, the anchor text is the title of that very
    document, and the score is the entry of the similarity matrix for the
    pair (the sentinel when the target is the source itself). *)
Theorem rows_describe_their_target `{ExternalsOk} (df : DataFrame)
    (sim : list (list Qc)) (top_k : nat) (recs : list Recommendation)
    (rec : Recommendation) :
  "url" ∈ columns df → "title" ∈ columns df →
  has_shape sim (length (rows df)) (length (rows df)) = true →
  build_recommendations df sim top_k = Ok recs →
  rec ∈ recs →
  ∃ i t ri rt sim_row,
    rows df !! i = Some ri ∧ rows df !! t = Some rt ∧ sim !! i = Some sim_row ∧
    source_url rec = url_of ri ∧
    target_url rec = url_of rt ∧
    anchor_text rec = cell_at "title" rt ∧
    (t ≠ i → sim_row !! t = Some (similarity_score rec)) ∧
    (t = i → similarity_score rec = sentinel).
Proof.
  intros Hurl Htitle Hshape Hbuild Hrec.
  destruct (elem_of_build_recommendations df sim top_k recs rec)
    as (i & t & ri & rt & sim_row & Hri & Hrt & Hrow & Hlen & Ht & ->); [done..|].
  exists i, t, ri, rt, sim_row. repeat (split; [done|]). simpl.
  pose proof (lookup_lt_Some _ _ _ Hri) as Hi.
  pose proof (lookup_lt_Some _ _ _ Hrt) as Hlt.
  unfold score_at. split.
  - intros Hne. rewrite list_lookup_insert_ne by done.
    destruct (sim_row !! t) eqn:Hs; [done|].
    apply lookup_ge_None in Hs. lia.
  - intros ->. rewrite list_lookup_insert_eq by lia. done.
Qed.

Lemma rows_describe_their_target_witness :
  ∃ i t ri rt sim_row,
    rows two_docs !! i = Some ri ∧ rows two_docs !! t = Some rt ∧
    opposite_similarity !! i = Some sim_row ∧
    Str "a" = url_of ri ∧ Str "b" = url_of rt ∧ Str "Bb" = cell_at "title" rt ∧
    (t ≠ i → sim_row !! t = Some sentinel) ∧
    (t = i → sentinel = sentinel).
Proof.
  apply (@rows_describe_their_target toy toy_ok two_docs opposite_similarity 1
           [mkRecommendation (Str "a") (Str "b") sentinel (Str "Bb");
            mkRecommendation (Str "b") (Str "b") sentinel (Str "Bb")]
           (mkRecommendation (Str "a") (Str "b") sentinel (Str "Bb"))).
  - apply (bool_decide_unpack _). vm_compute. exact I.
  - apply (bool_decide_unpack _). vm_compute. exact I.
  - vm_compute. reflexivity.
  - vm_compute. reflexivity.
  - by left.
Defined.

(** When every similarity between two different documents is strictly above
    the sentinel and fewer targets are asked for than there are documents
    (as [main] does), no row has its source as target. *)
Theorem no_self_pair_above_sentinel `{ExternalsOk} (df : DataFrame)
    (sim : list (list Qc)) (top_k : nat) (recs : list Recommendation) :
  "url" ∈ columns df → "title" ∈ columns df →
  has_shape sim (length (rows df)) (length (rows df)) = true →
  NoDup (url_of <$> rows df) →
  top_k < length (rows df) →
  (∀ i j sim_row, sim !! i = Some sim_row → j ≠ i → j < length (rows df) →
                  (sentinel < score_at sim_row j)%Qc) →
  build_recommendations df sim top_k = Ok recs →
  ∀ rec, rec ∈ recs → source_url rec ≠ target_url rec.
Proof.
  intros Hurl Htitle Hshape Hnd Hk Habove Hbuild rec Hrec.
  destruct (elem_of_build_recommendations df sim top_k recs rec)
    as (i & t & ri & rt & sim_row & Hri & Hrt & Hrow & Hlen & Ht & ->); [done..|].
  simpl. intros Heq.
  assert (i = t) as ->.
  { eapply NoDup_lookup; [exact Hnd|..]; rewrite list_lookup_fmap.
    - by rewrite Hri.
    - rewrite Hrt. simpl. by rewrite Heq. }
  revert Ht. apply no_self_above_sentinel.
  - rewrite Hlen. by eapply lookup_lt_Some.
  - by rewrite Hlen.
  - intros j Hj Hlt. apply (Habove t); [done..|]. by rewrite <-Hlen.
Qed.

Lemma no_self_pair_above_sentinel_witness :
  mkRecommendation (Str "a") (Str "c") (Q2Qc 1) (Str "Tt") ∈ alike_recommendations ∧
  source_url (mkRecommendation (Str "a") (Str "c") (Q2Qc 1) (Str "Tt"))
  ≠ target_url (mkRecommendation (Str "a") (Str "c") (Q2Qc 1) (Str "Tt")).
Proof.
  split; [apply elem_of_cons; by left|].
  apply (@no_self_pair_above_sentinel toy toy_ok three_alike
           (cosine_similarity_1d [[Q2Qc 1]; [Q2Qc 1]; [Q2Qc 1]]) 2
           alike_recommendations).
  - apply (bool_decide_unpack _). vm_compute. exact I.
  - apply (bool_decide_unpack _). vm_compute. exact I.
  - vm_compute. reflexivity.
  - apply (bool_decide_unpack _). vm_compute. exact I.
  - simpl. lia.
  - intros i j sim_row Hrow Hne Hj.
    destruct i as [|[|[|i]]]; simpl in Hrow; [| | |done];
      injection Hrow as <-;
      destruct j as [|[|[|j]]]; simpl in Hj; try lia; try done;
      vm_compute; reflexivity.
  - vm_compute. reflexivity.
  - apply elem_of_cons. by left.
Defined.

Lemma NoDup_pairs_concat (sources : list cell) (blocks : list (list Recommendation)) :
  NoDup sources →
  Forall2 (λ src b, Forall (λ rec, source_url rec = src) b ∧
                    NoDup (target_url <$> b)) sources blocks →
  NoDup ((λ rec, (source_url rec, target_url rec)) <$> concat blocks).
Proof.
  intros Hnd Hf2. induction Hf2 as [|src b sources blocks [Hsrc Htgt] Hf2 IH];
    simpl; [constructor|].
  apply NoDup_cons in Hnd as [Hfresh Hnd].
  rewrite fmap_app. apply NoDup_app. split; [|split; [|by apply IH]].
  - apply (NoDup_fmap_1 snd). by rewrite <-list_fmap_compose.
  - intros [s t] Hin Hin'.
    apply list_elem_of_fmap in Hin as (rec & [= -> ->] & Hrec).
    apply list_elem_of_fmap in Hin' as (rec' & [= Hs _] & Hrec').
    rewrite Forall_forall in Hsrc. rewrite (Hsrc rec Hrec) in Hs.
    apply Hfresh. clear IH Hnd Hfresh Hsrc Htgt Hrec.
    apply list_elem_of_In, in_concat in Hrec' as (b' & Hb' & Hrec').
    apply list_elem_of_In in Hb', Hrec'.
    induction Hf2 as [|src' b0 sources blocks [Hsrc' _] Hf2 IH];
      [by apply elem_of_nil in Hb'|].
    apply elem_of_cons in Hb' as [->|Hb'].
    + apply elem_of_cons. left. rewrite Forall_forall in Hsrc'.
      by rewrite Hs, (Hsrc' rec' Hrec').
    + apply elem_of_cons. right. by apply IH.
Qed.

(** No pair of documents is recommended twice: the rows of the table differ
    pairwise in their (source, target) pair. *)
Theorem no_pair_twice `{ExternalsOk} (df : DataFrame) (sim : list (list Qc))
    (top_k : nat) (recs : list Recommendation) :
  "url" ∈ columns df → "title" ∈ columns df →
  has_shape sim (length (rows df)) (length (rows df)) = true →
  NoDup (url_of <$> rows df) →
  build_recommendations df sim top_k = Ok recs →
  NoDup ((λ rec, (source_url rec, target_url rec)) <$> recs).
Proof.
  intros Hurl Htitle Hshape Hnd Hbuild.
  rewrite (build_recommendations_blocks df sim top_k Hurl Htitle Hshape) in Hbuild.
  injection Hbuild as <-.
  apply (NoDup_pairs_concat (url_of <$> rows df)); [done|].
  apply Forall2_same_length_lookup_2; [by rewrite length_fmap, length_imap|].
  intros i src b Hsrc Hb.
  rewrite list_lookup_fmap in Hsrc. rewrite list_lookup_imap in Hb.
  destruct (rows df !! i) as [ri|] eqn:Hri; [|done].
  injection Hsrc as <-. injection Hb as <-.
  split; [apply block_source|].
  pose proof (lookup_lt_Some _ _ _ Hri) as Hi.
  destruct (masked_scores_ok sim _ i Hshape Hi) as (sim_row & Hrow & Hlen & _).
  unfold block. rewrite Hrow. simpl. rewrite <-list_fmap_compose.
  apply NoDup_fmap_2_strong; [|apply top_indices_NoDup].
  intros t t' Ht Ht' Heq. simpl in Heq.
  apply top_indices_elem_of in Ht, Ht'. rewrite length_insert, Hlen in Ht, Ht'.
  destruct (rows df !! t) as [rt|] eqn:Hrt; [|apply lookup_ge_None in Hrt; lia].
  destruct (rows df !! t') as [rt'|] eqn:Hrt'; [|apply lookup_ge_None in Hrt'; lia].
  simpl in Heq.
  eapply NoDup_lookup; [exact Hnd|..]; rewrite list_lookup_fmap.
  - by rewrite Hrt.
  - rewrite Hrt'. simpl. by rewrite Heq.
Qed.

Lemma no_pair_twice_witness :
  NoDup ((λ rec, (source_url rec, target_url rec)) <$> alike_recommendations).
Proof.
  apply (@no_pair_twice toy toy_ok three_alike
           (cosine_similarity_1d [[Q2Qc 1]; [Q2Qc 1]; [Q2Qc 1]]) 2).
  - apply (bool_decide_unpack _). vm_compute. exact I.
  - apply (bool_decide_unpack _). vm_compute. exact I.
  - vm_compute. reflexivity.
  - apply (bool_decide_unpack _). vm_compute. exact I.
  - vm_compute. reflexivity.
Defined.

(** ** C10: which duplicate survives *)

Lemma collect_as_str_inv (cs : list cell) (urls : list string) :
  collect as_str cs = Ok urls → cs = Str <$> urls.
Proof.
  revert urls. induction cs as [|c cs IH]; intros urls; simpl.
  - by intros [= <-].
  - destruct c as [|u]; simpl; [done|].
    destruct (collect as_str cs) as [us|e]; [|done].
    intros [= <-]. simpl. by rewrite (IH us).
Qed.

Lemma load_or_build_calls `{Externals} (texts : list string)
    (signature model_name : string) (w w1 : world) (emb : list (list Qc)) :
  load_or_build_embeddings texts signature model_name w = (Ok emb, w1) →
  model_calls w1 = model_calls w ∨
  model_calls w1 = model_calls w ++ [(model_name, texts)].
Proof.
  intros Hload.
  destruct (cache_valid_or_miss texts signature model_name (embeddings_file w))
    as [(emb0 & Hvalid)|Hmiss].
  - rewrite (load_or_build_of_hit _ _ _ _ _ Hvalid) in Hload.
    injection Hload as _ <-. by left.
  - rewrite (load_or_build_of_miss _ _ _ _ Hmiss) in Hload.
    destruct (encode model_name texts) as [fresh|e]; [|done].
    injection Hload as _ <-. by right.
Qed.

Lemma combine_text_three (r : gmap string cell) (t e k : string) :
  r !! "title" = Some (Str t) → r !! "excerpt" = Some (Str e) →
  r !! "keywords" = Some (Str k) →
  strip t ≠ "" → strip e ≠ "" → strip k ≠ "" →
  combine_text r = (strip t ++ ". " ++ strip e ++ ". " ++ strip k)%string.
Proof.
  intros Ht He Hk Hst Hse Hsk. unfold combine_text, row_get.
  rewrite Ht, He, Hk.
  cbn [from_option id str_or_empty List.filter].
  apply nonempty_true in Hst, Hse, Hsk. rewrite Hst, Hse, Hsk.
  reflexivity.
Qed.

(** C10: of the rows that share a URL the normalizer keeps the first one
    of the input, and that row is the document of the URL in all that
    follows. In a run of [main] that returns, the texts that are signed and
    embedded are the combined texts of the first rows (for a row with a
    title, an excerpt and keywords, these three, stripped and joined), the
    store left behind holds one vector per first row under the signature of
    their URLs and texts, the model is invoked on these texts if at all, and
    the anchor text of every recommendation is the title of the first row of
    the input that has the target URL. *)
Theorem drop_duplicates_keeps_first `{ExternalsOk} (w w' : world) (raw : DataFrame) :
  articles_csv w = Some raw →
  "title" ∈ columns raw →
  main w = (Ok tt, w') →
  ∃ out urls,
    ensure_unique_and_ordered raw = Ok out ∧
    (∀ r, r ∈ rows out ↔
          url_of r ≠ NaN ∧ first_with_url (url_of r) (rows raw) = Some r) ∧
    NoDup (url_of <$> rows out) ∧
    List.map url_of (rows out) = Str <$> urls ∧
    (∀ r t e k, r ∈ rows out →
       r !! "title" = Some (Str t) → r !! "excerpt" = Some (Str e) →
       r !! "keywords" = Some (Str k) →
       strip t ≠ "" → strip e ≠ "" → strip k ≠ "" →
       combine_text r = (strip t ++ ". " ++ strip e ++ ". " ++ strip k)%string) ∧
    ((2 ≤ length (rows out))%nat →
     ∃ emb recs,
       cache_valid (List.map combine_text (rows out))
         (dataset_signature urls (List.map combine_text (rows out)) MODEL_NAME)
         MODEL_NAME (embeddings_file w') emb ∧
       (model_calls w' = model_calls w ∨
        model_calls w'
        = model_calls w ++ [(MODEL_NAME, List.map combine_text (rows out))]) ∧
       recommendations_csv w' = Some recs ∧
       ∀ rec, rec ∈ recs →
         ∃ r, first_with_url (target_url rec) (rows raw) = Some r ∧
              anchor_text rec = cell_at "title" r).
Proof.
  intros Hw Htitle Hmain.
  destruct (main_ok_inv _ _ _ Hmain) as (raw0 & out & Hw0 & Hnorm).
  rewrite Hw in Hw0. injection Hw0 as <-.
  destruct (collect_as_str (rows out) (normalized_no_missing _ _ Hnorm))
    as (urls & Hurls & _).
  pose proof (normalized_columns _ _ Hnorm) as [Hcols Hurl].
  exists out, urls. split; [done|].
  split; [intros r; by apply elem_of_normalized|].
  split; [by eapply normalized_NoDup|].
  split; [by apply collect_as_str_inv|].
  split; [intros r t e k _; apply combine_text_three|].
  intros Hn. rewrite (main_pipeline w raw out Hw Hnorm) in Hmain.
  destruct (load_or_build_embeddings (List.map combine_text (rows out))
              (dataset_signature urls (List.map combine_text (rows out)) MODEL_NAME)
              MODEL_NAME w) as [[emb|e] w1] eqn:Hload.
  - destruct (load_or_build_leaves_valid _ _ _ _ _ _ Hload) as (Hvalid & _ & _).
    assert (length emb = length (rows out)) as Hlen.
    { destruct Hvalid as (d & _ & _ & Hlen & _). by rewrite length_map in Hlen. }
    rewrite (pipeline_large out w w1 urls emb Hn Hurls Hload Hlen) in Hmain.
    destruct (build_recommendations out (cosine_similarity emb) _)
      as [recs|e] eqn:Hbuild; [|done].
    injection Hmain as <-. exists emb, recs. cbn [embeddings_file model_calls
      recommendations_csv].
    split; [done|]. split; [by eapply load_or_build_calls|]. split; [done|].
    intros rec Hrec.
    pose proof (cosine_shape emb) as Hshape. rewrite Hlen in Hshape.
    assert ("url" ∈ columns out) as Hu by (by rewrite Hcols).
    assert ("title" ∈ columns out) as Ht by (by rewrite Hcols).
    destruct (elem_of_build_recommendations out _ _ recs rec Hu Ht Hshape Hbuild Hrec)
      as (i & t & ri & rt & sim_row & _ & Hrt & _ & _ & _ & ->).
    exists rt. split; [|done]. simpl.
    apply list_elem_of_lookup_2 in Hrt.
    by apply (elem_of_normalized _ _ _ Hnorm) in Hrt as [_ ?].
  - by rewrite (pipeline_load_raises out w w1 urls e Hn Hurls Hload) in Hmain.
Qed.

Lemma drop_duplicates_keeps_first_witness :
  ∃ out urls,
    ensure_unique_and_ordered sample_table = Ok out ∧
    (∀ r, r ∈ rows out ↔
          url_of r ≠ NaN ∧ first_with_url (url_of r) (rows sample_table) = Some r) ∧
    NoDup (url_of <$> rows out) ∧
    List.map url_of (rows out) = Str <$> urls ∧
    (∀ r t e k, r ∈ rows out →
       r !! "title" = Some (Str t) → r !! "excerpt" = Some (Str e) →
       r !! "keywords" = Some (Str k) →
       strip t ≠ "" → strip e ≠ "" → strip k ≠ "" →
       combine_text r = (strip t ++ ". " ++ strip e ++ ". " ++ strip k)%string) ∧
    ((2 ≤ length (rows out))%nat →
     ∃ emb recs,
       cache_valid (List.map combine_text (rows out))
         (dataset_signature urls (List.map combine_text (rows out)) MODEL_NAME)
         MODEL_NAME (embeddings_file (@main toy sample_world).2) emb ∧
       (model_calls (@main toy sample_world).2 = model_calls sample_world ∨
        model_calls (@main toy sample_world).2
        = model_calls sample_world ++ [(MODEL_NAME, List.map combine_text (rows out))]) ∧
       recommendations_csv (@main toy sample_world).2 = Some recs ∧
       ∀ rec, rec ∈ recs →
         ∃ r, first_with_url (target_url rec) (rows sample_table) = Some r ∧
              anchor_text rec = cell_at "title" r).
Proof.
  apply (@drop_duplicates_keeps_first toy toy_ok sample_world
           (@main toy sample_world).2 sample_table).
  - reflexivity.
  - apply (bool_decide_unpack _). vm_compute. exact I.
  - vm_compute. reflexivity.
Defined.

(** ** The last-resort rebuild *)

Lemma collect_raise_lookup {A B} (f : A → result B) (l : list A) (i : nat)
    (x : A) (e : exn) :
  l !! i = Some x → f x = Raise e →
  (∀ j y, j < i → l !! j = Some y → ∃ b, f y = Ok b) →
  collect f l = Raise e.
Proof.
  revert i. induction l as [|a l IH]; intros i Hi Hx Hbefore; [done|].
  destruct i as [|i]; simpl in *.
  - injection Hi as ->. by rewrite Hx.
  - destruct (Hbefore 0 a) as [b Hb]; [lia|done|]. rewrite Hb.
    rewrite (IH i Hi Hx); [done|].
    intros j y Hj Hy. apply (Hbefore (S j) y); [lia|done].
Qed.

(** The loop body on a square matrix that has fewer rows than the table has
    documents: it succeeds for the sources inside the matrix. *)
Lemma recommendations_for_inside `{Externals} (df : DataFrame)
    (sim : list (list Qc)) (top_k idx : nat) (source : cell) :
  (∀ v, argsort v ≡ₚ seq 0 (length v)) →
  "url" ∈ columns df → "title" ∈ columns df →
  has_shape sim (length sim) (length sim) = true →
  (length sim ≤ length (rows df))%nat →
  idx < length sim →
  ∃ recs, recommendations_for df sim top_k idx source = Ok recs.
Proof.
  intros Hperm Hurl Htitle Hshape Hle Hidx.
  destruct (masked_scores_ok sim _ idx Hshape Hidx) as (sim_row & Hrow & Hlen & Hmask).
  unfold recommendations_for. rewrite Hmask.
  eexists. apply collect_fmap with
    (g := emitted df (<[idx := sentinel]> sim_row) source).
  intros t Ht. unfold top_indices, last_k in Ht.
  apply elem_of_reverse, subseteq_drop in Ht.
  rewrite Hperm, elem_of_seq, length_insert, Hlen in Ht.
  unfold df_at. rewrite !bool_decide_eq_true_2 by done.
  destruct (rows df !! t) as [row|] eqn:Hr;
    [|apply lookup_ge_None in Hr; lia].
  destruct (<[idx:=sentinel]> sim_row !! t) as [score|] eqn:Hs;
    [|apply lookup_ge_None in Hs; rewrite length_insert in Hs; lia].
  unfold emitted, score_at, url_of. rewrite Hr, Hs. done.
Qed.

(** A model that returns some vectors, but fewer than there are documents:
    [main] sees the shape mismatch, deletes the store and invokes the model
    a second time, stores what it gets, and then fails with an [IndexError]
    at the first document without a row in the matrix. The recommendation
    table is not written. *)
Theorem short_model_output_raises `{Externals} (w : world) (raw out : DataFrame)
    (urls : list string) (emb : list (list Qc)) :
  (∀ v, argsort v ≡ₚ seq 0 (length v)) →
  (∀ e, has_shape (cosine_similarity e) (length e) (length e) = true) →
  articles_csv w = Some raw →
  ensure_unique_and_ordered raw = Ok out →
  "title" ∈ columns raw →
  (2 ≤ length (rows out))%nat →
  collect as_str (List.map url_of (rows out)) = Ok urls →
  cache_miss (List.map combine_text (rows out))
    (dataset_signature urls (List.map combine_text (rows out)) MODEL_NAME)
    MODEL_NAME (embeddings_file w) →
  encode MODEL_NAME (List.map combine_text (rows out)) = Ok emb →
  0 < length emb →
  length emb < length (rows out) →
  main w
  = (Raise IndexError,
     mkWorld (articles_csv w)
       (Some (Pickled (PyDict
          {[ "embeddings" := PyArray emb;
             "signature" := PyStr (dataset_signature urls
                                     (List.map combine_text (rows out)) MODEL_NAME);
             "model" := PyStr MODEL_NAME ]})))
       (recommendations_csv w)
       (model_calls w ++ [(MODEL_NAME, List.map combine_text (rows out))]
                      ++ [(MODEL_NAME, List.map combine_text (rows out))])).
Proof.
  intros Hperm Hcos Hw Hnorm Htitle Hn Hurls Hmiss Henc Hpos Hshort.
  destruct (normalized_columns _ _ Hnorm) as [Hcols Hurl].
  rewrite <-Hcols in Hurl, Htitle.
  rewrite (main_pipeline w raw out Hw Hnorm).
  set (texts := List.map combine_text (rows out)) in *.
  set (sig := dataset_signature urls texts MODEL_NAME) in *.
  assert (length (cosine_similarity emb) = length emb) as Hrows
    by (by eapply has_shape_length).
  assert (has_shape (cosine_similarity emb) (length (rows out)) (length (rows out))
          = false) as Hmismatch.
  { destruct (has_shape _ _ _) eqn:Hs; [|done].
    apply has_shape_length in Hs. lia. }
  assert (build_recommendations out (cosine_similarity emb)
            (max 1 (min TOP_K (length (rows out) - 1))) = Raise IndexError) as Hbuild.
  { unfold build_recommendations.
    destruct (rows out !! length emb) as [r|] eqn:Hr;
      [|apply lookup_ge_None in Hr; lia].
    rewrite (collect_raise_lookup _ _ (length emb) (length emb, url_of r) IndexError);
      [done| | |].
    - by rewrite list_lookup_imap, Hr.
    - simpl. unfold recommendations_for, masked_scores.
      rewrite (proj2 (lookup_ge_None _ _)); [done|lia].
    - intros j [j' src] Hj Hy. rewrite list_lookup_imap in Hy.
      destruct (rows out !! j) as [rj|]; [|done]. injection Hy as <- <-.
      simpl. apply recommendations_for_inside; try done.
      + rewrite Hrows. apply Hcos.
      + lia.
      + lia. }
  unfold pipeline. fold texts. rewrite bool_decide_eq_false_2 by lia.
  unfold bind at 1. unfold lift at 1. rewrite Hurls. fold sig.
  unfold bind at 1. rewrite (load_or_build_of_miss texts sig MODEL_NAME w Hmiss), Henc.
  cbv beta iota. rewrite Hmismatch.
  unfold bind at 1. unfold bind at 1. unfold path_exists at 1.
  cbv beta iota.
  change (bool_decide (is_Some (embeddings_file (rebuilt w texts sig MODEL_NAME emb))))
    with true.
  cbv beta iota. unfold bind at 1.
  unfold remove_embeddings_file, rebuilt at 1 2 3 4 5.
  cbn [embeddings_file articles_csv recommendations_csv model_calls].
  cbv beta iota. unfold bind at 1.
  rewrite (load_or_build_of_miss texts sig MODEL_NAME) by apply miss_absent.
  rewrite Henc. unfold rebuilt, ret.
  cbn [embeddings_file articles_csv recommendations_csv model_calls].
  cbv beta iota. unfold bind at 1. unfold lift at 1. rewrite Hbuild.
  by rewrite <-app_assoc.
Qed.

Lemma short_model_output_raises_witness :
  @main stingy alike_world
  = (Raise IndexError,
     mkWorld (Some three_alike)
       (Some (Pickled (PyDict
          {[ "embeddings" := PyArray [[Q2Qc 1]];
             "signature" := PyStr (dataset_signature ["a"; "b"; "c"]
                                     (List.map combine_text (rows three_alike))
                                     MODEL_NAME);
             "model" := PyStr MODEL_NAME ]})))
       None
       ([] ++ [(MODEL_NAME, List.map combine_text (rows three_alike))]
           ++ [(MODEL_NAME, List.map combine_text (rows three_alike))])).
Proof.
  apply (@short_model_output_raises stingy alike_world three_alike three_alike
           ["a"; "b"; "c"] [[Q2Qc 1]]).
  - apply argsort_stable_perm.
  - apply cosine_similarity_1d_shape.
  - reflexivity.
  - exact three_alike_normalized.
  - apply (bool_decide_unpack _). vm_compute. exact I.
  - simpl. lia.
  - reflexivity.
  - apply miss_absent.
  - reflexivity.
  - simpl. lia.
  - simpl. lia.
Defined.


(** ** A corpus of one document *)

(** When all the rows of the articles file that have a URL have the same
    one, there is a single document: [main] writes a recommendation table
    without rows and returns, the model is not invoked and the embedding store
    is not touched. *)
Theorem single_document_writes_empty_table `{Externals} (w : world)
    (raw : DataFrame) (r0 : gmap string cell) :
  articles_csv w = Some raw →
  "url" ∈ columns raw →
  r0 ∈ rows raw → url_of r0 ≠ NaN →
  (∀ r, r ∈ rows raw → url_of r ≠ NaN → url_of r = url_of r0) →
  main w
  = (Ok tt, mkWorld (articles_csv w) (embeddings_file w) (Some []) (model_calls w)).
Proof.
  intros Hw Hurl Hr0 Hna Hsame.
  destruct (normalizer_total raw Hurl) as [out Hn].
  rewrite (main_pipeline w raw out Hw Hn). apply pipeline_small.
  pose proof (normalized_NoDup _ _ Hn) as Hnd.
  pose proof (normalized_no_missing _ _ Hn) as Hmiss.
  assert (Hsub : ∀ r, r ∈ rows out → url_of r = url_of r0).
  { intros r Hr. apply Hsame; [by apply (normalized_subset _ _ _ Hn)|].
    rewrite Forall_forall in Hmiss. by apply Hmiss. }
  destruct (rows out) as [|r1 [|r2 rest]]; simpl; [lia|lia|].
  exfalso. simpl in Hnd. apply NoDup_cons in Hnd as [Hnotin _].
  apply Hnotin. apply elem_of_cons. left.
  rewrite (Hsub r1), (Hsub r2); [done| |].
  - apply elem_of_cons. right. apply elem_of_cons. by left.
  - apply elem_of_cons. by left.
Qed.

Lemma single_document_writes_empty_table_witness :
  @main toy (mkWorld (Some one_document) None None [])
  = (Ok tt, mkWorld (Some one_document) None (Some []) []).
Proof.
  apply (@single_document_writes_empty_table toy
           (mkWorld (Some one_document) None None []) one_document (doc "a" "Old")).
  - reflexivity.
  - apply (bool_decide_unpack _). vm_compute. exact I.
  - apply elem_of_cons. by left.
  - discriminate.
  - intros r Hr Hna. apply list_elem_of_In in Hr. simpl in Hr.
    destruct Hr as [<-|[<-|[<-|[]]]]; [reflexivity| |reflexivity].
    exfalso. apply Hna. reflexivity.
Defined.

(** * Properties of [visualize_word_network.py] *)

Example clean_url_demo :
  Visualize.clean_url "https://florisera.com/blog/some-post/" = "blog/some-post".
Proof. vm_compute. reflexivity. Qed.

Example threshold_is_near_three_tenths :
  (Q2Qc (3 # 10) - Visualize.threshold = Q2Qc (1 # 90071992547409920))%Qc.
Proof. apply Qc_is_canon. vm_compute. reflexivity. Qed.

(** ** The graph of the visualizer *)

Lemma find_snoc {A} (P : A → bool) (l : list A) (x : A) :
  List.find P (l ++ [x])
  = match List.find P l with
    | Some y => Some y
    | None => if P x then Some x else None
    end.
Proof.
  induction l as [|a l IH]; simpl; [done|]. by destruct (P a).
Qed.

Lemma edges_foldl (df : list Recommendation) (G : Visualize.DiGraph) (s t : string) :
  Visualize.edges (foldl Visualize.add_row G df) !! (s, t)
  = match List.find (qualifies s t) (rev df) with
    | Some row => Some (similarity_score row)
    | None => Visualize.edges G !! (s, t)
    end.
Proof.
  revert G. induction df as [|row df IH]; intros G; simpl; [done|].
  rewrite IH, find_snoc.
  destruct (List.find (qualifies s t) (rev df)) as [row'|]; [done|].
  unfold Visualize.add_row, qualifies.
  destruct (decide (Visualize.threshold ≤ similarity_score row)%Qc) as [Hle|Hlt].
  - simpl. case_bool_decide as Hq.
    + destruct Hq as (<- & <- & _). by rewrite lookup_insert_eq.
    + rewrite lookup_insert_ne; [done|]. intros [= <- <-]. by apply Hq.
  - rewrite bool_decide_eq_false_2; [done|]. by intros (_ & _ & ?).
Qed.

(** The weight of an edge is the score of the last row of the table that
    has the two cleaned URLs as source and target and a score of at least
    [0.3]; there is no edge when there is no such row. *)
Theorem edge_weight_is_last_row (df : list Recommendation) (s t : string) :
  Visualize.edges (Visualize.build_graph df) !! (s, t)
  = similarity_score <$> List.find (qualifies s t) (rev df).
Proof.
  unfold Visualize.build_graph. rewrite edges_foldl.
  by destruct (List.find (qualifies s t) (rev df)).
Qed.

(** Every edge of the graph comes from a row of the table and carries its
    score, which is at least [0.3]: weaker recommendations are not drawn. *)
Theorem edges_at_least_threshold (df : list Recommendation) (s t : string) (w : Qc) :
  Visualize.edges (Visualize.build_graph df) !! (s, t) = Some w →
  (Visualize.threshold ≤ w)%Qc ∧
  ∃ row, row ∈ df ∧ similarity_score row = w ∧
         Visualize.clean_url (Visualize.str (source_url row)) = s ∧
         Visualize.clean_url (Visualize.str (target_url row)) = t.
Proof.
  unfold Visualize.build_graph. rewrite edges_foldl.
  destruct (List.find (qualifies s t) (rev df)) as [row|] eqn:Hf; [|done].
  intros [= <-]. apply find_some in Hf as [Hin Hq].
  unfold qualifies in Hq. apply bool_decide_eq_true in Hq as (Hs & Ht & Hle).
  split; [done|]. exists row. split; [|done].
  apply list_elem_of_In. by apply in_rev.
Qed.

Lemma edges_at_least_threshold_witness :
  (Visualize.threshold ≤ Q2Qc 1)%Qc ∧
  ∃ row, row ∈ alike_recommendations ∧ similarity_score row = Q2Qc 1 ∧
         Visualize.clean_url (Visualize.str (source_url row)) = "a" ∧
         Visualize.clean_url (Visualize.str (target_url row)) = "c".
Proof.
  apply (edges_at_least_threshold alike_recommendations "a" "c" (Q2Qc 1)).
  vm_compute. reflexivity.
Defined.

(** The nodes of the graph are the end points of its edges: a document
    without a recommendation of at least [0.3], in or out, is not drawn. *)
Theorem nodes_are_end_points (df : list Recommendation) (n : string) :
  n ∈ Visualize.nodes (Visualize.build_graph df) ↔
  ∃ m, is_Some (Visualize.edges (Visualize.build_graph df) !! (n, m)) ∨
       is_Some (Visualize.edges (Visualize.build_graph df) !! (m, n)).
Proof.
  unfold Visualize.build_graph.
  induction df as [|row df IH] using rev_ind; simpl.
  - split; [by intros ?%not_elem_of_empty|].
    intros [m [[w Hw]|[w Hw]]]; by rewrite lookup_empty in Hw.
  - rewrite foldl_app. simpl. unfold Visualize.add_row at 1 3 5.
    destruct (decide _); [|exact IH].
    simpl. rewrite !elem_of_union, !elem_of_singleton, IH. split.
    + intros [[->| ->]|[m Hm]].
      * eexists. left. by rewrite lookup_insert_eq.
      * eexists. right. by rewrite lookup_insert_eq.
      * exists m. destruct Hm as [Hm|Hm]; [left|right];
          rewrite lookup_insert; case_decide; eauto.
    + intros [m Hm].
      destruct Hm as [Hm|Hm]; rewrite lookup_insert in Hm;
        case_decide as Heq; try (injection Heq as <- <-); eauto.
Qed.

(** ** The labels of the visualizer *)

Lemma list_ascii_of_string_app (a b : string) :
  list_ascii_of_string (a ++ b)%string
  = list_ascii_of_string a ++ list_ascii_of_string b.
Proof.
  induction a as [|c a IH]; simpl; [done|]. by rewrite IH.
Qed.

Lemma lstrip_chars_head (chars s : list ascii) :
  match Visualize.lstrip_chars chars s with
  | c :: _ => c ∉ chars
  | [] => True
  end.
Proof.
  induction s as [|c s IH]; simpl; [done|].
  case_bool_decide; [exact IH|done].
Qed.

Lemma lstrip_chars_suffix (chars s : list ascii) :
  ∃ pre, s = pre ++ Visualize.lstrip_chars chars s.
Proof.
  induction s as [|c s [pre IH]]; simpl; [by exists []|].
  case_bool_decide; [|by exists []].
  exists (c :: pre). simpl. by rewrite <- IH.
Qed.

Lemma lstrip_chars_id (chars s : list ascii) :
  match s with c :: _ => c ∉ chars | [] => True end →
  Visualize.lstrip_chars chars s = s.
Proof.
  destruct s as [|c s]; simpl; [done|]. intros H. by rewrite bool_decide_eq_false_2.
Qed.

(** A label never begins or ends with a slash, whatever the URL was. *)
Theorem clean_url_no_outer_slash (url : string) :
  (∀ rest, Visualize.clean_url url ≠ ("/" ++ rest)%string) ∧
  (∀ pre, Visualize.clean_url url ≠ (pre ++ "/")%string).
Proof.
  unfold Visualize.clean_url, Visualize.strip_chars.
  set (s := list_ascii_of_string (Visualize.replace url Visualize.SITE "")).
  set (chars := list_ascii_of_string "/").
  set (l1 := Visualize.lstrip_chars chars s).
  set (l2 := Visualize.lstrip_chars chars (rev l1)).
  pose proof (lstrip_chars_head chars s) as H1. fold l1 in H1.
  pose proof (lstrip_chars_head chars (rev l1)) as H2. fold l2 in H2.
  destruct (lstrip_chars_suffix chars (rev l1)) as [pre Hpre]. fold l2 in Hpre.
  assert (Hslash : ("/"%char : ascii) ∈ chars) by (apply list_elem_of_singleton; done).
  split.
  - intros rest Heq.
    apply (f_equal list_ascii_of_string) in Heq.
    rewrite list_ascii_of_string_of_list_ascii in Heq. simpl in Heq.
    apply (f_equal (@rev ascii)) in Heq. rewrite rev_involutive in Heq.
    simpl in Heq. rewrite Heq in Hpre.
    apply (f_equal (@rev ascii)) in Hpre. rewrite rev_involutive in Hpre.
    rewrite rev_app_distr, rev_app_distr, rev_involutive in Hpre. simpl in Hpre.
    rewrite Hpre in H1. by apply H1.
  - intros pre' Heq.
    apply (f_equal list_ascii_of_string) in Heq.
    rewrite list_ascii_of_string_of_list_ascii, list_ascii_of_string_app in Heq.
    simpl in Heq.
    apply (f_equal (@rev ascii)) in Heq. rewrite rev_involutive in Heq.
    rewrite rev_app_distr in Heq. simpl in Heq.
    rewrite Heq in H2. by apply H2.
Qed.

Lemma drop_prefix_app (p s : list ascii) :
  Visualize.drop_prefix p (p ++ s) = Some s.
Proof.
  induction p as [|a p IH]; simpl; [done|]. by rewrite bool_decide_eq_true_2.
Qed.

Lemma drop_prefix_Some (p s r : list ascii) :
  Visualize.drop_prefix p s = Some r → s = p ++ r.
Proof.
  revert s. induction p as [|a p IH]; intros [|b s]; simpl; try done.
  - by intros [= ->].
  - by intros [= ->].
  - case_bool_decide; [|done]. subst. intros H. by rewrite (IH _ H).
Qed.

Lemma replace_from_absent (c : ascii) (old s : list ascii) (fuel : nat) :
  c ∈ old → (c ∉ s) → Visualize.replace_from fuel old [] s = s.
Proof.
  intros Hc. revert s. induction fuel as [|fuel IH]; intros s Hs; simpl; [done|].
  destruct (Visualize.drop_prefix old s) as [r|] eqn:Hd.
  - apply drop_prefix_Some in Hd. subst s. exfalso. apply Hs.
    apply elem_of_app. by left.
  - destruct s as [|b s]; [done|]. f_equal. apply IH.
    intros ?. apply Hs. by apply elem_of_cons; right.
Qed.

Lemma string_length_list (s : string) :
  String.length s = length (list_ascii_of_string s).
Proof.
  induction s as [|c s IH]; simpl; [done|]. by rewrite IH.
Qed.

Lemma replace_from_leading (c : ascii) (old rest : list ascii) :
  c ∈ old → (c ∉ rest) →
  Visualize.replace_from (length (old ++ rest)) old [] (old ++ rest) = rest.
Proof.
  intros Hc Hrest. destruct old as [|a old]; [by apply not_elem_of_nil in Hc|].
  change (length ((a :: old) ++ rest)) with (S (length (old ++ rest))).
  cbn [Visualize.replace_from]. rewrite drop_prefix_app.
  by apply (replace_from_absent c).
Qed.

Lemma strip_chars_list (ch : ascii) (sl tail : list ascii) :
  match sl with c :: _ => c ∉ [ch] | [] => True end →
  match rev sl with c :: _ => c ∉ [ch] | [] => True end →
  tail = [] ∨ tail = [ch] →
  rev (Visualize.lstrip_chars [ch] (rev (Visualize.lstrip_chars [ch] (sl ++ tail))))
  = sl.
Proof.
  intros Hh Hl Ht. destruct sl as [|c sl'].
  - destruct Ht as [-> | ->]; cbn [app Visualize.lstrip_chars]; [done|].
    by rewrite bool_decide_eq_true_2 by (by apply list_elem_of_singleton).
  - rewrite (lstrip_chars_id _ ((c :: sl') ++ tail)) by exact Hh.
    rewrite rev_app_distr.
    set (r := rev (c :: sl')) in *.
    assert (Hr : rev r = c :: sl') by apply rev_involutive.
    clearbody r.
    destruct Ht as [-> | ->]; cbn [rev app Visualize.lstrip_chars].
    + by rewrite lstrip_chars_id by exact Hl.
    + rewrite bool_decide_eq_true_2 by (by apply list_elem_of_singleton).
      by rewrite lstrip_chars_id by exact Hl.
Qed.

Lemma string_of_list_ascii_app (a b : list ascii) :
  string_of_list_ascii (a ++ b)
  = (string_of_list_ascii a ++ string_of_list_ascii b)%string.
Proof.
  induction a as [|c a IH]; simpl; [done|]. by rewrite IH.
Qed.

(** The label of a page of the site is its path: the address of the site
    in front and the slash behind are taken off and nothing else is touched,
    for a path that holds no colon and has no slash at either end. *)
Theorem clean_url_of_site_page (slug : string) :
  (":"%char ∉ list_ascii_of_string slug) →
  (∀ rest, slug ≠ ("/" ++ rest)%string) →
  (∀ pre, slug ≠ (pre ++ "/")%string) →
  Visualize.clean_url (Visualize.SITE ++ slug ++ "/") = slug ∧
  Visualize.clean_url (Visualize.SITE ++ slug) = slug ∧
  Visualize.clean_url slug = slug.
Proof.
  intros Hcolon Hhead Hlast.
  assert (Hin : (":"%char : ascii) ∈ list_ascii_of_string Visualize.SITE).
  { apply (bool_decide_unpack _). vm_compute. exact I. }
  assert (Hh : match list_ascii_of_string slug with
               | c :: _ => c ∉ ["/"%char] | [] => True end).
  { destruct slug as [|c rest]; simpl; [done|].
    intros ->%list_elem_of_singleton. by apply (Hhead rest). }
  assert (Hl : match rev (list_ascii_of_string slug) with
               | c :: _ => c ∉ ["/"%char] | [] => True end).
  { destruct (rev (list_ascii_of_string slug)) as [|c r] eqn:Hr; [done|].
    intros ->%list_elem_of_singleton.
    apply (f_equal (@rev ascii)) in Hr. rewrite rev_involutive in Hr.
    apply (Hlast (string_of_list_ascii (rev r))).
    rewrite <- (string_of_list_ascii_of_string slug) at 1. rewrite Hr.
    cbn [rev]. by rewrite string_of_list_ascii_app. }
  assert (Hstrip : ∀ tail, tail = [] ∨ tail = ["/"%char] →
    Visualize.strip_chars
      (string_of_list_ascii (list_ascii_of_string slug ++ tail)) "/" = slug).
  { intros tail Ht. unfold Visualize.strip_chars.
    rewrite list_ascii_of_string_of_list_ascii.
    change (list_ascii_of_string "/") with ["/"%char].
    rewrite strip_chars_list by done.
    apply string_of_list_ascii_of_string. }
  assert (Hslash : (":"%char : ascii) ∉ ["/"%char]).
  { intros H%list_elem_of_singleton. discriminate H. }
  unfold Visualize.clean_url, Visualize.replace.
  rewrite !string_length_list, !list_ascii_of_string_app.
  change (list_ascii_of_string "") with (@nil ascii).
  change (list_ascii_of_string "/") with ["/"%char].
  split; [|split].
  - rewrite (replace_from_leading ":"%char); [by apply Hstrip; right|done|].
    intros [?|?]%elem_of_app; [by apply Hcolon|by apply Hslash].
  - rewrite (replace_from_leading ":"%char) by done.
    rewrite <- (app_nil_r (list_ascii_of_string slug)). by apply Hstrip; left.
  - rewrite (replace_from_absent ":"%char) by done.
    rewrite <- (app_nil_r (list_ascii_of_string slug)). by apply Hstrip; left.
Qed.

Lemma clean_url_of_site_page_witness :
  Visualize.clean_url (Visualize.SITE ++ "blog/some-post" ++ "/") = "blog/some-post" ∧
  Visualize.clean_url (Visualize.SITE ++ "blog/some-post") = "blog/some-post" ∧
  Visualize.clean_url "blog/some-post" = "blog/some-post".
Proof.
  apply (clean_url_of_site_page "blog/some-post").
  - apply (bool_decide_unpack _). vm_compute. exact I.
  - intros rest H. discriminate H.
  - intros pre H. apply (f_equal list_ascii_of_string) in H.
    rewrite list_ascii_of_string_app in H.
    apply (f_equal (@rev ascii)) in H. rewrite rev_app_distr in H.
    simpl in H. discriminate H.
Defined.


(** * Properties of [crawling.py] *)

(** ** The progress file of the crawler *)

Lemma zip_dict_notin (fieldnames row : list string) (d : gmap string (option string))
  (k : string) :
  (k ∉ fieldnames) → Crawling.zip_dict fieldnames row d !! k = d !! k.
Proof.
  revert row d. induction fieldnames as [|k0 ks IH]; intros row d Hk.
  - by destruct row.
  - apply not_elem_of_cons in Hk as [Hne Hk].
    destruct row as [|v row]; simpl; rewrite IH by done;
      by rewrite lookup_insert_ne.
Qed.

Lemma zip_dict_lookup (fieldnames row : list string) (d : gmap string (option string))
  (i : nat) (k : string) :
  NoDup fieldnames → fieldnames !! i = Some k →
  Crawling.zip_dict fieldnames row d !! k = Some (row !! i).
Proof.
  revert row d i. induction fieldnames as [|k0 ks IH]; intros row d i Hnd Hi.
  - done.
  - apply NoDup_cons in Hnd as [Hk0 Hnd]. destruct i as [|i]; simpl in Hi.
    + injection Hi as ->.
      destruct row as [|v row]; simpl; rewrite zip_dict_notin by done;
        by rewrite lookup_insert_eq.
    + destruct row as [|v row]; simpl.
      * by rewrite (IH [] _ i).
      * by rewrite (IH row _ i).
Qed.

Lemma processed_set_ok (rows : list (gmap string (option string)))
  (acc : gset (option string)) :
  Forall (fun row => is_Some (row !! "url")) rows →
  ∃ S, Crawling.processed_set rows acc = Crawling.Ok S ∧
       ∀ u, u ∈ S ↔ u ∈ acc ∨
         ∃ row, row ∈ rows ∧ row !! "processed" = Some (Some "1") ∧
                row !! "url" = Some u.
Proof.
  revert acc. induction rows as [|row rows IH]; intros acc Hall; simpl.
  - exists acc. split; [done|]. intros u. split; [by left|].
    intros [?|(row & Hin & _)]; [done|]. by apply not_elem_of_nil in Hin.
  - apply Forall_cons in Hall as [[u0 Hu0] Hall].
    case_bool_decide as Hp.
    + rewrite Hu0. destruct (IH ({[u0]} ∪ acc) Hall) as (S & -> & HS).
      exists S. split; [done|]. intros u. rewrite HS. split.
      * intros [[->%elem_of_singleton|?]%elem_of_union|(row' & Hin & Hr)].
        -- right. exists row. split; [by apply elem_of_cons; left|done].
        -- by left.
        -- right. exists row'. split; [by apply elem_of_cons; right|done].
      * intros [?|(row' & [->|Hin]%elem_of_cons & Hp' & Hu')].
        -- left. apply elem_of_union. by right.
        -- left. apply elem_of_union. left. apply elem_of_singleton. congruence.
        -- right. by exists row'.
    + destruct (IH acc Hall) as (S & -> & HS).
      exists S. split; [done|]. intros u. rewrite HS. split.
      * intros [?|(row' & Hin & Hr)]; [by left|].
        right. exists row'. split; [by apply elem_of_cons; right|done].
      * intros [?|(row' & [->|Hin]%elem_of_cons & Hp' & Hu')]; [by left|done|].
        right. by exists row'.
Qed.

Lemma processed_set_raises (rows : list (gmap string (option string)))
  (acc : gset (option string)) :
  Forall (fun row => row !! "url" = None) rows →
  Crawling.processed_set rows acc
  = if bool_decide (Exists (fun row => row !! "processed" = Some (Some "1")) rows)
    then Crawling.Raise (Crawling.KeyError "url")
    else Crawling.Ok acc.
Proof.
  induction 1 as [|row rows Hu Hall IH]; cbn [Crawling.processed_set].
  - rewrite bool_decide_eq_false_2; [done|]. by intros ?%Exists_nil.
  - destruct (decide (row !! "processed" = Some (Some "1"))) as [Hp|Hp].
    + rewrite (bool_decide_eq_true_2 _ Hp), Hu.
      rewrite bool_decide_eq_true_2; [done|]. by left.
    + rewrite (bool_decide_eq_false_2 _ Hp), IH. apply (f_equal (fun b : bool => if b then _ else _)).
      apply bool_decide_ext. rewrite Exists_cons. tauto.
Qed.

(** The rows read from records whose header has no repeated name, [url] in
    column [i] and [processed] in column [j]. *)
Lemma processed_by_columns (fieldnames : list string) (rows : list (list string))
  (i j : nat) :
  NoDup fieldnames →
  fieldnames !! i = Some "url" →
  fieldnames !! j = Some "processed" →
  ∃ S, Crawling.processed_set (Crawling.DictReader (fieldnames :: rows)) ∅
       = Crawling.Ok S ∧
       ∀ u, u ∈ S ↔ ∃ row, row ∈ rows ∧ row !! j = Some "1" ∧ row !! i = u.
Proof.
  intros Hnd Hi Hj. simpl.
  destruct (processed_set_ok
    (List.map (Crawling.row_dict fieldnames)
       (List.filter (fun r => negb (Crawling.blank r)) rows)) ∅) as (S & -> & HS).
  { apply Forall_forall. intros d (row & <- & _)%list_elem_of_In%in_map_iff.
    unfold Crawling.row_dict. by rewrite (zip_dict_lookup _ _ _ i). }
  exists S. split; [done|]. intros u. rewrite HS. split.
  - intros [?%not_elem_of_empty|(d & Hin & Hp & Hu)]; [done|].
    apply list_elem_of_In, in_map_iff in Hin as (row & <- & Hin).
    apply List.filter_In in Hin as [Hin _].
    unfold Crawling.row_dict in Hp, Hu.
    rewrite (zip_dict_lookup _ _ _ j) in Hp by done.
    rewrite (zip_dict_lookup _ _ _ i) in Hu by done.
    exists row. split; [by apply list_elem_of_In|]. split; congruence.
  - intros (row & Hin & Hp & Hu). right.
    exists (Crawling.row_dict fieldnames row). split; [|split].
    + apply list_elem_of_In, in_map_iff. exists row. split; [done|].
      apply List.filter_In. split; [by apply list_elem_of_In|].
      by destruct row.
    + unfold Crawling.row_dict. rewrite (zip_dict_lookup _ _ _ j) by done.
      by rewrite Hp.
    + unfold Crawling.row_dict. rewrite (zip_dict_lookup _ _ _ i) by done.
      by rewrite Hu.
Qed.



(** A URL counts as processed exactly when a record of the file has it in
    the column [url] and [1] in the column [processed], wherever the header
    puts the two columns; a record too short for the column [url] counts as
    the URL [None]. The file is left as it is. *)
Theorem processed_urls_by_columns (w : Crawling.world) (fieldnames : list string)
  (rows : list (list string)) (i j : nat) :
  Crawling.csv_file w = Some (fieldnames :: rows) →
  NoDup fieldnames →
  fieldnames !! i = Some "url" →
  fieldnames !! j = Some "processed" →
  ∃ S, Crawling.load_processed_urls w = (Crawling.Ok S, w) ∧
       ∀ u, u ∈ S ↔ ∃ row, row ∈ rows ∧ row !! j = Some "1" ∧ row !! i = u.
Proof.
  intros Hfile Hnd Hi Hj.
  destruct (processed_by_columns fieldnames rows i j Hnd Hi Hj) as (S & HS & Hiff).
  exists S. split; [|exact Hiff].
  unfold Crawling.load_processed_urls. rewrite Hfile. by rewrite HS.
Qed.

Lemma processed_urls_by_columns_witness :
  ∃ S, Crawling.load_processed_urls half_done = (Crawling.Ok S, half_done) ∧
       ∀ u, u ∈ S ↔
         ∃ row, row ∈ [ ["https://florisera.com/a/"; "A"; "a"; "a"; "k"; "Posts"; "1"];
                        ["https://florisera.com/b/"; "B"; "b"; "b"; "k"; "Posts"; "0"] ] ∧
                row !! 6%nat = Some "1" ∧ row !! 0%nat = u.
Proof.
  apply (processed_urls_by_columns half_done Crawling.CSV_COLUMNS _ 0 6).
  - reflexivity.
  - apply (bool_decide_unpack _). vm_compute. exact I.
  - reflexivity.
  - reflexivity.
Defined.

(** Without a column [url] the reading ends in [KeyError] as soon as one
    record is marked as processed, and gives the empty set otherwise. *)
Theorem load_without_url_column (w : Crawling.world) (fieldnames : list string)
  (rows : list (list string)) :
  Crawling.csv_file w = Some (fieldnames :: rows) →
  ("url" ∉ fieldnames) →
  Crawling.load_processed_urls w
  = (if bool_decide (Exists (fun row =>
         Crawling.row_dict fieldnames row !! "processed" = Some (Some "1")) rows)
     then Crawling.Raise (Crawling.KeyError "url")
     else Crawling.Ok ∅, w).
Proof.
  intros Hfile Hurl. unfold Crawling.load_processed_urls. rewrite Hfile. simpl.
  rewrite processed_set_raises.
  - f_equal. apply (f_equal (fun b : bool => if b then _ else _)).
    apply bool_decide_ext. rewrite !Exists_exists. split.
    + intros (d & (row & <- & Hin)%list_elem_of_In%in_map_iff & Hp).
      apply List.filter_In in Hin as [Hin _].
      exists row. split; [by apply list_elem_of_In|done].
    + intros (row & Hin & Hp). exists (Crawling.row_dict fieldnames row).
      split; [|done]. apply list_elem_of_In, in_map_iff. exists row.
      split; [done|]. apply List.filter_In. split; [by apply list_elem_of_In|].
      destruct row; [|done]. exfalso. clear -Hp Hurl.
      unfold Crawling.row_dict in Hp.
      assert (∀ d, (∀ k v, d !! k = Some (Some v) → False) →
                Crawling.zip_dict fieldnames [] d !! "processed" = Some (Some "1") →
                False) as Hnone.
      { clear. induction fieldnames as [|k ks IH]; intros d Hd; simpl.
        - apply Hd.
        - apply IH. intros k' v. destruct (decide (k = k')) as [->|].
          + by rewrite lookup_insert_eq.
          + rewrite lookup_insert_ne by done. apply Hd. }
      apply (Hnone ∅); [|done]. intros k v. by rewrite lookup_empty.
  - apply Forall_forall. intros d (row & <- & _)%list_elem_of_In%in_map_iff.
    unfold Crawling.row_dict. by rewrite zip_dict_notin.
Qed.

Lemma load_without_url_column_witness :
  Crawling.load_processed_urls foreign_file
  = (if bool_decide (Exists (fun row =>
         Crawling.row_dict ["link"; "processed"] row !! "processed"
         = Some (Some "1")) [ ["x"; "0"]; ["y"; "1"] ])
     then Crawling.Raise (Crawling.KeyError "url")
     else Crawling.Ok ∅, foreign_file).
Proof.
  apply (load_without_url_column foreign_file ["link"; "processed"]).
  - reflexivity.
  - apply (bool_decide_unpack _). vm_compute. exact I.
Defined.

Lemma extended_trans (file file1 file' : option (list (list string)))
    (a b : list (list string)) :
  extended file file1 a → extended file1 file' b → extended file file' (a ++ b).
Proof.
  intros [[-> ->] | ->] [[-> ->] | ->].
  - by left.
  - by right.
  - right. by rewrite app_nil_r.
  - right. simpl. by rewrite <- app_assoc.
Qed.


Lemma dict_to_list_ok (article : gmap string string) :
  dom article ⊆ list_to_set Crawling.CSV_COLUMNS →
  Crawling.dict_to_list article
  = Crawling.Ok (List.map (fun key => default "" (article !! key))
                   Crawling.CSV_COLUMNS).
Proof.
  intros Hdom. unfold Crawling.dict_to_list.
  rewrite decide_True; [done|]. by apply subseteq_empty_difference_L.
Qed.

Lemma processed_is_column : "processed" ∈ Crawling.CSV_COLUMNS.
Proof. apply (bool_decide_unpack _). vm_compute. exact I. Qed.

(** The record written for a dict. *)
Lemma written_fields (article : gmap string string) (p : string) :
  surrogate_free p →
  encodable article →
  Forall surrogate_free
    (List.map (fun key => default "" (<["processed" := p]> article !! key))
       Crawling.CSV_COLUMNS).
Proof.
  intros Hp Henc. apply Forall_forall.
  intros field (key & <- & _)%list_elem_of_In%in_map_iff.
  destruct (decide (key = "processed")) as [->|Hne].
  - by rewrite lookup_insert_eq.
  - rewrite lookup_insert_ne by done.
    destruct (article !! key) as [v|] eqn:Hv; [|done].
    by apply (Henc key v Hv).
Qed.


Lemma forallb_surrogate_free (row : list string) :
  forallb (fun field => bool_decide (surrogate_free field)) row = true
  ↔ Forall surrogate_free row.
Proof.
  rewrite forallb_forall, Forall_forall. split.
  - intros Hall x Hx. apply (bool_decide_eq_true_1 _). by apply Hall, list_elem_of_In.
  - intros Hall x Hx. apply bool_decide_eq_true_2. by apply Hall, list_elem_of_In.
Qed.


(** ** Saving a record *)



(** A dict with a key that is no column is refused with [ValueError] and no
    record is written; the header is written all the same when the file was
    absent. *)
Theorem save_rejects_unknown_field (article : gmap string string)
  (processed : bool) (w : Crawling.world) (k : string) :
  is_Some (article !! k) →
  (k ∉ Crawling.CSV_COLUMNS) →
  ∃ w',
    Crawling.save_article_metadata article processed w
    = (Crawling.Raise
         (Crawling.ValueError (dom article ∖ list_to_set Crawling.CSV_COLUMNS)), w') ∧
    Crawling.csv_file w'
    = Some (default [Crawling.CSV_COLUMNS] (Crawling.csv_file w)) ∧
    Crawling.requests w' = Crawling.requests w.
Proof.
  intros Hk Hcol. unfold Crawling.save_article_metadata, Crawling.dict_to_list.
  set (p := if processed then "1" else "0").
  assert (Hdom : dom (<["processed" := p]> article)
                   ∖ list_to_set Crawling.CSV_COLUMNS
                 = dom article ∖ (list_to_set Crawling.CSV_COLUMNS : gset string)).
  { rewrite dom_insert_L. pose proof processed_is_column as Hp.
    apply (elem_of_list_to_set (C := gset string)) in Hp.
    apply set_eq. intros x.
    rewrite !elem_of_difference, elem_of_union, elem_of_singleton. split.
    - by intros [[->|?] ?].
    - intros [? ?]. split; [by right|done]. }
  rewrite Hdom. rewrite decide_False.
  - eexists. split; [reflexivity|]. simpl. by destruct (Crawling.csv_file w).
  - intros Hempty.
    assert (k ∈ dom article ∖ (list_to_set Crawling.CSV_COLUMNS : gset string)) as Hin.
    { apply elem_of_difference. split; [by apply elem_of_dom|].
      by rewrite elem_of_list_to_set. }
    rewrite Hempty in Hin. by apply not_elem_of_empty in Hin.
Qed.

Lemma save_rejects_unknown_field_witness :
  ∃ w',
    Crawling.save_article_metadata {[ "url" := "u"; "author" := "x" ]} true
      (Crawling.mkWorld None [])
    = (Crawling.Raise
         (Crawling.ValueError
            (dom ({[ "url" := "u"; "author" := "x" ]} : gmap string string)
               ∖ list_to_set Crawling.CSV_COLUMNS)), w') ∧
    Crawling.csv_file w'
    = Some (default [Crawling.CSV_COLUMNS]
              (Crawling.csv_file (Crawling.mkWorld None []))) ∧
    Crawling.requests w' = Crawling.requests (Crawling.mkWorld None []).
Proof.
  apply (save_rejects_unknown_field {[ "url" := "u"; "author" := "x" ]} true
           (Crawling.mkWorld None []) "author").
  - apply (bool_decide_unpack _). vm_compute. exact I.
  - apply (bool_decide_unpack _). vm_compute. exact I.
Defined.

(** ** One run of the crawler *)

Lemma extract_then_row `{Crawling.Web} (html u : string)
  (metadata : gmap string string) :
  Crawling.extract_metadata_from_html html u = Crawling.Ok metadata →
  ∃ row, Crawling.dict_to_list (<["processed" := "1"]> metadata) = Crawling.Ok row ∧
         length row = 7%nat ∧ row !! 0%nat = Some u ∧ row !! 6%nat = Some "1" ∧
         (map_Forall (fun _ field => surrogate_free field) metadata →
          Forall surrogate_free row).
Proof.
  unfold Crawling.extract_metadata_from_html.
  destruct (Crawling.page_fields html) as [page|e]; [|done].
  intros [= <-]. rewrite dict_to_list_ok.
  - eexists. split; [reflexivity|]. split; [done|]. split; [done|].
    split; [done|]. intros Hfree. apply written_fields; [done|].
    intros key field Hfield _. by apply (Hfree key field).
  - rewrite !dom_insert_L, dom_empty_L.
    intros k Hk. apply elem_of_list_to_set.
    apply (bool_decide_unpack _).
    repeat (apply elem_of_union in Hk as [Hk|Hk];
            [apply elem_of_singleton in Hk as ->; vm_compute; exact I|]).
    by apply not_elem_of_empty in Hk.
Qed.

Lemma process_spec `{Crawling.Web} (url : option string) (w : Crawling.world) :
  ∃ w' new,
    Crawling.process url w = (Crawling.Ok tt, w') ∧
    Crawling.requests w' = Crawling.requests w ++ omap id [url] ∧
    extended (Crawling.csv_file w) (Crawling.csv_file w') new ∧
    Forall (fun row => ∃ u, url = Some u ∧ saved_for u row) new ∧
    (healthy [url] → omap (fun row => row !! 0%nat) new = omap id [url]).
Proof.
  destruct w as [file log]. destruct url as [u|].
  - unfold Crawling.process, Crawling.try_except, Crawling.bind,
      Crawling.requests_get, Crawling.lift. cbn [Crawling.requests Crawling.csv_file].
    destruct (Crawling.get log u) as [resp|e] eqn:Hget.
    + destruct (Crawling.raise_for_status resp) as [[]|e] eqn:Hstatus.
      * destruct (Crawling.extract_metadata_from_html (Crawling.text resp) u)
          as [metadata|e] eqn:Hextract.
        -- destruct (extract_then_row _ _ _ Hextract)
             as (row & Hrow & Hlen & H0 & H6 & Hfree).
           unfold Crawling.save_article_metadata.
           cbn [Crawling.requests Crawling.csv_file]. rewrite Hrow.
           destruct (forallb _ row) eqn:Hall.
           ++ apply forallb_surrogate_free in Hall.
              eexists _, [row]. split; [reflexivity|]. split; [done|].
              split; [right; by destruct file|]. split.
              ** apply Forall_singleton. by exists u.
              ** intros _. simpl. by rewrite H0.
           ++ eexists _, []. split; [reflexivity|]. split; [done|].
              split; [right; rewrite app_nil_r; by destruct file|].
              split; [done|]. intros Hh. exfalso.
              destruct (Hh log u) as (resp' & metadata' & Hg & _ & He & Hf);
                [by apply list_elem_of_singleton|].
              rewrite Hget in Hg. injection Hg as <-.
              rewrite Hextract in He. injection He as <-.
              apply Hfree, forallb_surrogate_free in Hf. congruence.
        -- eexists _, []. split; [reflexivity|]. split; [done|].
           split; [by left|].
           split; [done|]. intros Hh. exfalso.
           destruct (Hh log u) as (resp' & metadata' & Hg & _ & He & _);
             [by apply list_elem_of_singleton|].
           rewrite Hget in Hg. injection Hg as <-. congruence.
      * eexists _, []. split; [reflexivity|]. split; [done|]. split; [by left|].
        split; [done|]. intros Hh. exfalso.
        destruct (Hh log u) as (resp' & metadata' & Hg & Hs & _);
          [by apply list_elem_of_singleton|].
        rewrite Hget in Hg. injection Hg as <-. congruence.
    + eexists _, []. split; [reflexivity|]. split; [done|]. split; [by left|].
      split; [done|]. intros Hh. exfalso.
      destruct (Hh log u) as (resp' & metadata' & Hg & _);
        [by apply list_elem_of_singleton|].
      congruence.
  - exists (Crawling.mkWorld file log), []. split; [reflexivity|].
    split; [by rewrite app_nil_r|]. split; [by left|]. split; [done|]. done.
Qed.

Lemma healthy_mono `{Crawling.Web} (us vs : list (option string)) :
  (∀ u, u ∈ us → u ∈ vs) → healthy vs → healthy us.
Proof. intros Hsub Hh history u Hu. apply Hh. by apply Hsub. Qed.

Lemma for_each_process `{Crawling.Web} (us : list (option string))
  (w : Crawling.world) :
  ∃ w' new,
    Crawling.for_each us Crawling.process w = (Crawling.Ok tt, w') ∧
    Crawling.requests w' = Crawling.requests w ++ omap id us ∧
    extended (Crawling.csv_file w) (Crawling.csv_file w') new ∧
    Forall (fun row => ∃ u, Some u ∈ us ∧ saved_for u row) new ∧
    (healthy us → omap (fun row => row !! 0%nat) new = omap id us).
Proof.
  revert w. induction us as [|url us IH]; intros w.
  - exists w, []. split; [done|]. split; [by rewrite app_nil_r|].
    split; [by left|]. done.
  - destruct (process_spec url w) as (w1 & new1 & Hp & Hlog1 & Hfile1 & Hall1 & Hh1).
    destruct (IH w1) as (w' & new & Hf & Hlog & Hfile & Hall & Hh).
    exists w', (new1 ++ new). split; [|split; [|split; [|split]]].
    + cbn [Crawling.for_each]. unfold Crawling.bind at 1. by rewrite Hp.
    + rewrite Hlog, Hlog1, <- app_assoc. f_equal.
      change (url :: us) with ([url] ++ us). by rewrite omap_app.
    + by eapply extended_trans.
    + apply Forall_app. split.
      * eapply Forall_impl; [exact Hall1|]. intros row (u & -> & Hs).
        exists u. split; [by apply elem_of_cons; left|done].
      * eapply Forall_impl; [exact Hall|]. intros row (u & Hin & Hs).
        exists u. split; [by apply elem_of_cons; right|done].
    + intros Hhealthy. rewrite omap_app.
      change (url :: us) with ([url] ++ us). rewrite (omap_app _ [url]).
      rewrite Hh1, Hh; [done| |].
      * eapply healthy_mono; [|exact Hhealthy].
        intros u Hu. by apply elem_of_cons; right.
      * eapply healthy_mono; [|exact Hhealthy].
        intros u ->%list_elem_of_singleton. by apply elem_of_cons; left.
Qed.

Lemma load_keeps (w : Crawling.world) :
  (Crawling.load_processed_urls w).2 = w.
Proof. unfold Crawling.load_processed_urls. by destruct (Crawling.csv_file w). Qed.

Lemma fetch_sitemap_spec `{Crawling.Web} (w : Crawling.world) :
  Crawling.csv_file (Crawling.fetch_sitemap_urls w).2 = Crawling.csv_file w ∧
  Crawling.requests (Crawling.fetch_sitemap_urls w).2
  = Crawling.requests w ++ [Crawling.SITEMAP_URL].
Proof.
  unfold Crawling.fetch_sitemap_urls, Crawling.bind, Crawling.requests_get,
    Crawling.lift.
  destruct (Crawling.get (Crawling.requests w) Crawling.SITEMAP_URL) as [resp|e];
    [|done].
  destruct (Crawling.raise_for_status resp) as [[]|e]; [|done].
  by destruct (Crawling.sitemap_locs (Crawling.content resp)).
Qed.

Lemma elem_of_batch (S : gset (option string)) (urls : list (option string))
  (u : option string) :
  u ∈ batch S urls → (u ∉ S) ∧ u ∈ urls.
Proof.
  unfold batch. intros Hin%elem_of_take.
  destruct Hin as (i & Hi & _). apply list_elem_of_lookup_2 in Hi.
  apply list_elem_of_In, List.filter_In in Hi as [Hin Hb].
  split; [by apply bool_decide_eq_true in Hb|by apply list_elem_of_In].
Qed.

Lemma main_load_raises `{Crawling.Web} (w : Crawling.world) (e : Crawling.exn) :
  Crawling.load_processed_urls w = (Crawling.Raise e, w) →
  Crawling.main w = (Crawling.Raise e, w).
Proof.
  intros Hload. unfold Crawling.main, Crawling.bind at 1. by rewrite Hload.
Qed.

Lemma main_fetch_raises `{Crawling.Web} (w w1 : Crawling.world)
  (S : gset (option string)) (e : Crawling.exn) :
  Crawling.load_processed_urls w = (Crawling.Ok S, w) →
  Crawling.fetch_sitemap_urls w = (Crawling.Raise e, w1) →
  Crawling.main w = (Crawling.Raise e, w1).
Proof.
  intros Hload Hfetch. unfold Crawling.main, Crawling.bind at 1. rewrite Hload.
  unfold Crawling.bind at 1. by rewrite Hfetch.
Qed.

Lemma main_run `{Crawling.Web} (w w1 : Crawling.world)
  (S : gset (option string)) (urls : list (option string)) :
  Crawling.load_processed_urls w = (Crawling.Ok S, w) →
  Crawling.fetch_sitemap_urls w = (Crawling.Ok urls, w1) →
  Crawling.main w = Crawling.for_each (batch S urls) Crawling.process w1.
Proof.
  intros Hload Hfetch. unfold Crawling.main, Crawling.bind at 1. rewrite Hload.
  unfold Crawling.bind at 1. rewrite Hfetch. unfold batch.
  by destruct (List.filter (fun u => bool_decide (u ∉ S)) urls).
Qed.

Lemma length_omap_le {A B} (f : A → option B) (l : list A) :
  (length (omap f l) ≤ length l)%nat.
Proof.
  induction l as [|a l IH]; csimpl; [done|]. destruct (f a); simpl; lia.
Qed.

(** [main] asks for the sitemap and then, in the order of the sitemap, for
    the first [BATCH_SIZE] of its URLs that are not processed yet, and for
    nothing else. A page that cannot be fetched, parsed or saved does not end
    the run: the loop goes on with the next URL and [main] returns. *)
Theorem main_requests `{Crawling.Web} (w w1 : Crawling.world)
  (S : gset (option string)) (urls : list (option string)) :
  Crawling.load_processed_urls w = (Crawling.Ok S, w) →
  Crawling.fetch_sitemap_urls w = (Crawling.Ok urls, w1) →
  ∃ w',
    Crawling.main w = (Crawling.Ok tt, w') ∧
    Crawling.requests w'
    = Crawling.requests w ++ Crawling.SITEMAP_URL :: omap id (batch S urls) ∧
    (length (omap id (batch S urls)) ≤ Crawling.BATCH_SIZE)%nat ∧
    ∀ u, u ∈ omap id (batch S urls) → (Some u ∉ S) ∧ Some u ∈ urls.
Proof.
  intros Hload Hfetch. rewrite (main_run w w1 S urls Hload Hfetch).
  destruct (for_each_process (batch S urls) w1) as (w' & new & Hrun & Hlog & _).
  destruct (fetch_sitemap_spec w) as [_ Hlog1]. rewrite Hfetch in Hlog1.
  simpl in Hlog1.
  exists w'. split; [done|]. split; [|split].
  - rewrite Hlog, Hlog1, <- app_assoc. done.
  - etransitivity; [apply length_omap_le|]. unfold batch.
    rewrite length_take. lia.
  - intros u (x & Hx & Hu)%list_elem_of_omap. simpl in Hu. subst x.
    by apply elem_of_batch.
Qed.

Lemma main_requests_witness :
  ∃ w',
    @Crawling.main small_site half_done = (Crawling.Ok tt, w') ∧
    Crawling.requests w'
    = Crawling.requests half_done
      ++ Crawling.SITEMAP_URL
         :: omap id (batch {[ Some "https://florisera.com/a/" ]}
                       [Some "https://florisera.com/a/"; None;
                        Some "https://florisera.com/b/"]) ∧
    (length (omap id (batch {[ Some "https://florisera.com/a/" ]}
                        [Some "https://florisera.com/a/"; None;
                         Some "https://florisera.com/b/"]))
     ≤ Crawling.BATCH_SIZE)%nat ∧
    ∀ u, u ∈ omap id (batch {[ Some "https://florisera.com/a/" ]}
                        [Some "https://florisera.com/a/"; None;
                         Some "https://florisera.com/b/"]) →
         (Some u ∉ ({[ Some "https://florisera.com/a/" ]} : gset (option string))) ∧
         Some u ∈ [Some "https://florisera.com/a/"; None;
                   Some "https://florisera.com/b/"].
Proof.
  apply (@main_requests small_site half_done
           (Crawling.mkWorld (Crawling.csv_file half_done) [Crawling.SITEMAP_URL])).
  - vm_compute. reflexivity.
  - vm_compute. reflexivity.
Defined.

(** Whatever happens in a run, the records of the progress file are kept:
    the file is left as it was, or its records are followed by new ones
    (after the header, when the file was absent; a header without a record
    is what a save that failed leaves behind). Each new record has seven
    fields without lone surrogates, [1] as the last, and as the first a URL
    that was requested in this run. *)
Theorem main_only_appends `{Crawling.Web} (w : Crawling.world) :
  ∃ new,
    extended (Crawling.csv_file w) (Crawling.csv_file (Crawling.main w).2) new ∧
    Forall (fun row => ∃ u, saved_for u row ∧
              u ∈ drop (length (Crawling.requests w))
                    (Crawling.requests (Crawling.main w).2)) new.
Proof.
  pose proof (load_keeps w) as Hkeep.
  destruct (Crawling.load_processed_urls w) as [[S|e] w0] eqn:Hload;
    simpl in Hkeep; subst w0.
  - destruct (fetch_sitemap_spec w) as [Hfile1 Hlog1].
    destruct (Crawling.fetch_sitemap_urls w) as [[urls|e] w1] eqn:Hfetch;
      simpl in Hfile1, Hlog1.
    + rewrite (main_run w w1 S urls Hload Hfetch).
      destruct (for_each_process (batch S urls) w1)
        as (w' & new & -> & Hlog & Hfile & Hall & _).
      exists new. simpl. split; [by rewrite <- Hfile1|].
      eapply Forall_impl; [exact Hall|]. intros row (u & Hin & Hsaved).
      exists u. split; [done|].
      rewrite Hlog, Hlog1, <- app_assoc, drop_app_length.
      apply elem_of_cons. right. apply list_elem_of_omap. by exists (Some u).
    + rewrite (main_fetch_raises w w1 S e Hload Hfetch). exists [].
      split; [left; by split|done].
  - rewrite (main_load_raises w e Hload). exists []. split; [by left|done].
Qed.



(** ** Examples of the crawler *)

Example small_site_is_healthy :
  @healthy small_site [Some "https://florisera.com/a/"; None;
                       Some "https://florisera.com/b/"].
Proof.
  intros history u Hu. exists (Crawling.mkResponse 200 u u).
  apply list_elem_of_In in Hu. simpl in Hu.
  destruct Hu as [[= <-]|[[=]|[[= <-]|[]]]];
    (eexists; split; [reflexivity|]; split; [reflexivity|];
     split; [reflexivity|]; apply (bool_decide_unpack _); vm_compute; exact I).
Qed.

Example crawl_the_rest :
  (@Crawling.main small_site half_done).2
  = Crawling.mkWorld
      (Some [ Crawling.CSV_COLUMNS;
              ["https://florisera.com/a/"; "A"; "a"; "a"; "k"; "Posts"; "1"];
              ["https://florisera.com/b/"; "B"; "b"; "b"; "k"; "Posts"; "0"];
              ["https://florisera.com/b/"; "https://florisera.com/b/"; "about";
               "about"; "k1, k2"; "Posts"; "1"] ])
      [Crawling.SITEMAP_URL; "https://florisera.com/b/"].
Proof. vm_compute. reflexivity. Qed.

(** A first run on a site whose second page has a lone surrogate in its
    title: the page is requested, its record cannot be written and is
    skipped, and the run returns. *)
Example surrogate_page_is_skipped :
  @Crawling.main surrogate_site (Crawling.mkWorld None [])
  = (Crawling.Ok tt,
     Crawling.mkWorld
       (Some [ Crawling.CSV_COLUMNS;
               ["https://florisera.com/a/"; "https://florisera.com/a/"; "about";
                "about"; "k1, k2"; "Posts"; "1"] ])
       [Crawling.SITEMAP_URL; "https://florisera.com/a/";
        "https://florisera.com/b/"]).
Proof. vm_compute. reflexivity. Qed.

(** Saving a record with a lone surrogate into an absent file: the file
    then holds the header and nothing else. *)
Example header_alone :
  Crawling.csv_file
    (Crawling.save_article_metadata
       {[ "url" := "https://florisera.com/b/"; "title" := x_surrogate ]} true
       (Crawling.mkWorld None [])).2
  = Some [Crawling.CSV_COLUMNS].
Proof. vm_compute. reflexivity. Qed.

Example foreign_file_raises :
  Crawling.load_processed_urls foreign_file
  = (Crawling.Raise (Crawling.KeyError "url"), foreign_file).
Proof. vm_compute. reflexivity. Qed.
